(** * MixWise cocktail data pipeline: enricher and validators

    A shallow embedding of the three scripts of the repository
    ([scripts/enrich_cocktails.py], [scripts/validate_ingredients.py],
    [scripts/validate_slugs.py]) together with the properties their
    specification states about them.

    Python values are modelled as follows.
    - A [str] is the list of its Unicode code points ([pystr]).
    - The character tables of the interpreter ([str.isspace], [str.isalnum],
      [str.lower]) are written out for U+0000..U+00FF, the range every
      literal of the scripts lies in; above U+00FF they are taken from a
      [Unicode] structure that the development is parametric in.
    - Regular expressions are a small syntax tree run by a backtracking
      matcher that follows the priorities of Python's [re].
    - The rows a [csv.DictReader] yields are records of the cells the
      scripts read. *)

From Stdlib Require Import NArith List String Ascii Bool Lia.
From stdpp Require Import base option list strings gmap.

Local Open Scope N_scope.

(** ** Python strings *)

Module Py.

Abbreviation pystr := (list N).

(** Decoding of a UTF-8 byte sequence: the scripts are UTF-8 text and Rocq
    string literals are byte strings, so literals go through [utf8]. *)
Fixpoint utf8_bytes (bs : list N) : pystr :=
  match bs with
  | [] => []
  | b0 :: t0 =>
    if b0 <? 128 then b0 :: utf8_bytes t0
    else match t0 with
    | [] => [b0]
    | b1 :: t1 =>
      if b0 <? 224 then ((b0 - 192) * 64 + (b1 - 128)) :: utf8_bytes t1
      else match t1 with
      | [] => [b0; b1]
      | b2 :: t2 =>
        if b0 <? 240
        then ((b0 - 224) * 4096 + (b1 - 128) * 64 + (b2 - 128)) :: utf8_bytes t2
        else match t2 with
        | [] => [b0; b1; b2]
        | b3 :: t3 =>
          ((b0 - 240) * 262144 + (b1 - 128) * 4096 + (b2 - 128) * 64 + (b3 - 128))
            :: utf8_bytes t3
        end
      end
    end
  end.

Definition utf8 (s : string) : pystr :=
  utf8_bytes (map N_of_ascii (list_ascii_of_string s)).

(** *** Character tables

    [str.isspace], [str.isalnum] and the lowercase mapping for the code
    points below U+0100, as CPython's Unicode database has them. *)

Definition latin1_isspace (c : N) : bool :=
  ((9 <=? c) && (c <=? 13)) || ((28 <=? c) && (c <=? 32))
  || (c =? 133) || (c =? 160).

Definition latin1_isalnum (c : N) : bool :=
  ((48 <=? c) && (c <=? 57)) || ((65 <=? c) && (c <=? 90))
  || ((97 <=? c) && (c <=? 122))
  || (c =? 170) || (c =? 178) || (c =? 179) || (c =? 181) || (c =? 185)
  || (c =? 186) || ((188 <=? c) && (c <=? 190))
  || ((192 <=? c) && (c <=? 214)) || ((216 <=? c) && (c <=? 246))
  || ((248 <=? c) && (c <=? 255)).

Definition latin1_lower (c : N) : N :=
  if ((65 <=? c) && (c <=? 90)) || ((192 <=? c) && (c <=? 214))
     || ((216 <=? c) && (c <=? 222))
  then c + 32 else c.

(** The tables above U+00FF.  [uni_lower before c after] is the lowercase
    mapping of [c] standing between [before] and [after]: the mapping of a
    code point is a sequence (full case mapping) and that of capital sigma
    depends on its neighbours. *)
Class Unicode := {
  uni_isspace : N -> bool;
  uni_isalnum : N -> bool;
  uni_lower : pystr -> N -> pystr -> pystr
}.

(** A database with nothing above U+00FF: no letters, no spaces, no case. *)
Definition Latin1 : Unicode :=
  {| uni_isspace := fun _ => false;
     uni_isalnum := fun _ => false;
     uni_lower := fun _ c _ => [c] |}.

Section Str.
Context {U : Unicode}.

Definition isspace (c : N) : bool :=
  if c <? 256 then latin1_isspace c else uni_isspace c.

Definition isalnum (c : N) : bool :=
  if c <? 256 then latin1_isalnum c else uni_isalnum c.

Definition lower_cp (before : pystr) (c : N) (after : pystr) : pystr :=
  if c <? 256 then [latin1_lower c] else uni_lower before c after.

Fixpoint lower_from (before s : pystr) : pystr :=
  match s with
  | [] => []
  | c :: t => lower_cp before c t ++ lower_from (before ++ [c]) t
  end.

(** [s.lower()] *)
Definition lower (s : pystr) : pystr := lower_from [] s.

Fixpoint lstrip_by (p : N -> bool) (s : pystr) : pystr :=
  match s with
  | [] => []
  | c :: t => if p c then lstrip_by p t else s
  end.

Definition rstrip_by (p : N -> bool) (s : pystr) : pystr :=
  rev (lstrip_by p (rev s)).

Definition strip_by (p : N -> bool) (s : pystr) : pystr :=
  rstrip_by p (lstrip_by p s).

(** [s.strip()] *)
Definition strip (s : pystr) : pystr := strip_by isspace s.

(** [s.strip(chars)] *)
Definition strip_chars (chars s : pystr) : pystr :=
  strip_by (fun c => existsb (N.eqb c) chars) s.

Fixpoint starts (p s : pystr) : bool :=
  match p, s with
  | [], _ => true
  | _ :: _, [] => false
  | a :: p', b :: s' => (a =? b) && starts p' s'
  end.

(** [s.startswith(p)] and [s.endswith(p)] *)
Definition startswith (s p : pystr) : bool := starts p s.
Definition endswith (s p : pystr) : bool := starts (rev p) (rev s).

(** [sub in s] *)
Fixpoint contains (sub s : pystr) : bool :=
  starts sub s || match s with [] => false | _ :: t => contains sub t end.

(** [s.count(c)] for a one-character [c] *)
Definition count_char (c : N) (s : pystr) : nat :=
  length (List.filter (fun x => x =? c) s).

(** [s.split(c)] for a one-character separator [c] *)
Fixpoint split_char (c : N) (s : pystr) : list pystr :=
  match s with
  | [] => [[]]
  | x :: t =>
    if x =? c then [] :: split_char c t
    else match split_char c t with
         | [] => [[x]]
         | w :: ws => (x :: w) :: ws
         end
  end.

(** [s == t] *)
Definition str_eq (s t : pystr) : bool := bool_decide (s = t).

End Str.

(** *** Regular expressions

    The fragment of Python's [re] syntax the scripts use.  Patterns are
    [str] patterns compiled without flags: classes are Unicode aware, [^]
    matches at position 0 only, [$] at the end and before a final newline,
    [.] anything but a newline. *)

Inductive cset : Type :=
| CChar (c : N)             (* a literal member *)
| CRange (lo hi : N)        (* lo-hi *)
| CSpace                    (* \s *)
| CWord.                    (* \w *)

Inductive regex : Type :=
| Eps
| Lit (c : N)
| Cls (negated : bool) (items : list cset)
| Dot
| Bol
| Eol
| Cat (r1 r2 : regex)
| Star (r : regex)
| Opt (r : regex).

Definition Plus (r : regex) : regex := Cat r (Star r).

(** A literal run of characters and a sequence of sub-patterns. *)
Definition Str (s : pystr) : regex := foldr (fun c r => Cat (Lit c) r) Eps s.
Definition Seq (rs : list regex) : regex := foldr Cat Eps rs.

(** Reading a pattern as the scripts write it (no groups, no alternation):
    atoms, each with an optional [*], [+] or [?]. *)
Definition escape_item (e : N) : option cset :=
  if e =? 115 then Some CSpace            (* \s *)
  else if e =? 119 then Some CWord        (* \w *)
  else if latin1_isalnum e then None      (* other letter escapes: unused *)
  else Some (CChar e).                    (* \. and the like *)

Fixpoint parse_class (s : pystr) (acc : list cset) : option (list cset * pystr) :=
  match s with
  | [] => None
  | c :: t =>
    if c =? 93 then Some (rev acc, t)                        (* ] *)
    else if c =? 92 then                                     (* \ *)
      match t with
      | e :: t' =>
        match escape_item e with
        | Some it => parse_class t' (it :: acc)
        | None => None
        end
      | [] => None
      end
    else
      match t with
      | d :: hi :: t' =>
        if (d =? 45) && negb (hi =? 93)                      (* lo-hi *)
        then parse_class t' (CRange c hi :: acc)
        else parse_class t (CChar c :: acc)
      | _ => parse_class t (CChar c :: acc)
      end
  end.

Definition parse_atom (s : pystr) : option (regex * pystr) :=
  match s with
  | [] => None
  | c :: t =>
    if c =? 94 then Some (Bol, t)                            (* ^ *)
    else if c =? 36 then Some (Eol, t)                       (* $ *)
    else if c =? 46 then Some (Dot, t)                       (* . *)
    else if c =? 92 then                                     (* \ *)
      match t with
      | e :: t' =>
        match escape_item e with
        | Some (CChar x) => Some (Lit x, t')
        | Some it => Some (Cls false [it], t')
        | None => None
        end
      | [] => None
      end
    else if c =? 91 then                                     (* [ *)
      match t with
      | 94 :: t' =>
        match parse_class t' [] with
        | Some (items, rest) => Some (Cls true items, rest)
        | None => None
        end
      | _ =>
        match parse_class t [] with
        | Some (items, rest) => Some (Cls false items, rest)
        | None => None
        end
      end
    else if (c =? 42) || (c =? 43) || (c =? 63) || (c =? 40) || (c =? 41)
            || (c =? 124) || (c =? 123) || (c =? 125)
    then None                                                (* unused syntax *)
    else Some (Lit c, t)
  end.

Fixpoint parse_seq (fuel : nat) (s : pystr) : option regex :=
  match fuel with
  | O => match s with [] => Some Eps | _ => None end
  | S fuel' =>
    match s with
    | [] => Some Eps
    | _ =>
      match parse_atom s with
      | None => None
      | Some (a, rest) =>
        let '(a', rest') :=
          match rest with
          | 42 :: t => (Star a, t)
          | 43 :: t => (Plus a, t)
          | 63 :: t => (Opt a, t)
          | _ => (a, rest)
          end in
        match parse_seq fuel' rest' with
        | Some r => Some (Cat a' r)
        | None => None
        end
      end
    end
  end.

Definition parse (pattern : pystr) : option regex :=
  parse_seq (length pattern) pattern.

(** [re.compile(pattern)]; text outside the fragment never matches. *)
Definition compile (pattern : pystr) : regex :=
  default (Cls false []) (parse pattern).

Definition orelse {A} (x y : option A) : option A :=
  match x with Some _ => x | None => y end.

Section Re.
Context {U : Unicode}.

(** A word character: alphanumeric or the underscore. *)
Definition is_word (c : N) : bool := isalnum c || (c =? 95).

Definition in_cset (c : N) (i : cset) : bool :=
  match i with
  | CChar x => c =? x
  | CRange lo hi => (lo <=? c) && (c <=? hi)
  | CSpace => isspace c
  | CWord => is_word c
  end.

Definition in_class (negated : bool) (items : list cset) (c : N) : bool :=
  xorb negated (existsb (in_cset c) items).

(** The loop of a repetition: [body] is the matcher of the repeated
    pattern.  Another iteration is tried first, and it has to consume
    input; [fuel] bounds the iterations by the length of the subject. *)
Fixpoint star_loop (body : nat -> pystr -> (nat -> pystr -> option pystr) -> option pystr)
    (k : nat -> pystr -> option pystr) (fuel i : nat) (s : pystr) : option pystr :=
  match fuel with
  | O => k i s
  | S fuel' =>
    orelse
      (body i s (fun i' s' =>
         if (length s' <? length s)%nat then star_loop body k fuel' i' s' else None))
      (k i s)
  end.

(** The backtracking matcher: [rmatch r i s k] matches [r] at position [i],
    where [s] is the rest of the subject, and hands the position and rest
    after the match to [k]; alternatives are tried in the order Python tries
    them (a repetition takes as much as it can first). *)
Fixpoint rmatch (r : regex) (i : nat) (s : pystr)
    (k : nat -> pystr -> option pystr) {struct r} : option pystr :=
  match r with
  | Eps => k i s
  | Lit c =>
    match s with
    | x :: t => if x =? c then k (S i) t else None
    | [] => None
    end
  | Cls negated items =>
    match s with
    | x :: t => if in_class negated items x then k (S i) t else None
    | [] => None
    end
  | Dot =>
    match s with
    | x :: t => if x =? 10 then None else k (S i) t
    | [] => None
    end
  | Bol => match i with O => k i s | S _ => None end
  | Eol =>
    match s with
    | [] => k i s
    | [x] => if x =? 10 then k i s else None
    | _ => None
    end
  | Cat r1 r2 => rmatch r1 i s (fun i' s' => rmatch r2 i' s' k)
  | Opt r1 => orelse (rmatch r1 i s k) (k i s)
  | Star r1 => star_loop (rmatch r1) k (length s) i s
  end.

(** [re.match(r, s)]: the rest of [s] after the match, if there is one. *)
Definition re_match (r : regex) (s : pystr) : option pystr :=
  rmatch r 0 s (fun _ rest => Some rest).

(** The truth value of a match object or [None]. *)
Definition matched (m : option pystr) : bool :=
  match m with Some _ => true | None => false end.

(** [re.search(r, s)]: a match at the first position that has one. *)
Fixpoint search_from (r : regex) (i : nat) (s : pystr) : option pystr :=
  orelse (rmatch r i s (fun _ rest => Some rest))
         match s with
         | [] => None
         | _ :: t => search_from r (S i) t
         end.

Definition re_search (r : regex) (s : pystr) : option pystr := search_from r 0 s.

(** [re.sub(r, repl, s)] with a plain replacement string: scanning from
    the left, each match is replaced and the scan goes on after it; an
    empty match is replaced too and the next character copied. *)
Fixpoint sub_from (r : regex) (repl : pystr) (fuel i : nat) (s : pystr) : pystr :=
  match fuel with
  | O => s
  | S fuel' =>
    let step :=
      match s with
      | [] => []
      | c :: t => c :: sub_from r repl fuel' (S i) t
      end in
    match rmatch r i s (fun _ rest => Some rest) with
    | Some rest =>
      if (length rest <? length s)%nat
      then repl ++ sub_from r repl fuel' (i + (length s - length rest)) rest
      else repl ++ step
    | None => step
    end
  end.

Definition re_sub (r : regex) (repl s : pystr) : pystr :=
  sub_from r repl (S (length s)) 0 s.

End Re.

End Py.

Notation "'u' s" := (Py.utf8 s%string) (at level 1, s at level 0, only parsing).
Notation "'rx' s" := (Py.compile (Py.utf8 s%string)) (at level 1, s at level 0, only parsing).

Module PyTest.
Import Py.
Example utf8_ascii : u"b-52" = [98; 45; 53; 50].
Proof. reflexivity. Qed.
Example utf8_latin1 : u"piña" = [112; 105; 241; 97].
Proof. reflexivity. Qed.
Example lower_latin1 : lower (U := Latin1) u"Piña COLADA É" = u"piña colada é".
Proof. reflexivity. Qed.
Example strip_ex : strip (U := Latin1) u"  a b	 " = u"a b".
Proof. reflexivity. Qed.
Example split_ex : split_char 124 u"a|b||c" = [u"a"; u"b"; u""; u"c"].
Proof. reflexivity. Qed.
Example split_empty : split_char 124 u"" = [u""].
Proof. reflexivity. Qed.
Example contains_ex : contains u"???" u"gin???" = true /\ contains u"???" u"gin??" = false.
Proof. split; reflexivity. Qed.
Example re_match_ex :
  re_match (U := Latin1) (Seq [Str u"brain"; Star (Cls false [CSpace]); Str u"fart"])
    u"brain  fart xyz" = Some u" xyz".
Proof. reflexivity. Qed.
Example re_sub_ex :
  re_sub (U := Latin1) (Plus (Cls false [CSpace; CChar 95])) u"-" u"a _ b__c " = u"a-b-c-".
Proof. reflexivity. Qed.
Example re_eol_newline :
  re_match (U := Latin1) (Seq [Bol; Plus (Cls false [CRange 97 122]); Eol]) [97; 98; 10]
    = Some [10].
Proof. reflexivity. Qed.
Example parse_junk :
  parse u"^a\.?\s*j\.?$"
  = Some (Seq [Bol; Lit 97; Opt (Lit 46); Star (Cls false [CSpace]); Lit 106;
               Opt (Lit 46); Eol]).
Proof. reflexivity. Qed.
Example parse_url_safe :
  parse u"^[a-z0-9-]+$"
  = Some (Seq [Bol; Plus (Cls false [CRange 97 122; CRange 48 57; CChar 45]); Eol]).
Proof. reflexivity. Qed.
Example parse_not_word :
  parse u"[^\w\s-]" = Some (Seq [Cls true [CWord; CSpace; CChar 45]]).
Proof. reflexivity. Qed.
Example parse_dotstar :
  parse u"fl.*ke$" = Some (Seq [Lit 102; Lit 108; Star Dot; Lit 107; Lit 101; Eol]).
Proof. reflexivity. Qed.
End PyTest.

(** ** Rows of a CSV file

    A row as [csv.DictReader] yields it: the cells by column name. *)

Module Csv.
Import Py.

Abbreviation row := (gmap string pystr).

(** [row.get(key, '')] *)
Definition get (r : row) (key : string) : pystr := default [] (r !! key).

End Csv.

(** ** The enricher ([scripts/enrich_cocktails.py]) *)

Module Enrich.
Import Py.

(** [LEGITIMATE_COCKTAILS], the entries of the set literal in source order
    (an entry written twice is listed twice; membership is all that is
    asked of it). *)
Definition LEGITIMATE_COCKTAILS : list pystr := [
  u"alexander"; u"americano"; u"aviation"; u"b-52"; u"bellini"; u"bijou"; u"bramble";
  u"caipirinha"; u"casino"; u"clover club"; u"cosmopolitan"; u"cuba libre";
  u"daiquiri"; u"dry martini"; u"espresso martini"; u"french 75"; u"french connection";
  u"gimlet"; u"gin fizz"; u"godfather"; u"godmother"; u"grasshopper"; u"greyhound";
  u"harvey wallbanger"; u"hemingway special"; u"horse's neck"; u"irish coffee";
  u"john collins"; u"long island iced tea"; u"mai tai"; u"manhattan"; u"margarita";
  u"martini"; u"mimosa"; u"mint julep"; u"mojito"; u"moscow mule"; u"negroni";
  u"old fashioned"; u"paloma"; u"pina colada"; u"pisco sour"; u"planter's punch";
  u"porto flip"; u"ramos gin fizz"; u"rob roy"; u"rusty nail"; u"sazerac";
  u"screwdriver"; u"sea breeze"; u"sex on the beach"; u"sidecar"; u"singapore sling";
  u"tequila sunrise"; u"tom collins"; u"vesper"; u"whiskey sour"; u"white russian";
  u"blood and sand"; u"boulevardier"; u"brandy alexander"; u"bronx"; u"brooklyn";
  u"casino royale"; u"corpse reviver"; u"last word"; u"martinez"; u"monkey gland";
  u"pegu club"; u"pink lady"; u"ramos fizz"; u"vieux carré"; u"ward eight";
  u"widow's kiss"; u"army & navy"; u"bamboo"; u"hanky panky"; u"income tax";
  u"aperol spritz"; u"dark 'n' stormy"; u"espresso martini"; u"french martini";
  u"bramble"; u"tommy's margarita"; u"penicillin"; u"naked and famous"; u"paper plane";
  u"suffering bastard"; u"ti' punch"; u"jungle bird"; u"chartreuse swizzle"; u"zombie";
  u"mai tai"; u"painkiller"; u"navy grog"; u"fog cutter"; u"pearl diver"; u"saturn";
  u"three dots and a dash"; u"missionary's downfall"; u"rum runner"; u"bahama mama";
  u"blue hawaiian"; u"chi chi"; u"hurricane"; u"jet pilot"; u"piña colada";
  u"planter's punch"; u"scorpion"; u"suffering bastard"; u"elderflower collins";
  u"gold rush"; u"oaxaca old fashioned"; u"division bell"; u"death flip";
  u"greenpoint"; u"little italy"; u"red hook"; u"trident"; u"bitter giuseppe";
  u"black manhattan"; u"bobby burns"; u"brandy crusta"; u"breakfast martini";
  u"benton's old fashioned"; u"chrysanthemum"; u"improved whiskey cocktail"; u"adonis";
  u"affinity"; u"algonquin"; u"artillery"; u"barracuda"; u"bellini"; u"blinker";
  u"bobby burns"; u"boston sour"; u"bramble"; u"bronx"; u"brooklyn"; u"buck's fizz";
  u"caipirissima"; u"champagne cocktail"; u"clover club"; u"cornell";
  u"death in the afternoon"; u"derby"; u"diamond fizz"; u"dubonnet cocktail";
  u"el presidente"; u"english rose cocktail"; u"fiance"; u"fitzgerald"; u"flamingo";
  u"french negroni"; u"frose"; u"frozen daiquiri"; u"gibson"; u"gimlet";
  u"gin and tonic"; u"gin daisy"; u"gin fizz"; u"gin rickey"; u"gin sour";
  u"gluehwein"; u"golden dream"; u"grasshopper"; u"hemingway daiquiri"; u"hot toddy";
  u"improved cognac cocktail"; u"irish coffee"; u"jack rose"; u"japanese cocktail";
  u"kir"; u"kir royale"; u"lemondrop"; u"long island iced tea"; u"lynchburg lemonade";
  u"manhattan"; u"margarita"; u"mary pickford"; u"mexican firing squad";
  u"millionaire cocktail"; u"mint julep"; u"mojito"; u"moscow mule"; u"negroni";
  u"negroni sbagliato"; u"old cuban"; u"old fashioned"; u"paloma"; u"paradise";
  u"pegu club"; u"pimm's cup"; u"pisco sour"; u"planter's punch";
  u"port and starboard"; u"ramos gin fizz"; u"remember the maine"; u"rob roy";
  u"rusty nail"; u"sazerac"; u"scofflaw"; u"screwdriver"; u"seelbach";
  u"sherry cobbler"; u"sidecar"; u"singapore sling"; u"sloe gin fizz"; u"smithsonian";
  u"southside"; u"stinger"; u"suffering bastard"; u"tequila sunrise"; u"tom collins";
  u"toronto"; u"twentieth century"; u"vesper"; u"vieux carré"; u"ward eight";
  u"whiskey smash"; u"whiskey sour"; u"white lady"; u"white russian"; u"yellow bird";
  u"adonis"; u"bijou"; u"boothby"; u"boxcar"; u"brandy crusta"; u"casino";
  u"chicago fizz"; u"corn n oil"; u"dark caipirinha"; u"dirty martini"; u"dragonfly";
  u"dry rob roy"; u"duchamp's punch"; u"english highball"; u"fancy free";
  u"figgy thyme"; u"flying dutchman"; u"flying scotchman"; u"frisco sour";
  u"frozen mint daiquiri"; u"frozen pineapple daiquiri"; u"gagliardo"; u"gin and it";
  u"gin cooler"; u"gin daisy"; u"gin lemon"; u"gin rickey"; u"gin sling"; u"gin smash";
  u"gin squirt"; u"gin swizzle"; u"gin toddy"; u"gin tonic"; u"grass skirt";
  u"grim reaper"; u"pink gin"; u"sherry flip"; u"stone sour"; u"amaretto sour";
  u"apple martini"; u"b-53"; u"between the sheets"; u"black russian"; u"blackthorn";
  u"blue lagoon"; u"bluebird"; u"bora bora"; u"boomerang"; u"brigadier"; u"buccaneer";
  u"bumble bee"; u"cherry bomb"; u"cuba libra"; u"dirty nipple";
  u"flaming lamborghini"; u"freddy kruger"; u"french 75"; u"foxy lady";
  u"funk and soul"; u"gin and tonic"; u"godchild"; u"grand blue"; u"godson";
  u"kamikaze"; u"kir"; u"kiss on the lips"; u"lemon drop"; u"lion's tail";
  u"long vodka"; u"lynchburg lemonade"; u"madras"; u"melon ball"; u"metropolitan";
  u"midori sour"; u"mother's milk"; u"mudslide"; u"new york sour"; u"nuclear daiquiri";
  u"orange push-up"; u"orgasm"; u"passion fruit martini"; u"pimm's cup";
  u"pink panther"; u"purple haze"; u"radioactive long island iced tea"; u"red snapper";
  u"royal gin fizz"; u"rum and coke"; u"rum punch"; u"rum swizzle"; u"sake bomb";
  u"salty dog"; u"savoy tango"; u"screaming orgasm"; u"slippery nipple"; u"snow ball";
  u"southern comfort manhattan"; u"southern peach"; u"stinger"; u"strawberry daiquiri";
  u"sweet martini"; u"tequila slammer"; u"tequila sunrise"; u"tipperary";
  u"tokyo iced tea"; u"turf club"; u"valencia"; u"vampire"; u"vodka martini";
  u"vodka tonic"; u"woo woo"; u"acapulco"; u"affair"; u"allegheny"; u"almeria";
  u"applecar"; u"avalon"; u"balmoral"; u"boston sour"; u"cafe savoy"; u"casa blanca";
  u"cherry rum"; u"chocolate milk"
].

(** [JUNK_PATTERNS], the pattern texts. *)
Definition JUNK_PATTERNS : list pystr := [
  u"^[a-z]$"; u"^a1$"; u"^abc$"; u"^ace$"; u"^at&t$"; u"^acid$"; u"^adam$";
  u"^a\.?\s*j\.?$"; u"^abilene$"; u"^addison$"; u"^apello$"; u"^avalanche$";
  u"brain\s*fart"; u"fuzzy\s*asshole"; u"flaming\s*dr\.?\s*pepper";
  u"fahrenheit\s*5000"; u"big\s*red$"; u"bible\s*belt"; u"baby\s*eskimo";
  u"bob\s*marley"; u"bubble\s*gum$"; u"citrus\s*coke$"; u"^gg$";
  u"damned\s*if\s*you\s*do"; u"egg\s*cream$"; u"coke\s*and\s*drops"; u"diesel$";
  u"danbooka$"; u"downshift$"; u"darkwood\s*sling"; u"flander.*flake";
  u"afterglow$"; u"addington$"; u"^affair$"
].

Section Enricher.
Context {U : Unicode}.

(** [normalize_name(name)]; [name] is a [str] or [None]. *)
Definition normalize_name (name : option pystr) : pystr :=
  match name with
  | None | Some [] => u""
  | Some name => strip (re_sub rx"[^\w\s]" u"" (lower name))
  end.

(** The [for pattern in JUNK_PATTERNS] loop of [is_legitimate_cocktail] and
    the membership test after it. *)
Fixpoint junk_loop (patterns : list pystr) (normalized : pystr) : bool :=
  match patterns with
  | [] => bool_decide (normalized ∈ LEGITIMATE_COCKTAILS)
  | pattern :: patterns' =>
    if matched (re_match (compile pattern) normalized) then false
    else junk_loop patterns' normalized
  end.

Definition is_legitimate_cocktail (name : option pystr) : bool :=
  let normalized := normalize_name name in
  junk_loop JUNK_PATTERNS normalized.

Definition create_slug (name : pystr) : pystr :=
  let slug := lower name in
  let slug := re_sub rx"[^\w\s-]" u"" slug in
  let slug := re_sub rx"[\s_]+" u"-" slug in
  let slug := strip_chars u"-" slug in
  slug.

(** [any(x in s for x in xs)] *)
Definition any_in (xs : list pystr) (s : pystr) : bool :=
  existsb (fun x => contains x s) xs.

Definition generate_flavor_profile (name aspect : pystr) : Z :=
  let name_lower := lower name in
  if str_eq aspect u"strength" then
    if any_in [u"martini"; u"manhattan"; u"negroni"; u"sazerac"; u"old fashioned"] name_lower
    then 8
    else if any_in [u"shot"; u"shooter"] name_lower then 9
    else if any_in [u"spritz"; u"mimosa"; u"bellini"] name_lower then 3
    else 6
  else if str_eq aspect u"sweetness" then
    if any_in [u"pina colada"; u"mai tai"; u"sex on the beach"] name_lower then 8
    else if any_in [u"martini"; u"negroni"; u"sazerac"] name_lower then 2
    else 5
  else if str_eq aspect u"tartness" then
    if any_in [u"sour"; u"daiquiri"; u"margarita"; u"gimlet"] name_lower then 7
    else if any_in [u"old fashioned"; u"manhattan"; u"negroni"] name_lower then 2
    else 4
  else if str_eq aspect u"bitterness" then
    if any_in [u"negroni"; u"americano"; u"aperol"] name_lower then 7
    else if any_in [u"daiquiri"; u"mojito"; u"pina colada"] name_lower then 1
    else 3
  else if str_eq aspect u"aroma" then
    if any_in [u"martini"; u"gin"; u"aviation"; u"negroni"] name_lower then 7
    else 5
  else if str_eq aspect u"texture" then
    if any_in [u"flip"; u"sour"] name_lower && contains u"egg" name_lower then 8
    else if any_in [u"frozen"; u"blended"; u"pina colada"] name_lower then 7
    else if any_in [u"martini"; u"manhattan"] name_lower then 4
    else 5
  else 5.

(** The row [enrich_cocktail] builds.  Of its 28 fields the record keeps
    the identifier, the slug, the name and the six flavor ratings; the other
    fields are derived from the name on their own and nothing reads them
    back. *)
Record enriched : Type := {
  e_id : pystr;
  e_slug : pystr;
  e_name : pystr;
  flavor_strength : Z;
  flavor_sweetness : Z;
  flavor_tartness : Z;
  flavor_bitterness : Z;
  flavor_aroma : Z;
  flavor_texture : Z
}.

Definition set_slug (e : enriched) (slug : pystr) : enriched :=
  {| e_id := e_id e; e_slug := slug; e_name := e_name e;
     flavor_strength := flavor_strength e; flavor_sweetness := flavor_sweetness e;
     flavor_tartness := flavor_tartness e; flavor_bitterness := flavor_bitterness e;
     flavor_aroma := flavor_aroma e; flavor_texture := flavor_texture e |}.

(** [enrich_cocktail(row)]; [None] is the [KeyError] of [row['name']] or
    [row['id']] on a row without that column. *)
Definition enrich_cocktail (row : Csv.row) : option enriched :=
  match row !! "name"%string with
  | None => None
  | Some name =>
    let name := strip name in
    let slug := create_slug name in
    match row !! "id"%string with
    | None => None
    | Some id =>
      Some {| e_id := id; e_slug := slug; e_name := name;
              flavor_strength := generate_flavor_profile name u"strength";
              flavor_sweetness := generate_flavor_profile name u"sweetness";
              flavor_tartness := generate_flavor_profile name u"tartness";
              flavor_bitterness := generate_flavor_profile name u"bitterness";
              flavor_aroma := generate_flavor_profile name u"aroma";
              flavor_texture := generate_flavor_profile name u"texture" |}
    end
  end.

(** The filter loop of [main]: the rows kept. *)
Definition filter_legitimate (rows : list Csv.row) : list Csv.row :=
  List.filter (fun row => is_legitimate_cocktail (Some (strip (Csv.get row "name")))) rows.

(** The enrichment loop of [main], from a state of [enriched_cocktails] and
    [seen_slugs]; a row whose enrichment raises is reported and left out. *)
Fixpoint enrich_loop (legitimate : list Csv.row)
    (enriched_cocktails : list enriched) (seen_slugs : gmap pystr pystr)
    : list enriched * gmap pystr pystr :=
  match legitimate with
  | [] => (enriched_cocktails, seen_slugs)
  | row :: rest =>
    match enrich_cocktail row with
    | None => enrich_loop rest enriched_cocktails seen_slugs
    | Some enriched =>
      let slug := e_slug enriched in
      match seen_slugs !! slug with
      | Some _ =>
        let enriched := set_slug enriched (slug ++ u"-" ++ e_id enriched) in
        enrich_loop rest (enriched_cocktails ++ [enriched]) seen_slugs
      | None =>
        enrich_loop rest (enriched_cocktails ++ [enriched])
                    (<[slug := e_id enriched]> seen_slugs)
      end
    end
  end.

(** [main]: the rows written to the enriched CSV. *)
Definition main (rows : list Csv.row) : list enriched :=
  let legitimate := filter_legitimate rows in
  (enrich_loop legitimate [] ∅).1.

End Enricher.

End Enrich.

Module EnrichTest.
Import Py Enrich.
Example legit_martini : is_legitimate_cocktail (U := Latin1) (Some u"Martini") = true.
Proof. vm_compute. reflexivity. Qed.
Example legit_brain_fart : is_legitimate_cocktail (U := Latin1) (Some u"Brain Fart") = false.
Proof. vm_compute. reflexivity. Qed.
Example legit_pina : is_legitimate_cocktail (U := Latin1) (Some u"Piña Colada!") = true.
Proof. vm_compute. reflexivity. Qed.
Example slug_old_fashioned : create_slug (U := Latin1) u"Old Fashioned" = u"old-fashioned".
Proof. vm_compute. reflexivity. Qed.
Example slug_messy : create_slug (U := Latin1) u" _Dark 'n'  Stormy-- " = u"dark-n-stormy".
Proof. vm_compute. reflexivity. Qed.
Example flavor_negroni :
  map (generate_flavor_profile (U := Latin1) u"Negroni")
      [u"strength"; u"sweetness"; u"tartness"; u"bitterness"; u"aroma"; u"texture"]
  = [8; 2; 2; 7; 7; 5]%Z.
Proof. vm_compute. reflexivity. Qed.
Example main_ex :
  map e_slug (main (U := Latin1)
    [ {[ "id" := u"1"; "name" := u"Martini" ]};
      {[ "id" := u"2"; "name" := u"Brain Fart" ]};
      {[ "id" := u"3"; "name" := u" MARTINI! " ]};
      {[ "id" := u"4"; "name" := u"Old Fashioned" ]};
      {[ "id" := u"5"; "name" := u"martini" ]} ]%string)
  = [u"martini"; u"martini-3"; u"old-fashioned"; u"martini-5"].
Proof. vm_compute. reflexivity. Qed.
End EnrichTest.

(** ** The ingredient validator ([scripts/validate_ingredients.py]) *)

Module ValidateIngredients.
Import Py.

(** What a run ends in: the value returned, or the exception raised. *)
Inductive exn : Type := ZeroDivisionError.

Inductive outcome : Type :=
| Returned (success : bool)
| Raised (e : exn).

(** An entry of [errors]:
    [f"Line {i} ({name}): No ingredients listed"] and
    [f"Line {i} ({name}), ingredient #{j}: {error_msg} - '{ingredient}'"]. *)
Inductive error : Type :=
| NoIngredients (i : nat) (name : pystr)
| BadIngredient (i : nat) (name : pystr) (j : nat) (error_msg : string)
                (ingredient : pystr).

(** An entry of [warnings]:
    [f"Line {i} ({name}): Only {len(ingredients)} ingredient(s) listed"] and
    [f"Line {i} ({name}): {len(ingredients)} ingredients listed (very complex cocktail)"]. *)
Inductive warning : Type :=
| OnlyFew (i : nat) (name : pystr) (n : nat)
| VeryMany (i : nat) (name : pystr) (n : nat).

Record state : Type := {
  errors : list error;
  warnings : list warning;
  total_rows : nat;
  total_ingredients : nat
}.

Definition init : state :=
  {| errors := []; warnings := []; total_rows := 0; total_ingredients := 0 |}.

Section Validator.
Context {U : Unicode}.

Definition validate_ingredient_format (ingredient : pystr) : bool * option string :=
  let ingredient := strip ingredient in
  if bool_decide (ingredient = []) then (false, Some "Empty ingredient"%string)
  else if contains u"???" ingredient then (false, Some "Contains '???'"%string)
  else if str_eq ingredient u"null" || str_eq ingredient u"None"
  then (false, Some "Invalid null value"%string)
  else if (length ingredient <? 2)%nat then (false, Some "Too short"%string)
  else if (0 <? count_char 124 ingredient)%nat
  then (false, Some "Contains pipe character (should be split)"%string)
  else if negb (matched (re_search rx"[a-zA-Z]" ingredient))
  then (false, Some "No ingredient name found"%string)
  else (true, None).

(** The loop over [enumerate(ingredients, start=1)]: the errors it appends. *)
Fixpoint check_ingredients (i : nat) (name : pystr) (j : nat)
    (ingredients : list pystr) : list error :=
  match ingredients with
  | [] => []
  | ingredient :: rest =>
    let '(is_valid, error_msg) := validate_ingredient_format ingredient in
    (if is_valid then []
     else [BadIngredient i name j (default ""%string error_msg) ingredient])
    ++ check_ingredients i name (S j) rest
  end.

(** One turn of the loop over the rows, row [row] being line [i]. *)
Definition scan_row (i : nat) (row : Csv.row) (st : state) : state :=
  let total_rows := S (total_rows st) in
  let name := strip (Csv.get row "name") in
  let ingredients_str := strip (Csv.get row "ingredients") in
  if bool_decide (ingredients_str = []) then
    {| errors := errors st ++ [NoIngredients i name];
       warnings := warnings st;
       total_rows := total_rows;
       total_ingredients := total_ingredients st |}
  else
    let ingredients := map strip (split_char 124 ingredients_str) in
    {| errors := errors st ++ check_ingredients i name 1 ingredients;
       warnings :=
         warnings st
         ++ (if (length ingredients <? 2)%nat
             then [OnlyFew i name (length ingredients)] else [])
         ++ (if (15 <? length ingredients)%nat
             then [VeryMany i name (length ingredients)] else []);
       total_rows := total_rows;
       total_ingredients := (total_ingredients st + length ingredients)%nat |}.

(** The loop over [enumerate(reader, start=2)]. *)
Fixpoint scan (i : nat) (rows : list Csv.row) (st : state) : state :=
  match rows with
  | [] => st
  | row :: rest => scan (S i) rest (scan_row i row st)
  end.

(** [validate_ingredients(csv_file)], on the rows of the file.  The report
    divides [total_ingredients] by [total_rows] before anything is returned. *)
Definition validate_ingredients (rows : list Csv.row) : outcome :=
  let st := scan 2 rows init in
  match total_rows st with
  | O => Raised ZeroDivisionError
  | S _ =>
    if bool_decide (errors st = []) then Returned true else Returned false
  end.

(** [main()]; [None] is a path at which no file exists. *)
Definition main (csv_file : option (list Csv.row)) : outcome :=
  match csv_file with
  | None => Returned false
  | Some rows => validate_ingredients rows
  end.

(** The status the process ends with: [exit(0 if success else 1)], and 1
    when the exception reaches the top level. *)
Definition exit_status (o : outcome) : Z :=
  match o with
  | Returned true => 0
  | Returned false => 1
  | Raised _ => 1
  end.

End Validator.

End ValidateIngredients.

(** ** The slug validator ([scripts/validate_slugs.py]) *)

Module ValidateSlugs.
Import Py.

(** An entry of [errors]:
    [f"Line {i}: Empty slug for cocktail '{name}'"],
    [f"Line {i}: Slug '{slug}' contains uppercase letters"],
    [f"Line {i}: Slug '{slug}' is not URL-safe (...)"] and
    [f"Line {i}: Slug '{slug}' has leading or trailing hyphens"]. *)
Inductive error : Type :=
| EmptySlug (i : nat) (name : pystr)
| Uppercase (i : nat) (slug : pystr)
| NotUrlSafe (i : nat) (slug : pystr)
| EdgeHyphen (i : nat) (slug : pystr).

(** An entry of [warnings]:
    [f"Line {i}: Slug '{slug}' contains consecutive hyphens"]. *)
Inductive warning : Type :=
| ConsecutiveHyphens (i : nat) (slug : pystr).

Record state : Type := {
  slugs : list pystr;
  errors : list error;
  warnings : list warning
}.

Definition init : state := {| slugs := []; errors := []; warnings := [] |}.

(** [Counter(slugs)]: the counts by slug, in the order the slugs are first
    seen (the order of [slug_counts.items()]). *)
Fixpoint counter_add (x : pystr) (counts : list (pystr * nat)) : list (pystr * nat) :=
  match counts with
  | [] => [(x, 1%nat)]
  | (y, n) :: rest =>
    if str_eq x y then (y, S n) :: rest else (y, n) :: counter_add x rest
  end.

Definition Counter (l : list pystr) : list (pystr * nat) :=
  fold_left (fun counts x => counter_add x counts) l [].

Section Validator.
Context {U : Unicode}.

Definition is_url_safe (slug : pystr) : bool :=
  matched (re_match rx"^[a-z0-9-]+$" slug).

(** One turn of the loop over the rows, row [row] being line [i]. *)
Definition scan_row (i : nat) (row : Csv.row) (st : state) : state :=
  let slug := strip (Csv.get row "slug") in
  let name := strip (Csv.get row "name") in
  if bool_decide (slug = []) then
    {| slugs := slugs st;
       errors := errors st ++ [EmptySlug i name];
       warnings := warnings st |}
  else
    {| slugs := slugs st ++ [slug];
       errors :=
         errors st
         ++ (if negb (str_eq slug (lower slug)) then [Uppercase i slug] else [])
         ++ (if negb (is_url_safe slug) then [NotUrlSafe i slug] else [])
         ++ (if startswith slug u"-" || endswith slug u"-"
             then [EdgeHyphen i slug] else []);
       warnings :=
         warnings st
         ++ (if contains u"--" slug then [ConsecutiveHyphens i slug] else []) |}.

Fixpoint scan (i : nat) (rows : list Csv.row) (st : state) : state :=
  match rows with
  | [] => st
  | row :: rest => scan (S i) rest (scan_row i row st)
  end.

(** [duplicates = {slug: count for slug, count in slug_counts.items() if count > 1}] *)
Definition duplicates (slugs : list pystr) : list (pystr * nat) :=
  List.filter (fun '(_, count) => (1 <? count)%nat) (Counter slugs).

(** [validate_slugs(csv_file)], on the rows of the file. *)
Definition validate_slugs (rows : list Csv.row) : bool :=
  let st := scan 2 rows init in
  if bool_decide (errors st = []) && bool_decide (duplicates (slugs st) = [])
  then true else false.

Definition main (csv_file : option (list Csv.row)) : bool :=
  match csv_file with
  | None => false
  | Some rows => validate_slugs rows
  end.

End Validator.

End ValidateSlugs.

Module ValidateTest.
Import Py.
Example ingredient_examples :
  map (ValidateIngredients.validate_ingredient_format (U := Latin1))
      [u"2 oz gin"; u""; u"a"; u"gin???"; u"null"; u"123"; u"Lemon twist"; u"  |x "]
  = [(true, None); (false, Some "Empty ingredient"); (false, Some "Too short");
     (false, Some "Contains '???'"); (false, Some "Invalid null value");
     (false, Some "No ingredient name found"); (true, None);
     (false, Some "Contains pipe character (should be split)")]%string.
Proof. vm_compute. reflexivity. Qed.
Example slug_examples :
  let st := ValidateSlugs.scan (U := Latin1) 2
    [ {[ "slug" := u"old-fashioned" ]}; {[ "slug" := u"Old-Fashioned" ]};
      {[ "slug" := u"old--fashioned" ]}; {[ "slug" := u"-old-fashioned" ]};
      {[ "slug" := u"margarita" ]}; {[ "slug" := u"margarita" ]} ]%string
    ValidateSlugs.init in
  ValidateSlugs.errors st
  = [ValidateSlugs.Uppercase 3 u"Old-Fashioned"; ValidateSlugs.NotUrlSafe 3 u"Old-Fashioned";
     ValidateSlugs.EdgeHyphen 5 u"-old-fashioned"]
  /\ ValidateSlugs.warnings st = [ValidateSlugs.ConsecutiveHyphens 4 u"old--fashioned"]
  /\ ValidateSlugs.duplicates (ValidateSlugs.slugs st) = [(u"margarita", 2%nat)].
Proof. vm_compute. repeat split; reflexivity. Qed.
End ValidateTest.

(** * Properties *)

(** ** Facts on the string operations *)

Module PyFacts.
Import Py.

Section Strip.
Variable p : N -> bool.

Lemma lstrip_by_split (s : pystr) :
  exists pre, s = pre ++ lstrip_by p s /\ Forall (fun c => p c = true) pre.
Proof.
  induction s as [|c t [pre [Ht Hp]]]; simpl.
  - exists []. split; [reflexivity | constructor].
  - destruct (p c) eqn:Hc.
    + exists (c :: pre). split; [simpl; congruence | constructor; assumption].
    + exists []. split; [reflexivity | constructor].
Qed.

Lemma lstrip_by_head (s : pystr) :
  match lstrip_by p s with [] => True | c :: _ => p c = false end.
Proof.
  induction s as [|c t IH]; simpl; [exact I|].
  destruct (p c) eqn:Hc; [exact IH | assumption].
Qed.

Lemma lstrip_by_fixed (s : pystr) :
  match s with [] => True | c :: _ => p c = false end -> lstrip_by p s = s.
Proof. destruct s as [|c t]; simpl; [reflexivity|]. intros ->. reflexivity. Qed.

Lemma lstrip_by_idem (s : pystr) : lstrip_by p (lstrip_by p s) = lstrip_by p s.
Proof. apply lstrip_by_fixed, lstrip_by_head. Qed.

Lemma lstrip_by_length (s : pystr) : (length (lstrip_by p s) <= length s)%nat.
Proof. induction s as [|c t IH]; simpl; [lia|]. destruct (p c); simpl; lia. Qed.

Lemma rstrip_by_split (s : pystr) :
  exists suf, s = rstrip_by p s ++ suf /\ Forall (fun c => p c = true) suf.
Proof.
  unfold rstrip_by.
  destruct (lstrip_by_split (rev s)) as [pre [Hs Hp]].
  exists (rev pre). split.
  - rewrite <- rev_app_distr, <- Hs, rev_involutive. reflexivity.
  - apply List.Forall_rev. exact Hp.
Qed.

Lemma rstrip_by_idem (s : pystr) : rstrip_by p (rstrip_by p s) = rstrip_by p s.
Proof. unfold rstrip_by. rewrite rev_involutive, lstrip_by_idem. reflexivity. Qed.

(** Stripping on the right keeps the first character. *)
Lemma rstrip_by_head (s : pystr) :
  match s with [] => True | c :: _ => p c = false end ->
  match rstrip_by p s with [] => True | c :: _ => p c = false end.
Proof.
  intros Hs. destruct (rstrip_by_split s) as [suf [Heq _]].
  destruct (rstrip_by p s) as [|c t]; [exact I|].
  rewrite Heq in Hs. exact Hs.
Qed.

Lemma strip_by_idem (s : pystr) : strip_by p (strip_by p s) = strip_by p s.
Proof.
  unfold strip_by.
  rewrite (lstrip_by_fixed (rstrip_by p (lstrip_by p s))).
  - apply rstrip_by_idem.
  - apply rstrip_by_head, lstrip_by_head.
Qed.

(** What is stripped is a part of the string. *)
Lemma strip_by_split (s : pystr) :
  exists pre suf, s = pre ++ strip_by p s ++ suf.
Proof.
  destruct (lstrip_by_split s) as [pre [Hs _]].
  destruct (rstrip_by_split (lstrip_by p s)) as [suf [Ht _]].
  exists pre, suf. unfold strip_by. rewrite <- Ht. exact Hs.
Qed.

Lemma strip_by_Forall (P : N -> Prop) (s : pystr) :
  Forall P s -> Forall P (strip_by p s).
Proof.
  intros H. destruct (strip_by_split s) as [pre [suf Hs]].
  rewrite Hs in H. apply Forall_app in H as [_ H].
  apply Forall_app in H as [H _]. exact H.
Qed.

Lemma strip_by_nil : strip_by p [] = [].
Proof. reflexivity. Qed.

End Strip.

Lemma starts_spec (p s : pystr) : starts p s = true <-> exists t, s = p ++ t.
Proof.
  revert s. induction p as [|a p IH]; intros s; simpl.
  - split; [intros _; exists s; reflexivity | reflexivity].
  - destruct s as [|b s]; simpl.
    + split; [discriminate | intros [t Ht]; discriminate].
    + rewrite andb_true_iff, N.eqb_eq, IH. split.
      * intros [-> [t ->]]. exists t. reflexivity.
      * intros [t Ht]. injection Ht as -> ->. split; [reflexivity | exists t; reflexivity].
Qed.

(** [sub in s] holds when [s] has [sub] as a contiguous part. *)
Lemma contains_spec (sub s : pystr) :
  contains sub s = true <-> exists a b, s = a ++ sub ++ b.
Proof.
  induction s as [|c t IH].
  - simpl. rewrite orb_false_r, starts_spec. split.
    + intros [b Hb]. exists [], b. exact Hb.
    + intros [a [b Hab]]. destruct a; [exists b; exact Hab | discriminate].
  - change (contains sub (c :: t)) with (starts sub (c :: t) || contains sub t).
    rewrite orb_true_iff, starts_spec, IH. split.
    + intros [[b Hb] | [a [b Hab]]].
      * exists [], b. exact Hb.
      * exists (c :: a), b. simpl. rewrite Hab. reflexivity.
    + intros [a [b Hab]]. destruct a as [|x a].
      * left. exists b. exact Hab.
      * right. injection Hab as -> Hab. exists a, b. exact Hab.
Qed.

Lemma count_char_pos (c : N) (s : pystr) :
  (0 <? count_char c s)%nat = true <-> In c s.
Proof.
  unfold count_char. rewrite Nat.ltb_lt. induction s as [|x t IH]; simpl.
  - split; [lia | tauto].
  - destruct (N.eqb_spec x c) as [->|Hne]; simpl.
    + split; [intros _; left; reflexivity | lia].
    + rewrite IH. split; [tauto | intros [Hx | Hin]; [contradiction | exact Hin]].
Qed.

(** The pieces of a split hold no separator, and there is at least one. *)
Lemma split_char_no_sep (c : N) (s : pystr) :
  Forall (fun w => ~ In c w) (split_char c s) /\ split_char c s <> [].
Proof.
  induction s as [|x t [IH Hne]]; simpl.
  - split; [repeat constructor; simpl; tauto | discriminate].
  - destruct (N.eqb_spec x c) as [->|Hx].
    + split; [constructor; [simpl; tauto | exact IH] | discriminate].
    + destruct (split_char c t) as [|w ws]; [contradiction|].
      inversion IH as [|? ? Hw Hws]; subst.
      split; [|discriminate].
      constructor; [|exact Hws]. simpl. intros [Heq | Hin]; [congruence | contradiction].
Qed.

(** Replacing every run of characters that satisfy [p] by [repl];
    [in_run] tells that the character before belonged to a run. *)
Fixpoint squeeze (p : N -> bool) (repl : pystr) (in_run : bool) (s : pystr) : pystr :=
  match s with
  | [] => []
  | c :: t =>
    if p c then (if in_run then [] else repl) ++ squeeze p repl true t
    else c :: squeeze p repl false t
  end.

Lemma squeeze_run (p : N -> bool) (repl s : pystr) :
  squeeze p repl true s = squeeze p repl false (lstrip_by p s).
Proof.
  induction s as [|c t IH]; simpl; [reflexivity|].
  destruct (p c) eqn:Hc; simpl.
  - exact IH.
  - rewrite Hc. reflexivity.
Qed.

Lemma squeeze_fixed (p : N -> bool) (repl s : pystr) (b : bool) :
  Forall (fun c => p c = false) s -> squeeze p repl b s = s.
Proof.
  intros H. revert b. induction H as [|c t Hc _ IH]; intros b; simpl; [reflexivity|].
  rewrite Hc, IH. reflexivity.
Qed.

Lemma squeeze_Forall (P : N -> Prop) (p : N -> bool) (repl s : pystr) (b : bool) :
  Forall P repl -> Forall (fun c => p c = false -> P c) s ->
  Forall P (squeeze p repl b s).
Proof.
  intros Hr H. revert b. induction H as [|c t Hc _ IH]; intros b; simpl; [constructor|].
  destruct (p c) eqn:Hpc.
  - apply Forall_app. split; [destruct b; [constructor | exact Hr] | apply IH].
  - constructor; [apply Hc; reflexivity | apply IH].
Qed.

Section Re.
Context {U : Unicode}.

(** A repeated class takes the longest run when what follows accepts
    anything. *)
Lemma star_loop_cls (negated : bool) (items : list cset)
    (k : nat -> pystr -> option pystr) (fuel : nat) :
  (forall i s, k i s = Some s) ->
  forall i s, (length s <= fuel)%nat ->
  star_loop (rmatch (Cls negated items)) k fuel i s
  = Some (lstrip_by (in_class negated items) s).
Proof.
  intros Hk. induction fuel as [|fuel IH]; intros i s Hlen.
  - destruct s; [|simpl in Hlen; lia]. simpl. apply Hk.
  - destruct s as [|c t]; simpl.
    + apply Hk.
    + destruct (in_class negated items c) eqn:Hc.
      * replace (length t <? S (length t))%nat with true
          by (symmetry; apply Nat.ltb_lt; lia).
        rewrite IH by (simpl in Hlen; lia). reflexivity.
      * simpl. apply Hk.
Qed.

(** [re.sub] of a one-character class. *)
Lemma sub_from_cls (negated : bool) (items : list cset) (repl : pystr) (fuel : nat) :
  forall i s, (length s < fuel)%nat ->
  sub_from (Cat (Cls negated items) Eps) repl fuel i s
  = flat_map (fun c => if in_class negated items c then repl else [c]) s.
Proof.
  induction fuel as [|fuel IH]; intros i s Hlen; [lia|].
  destruct s as [|c t]; [reflexivity|].
  simpl in Hlen. cbn [sub_from rmatch flat_map].
  destruct (in_class negated items c) eqn:Hc.
  - replace (length t <? length (c :: t))%nat with true
      by (symmetry; apply Nat.ltb_lt; simpl; lia).
    rewrite IH by lia. reflexivity.
  - rewrite IH by lia. reflexivity.
Qed.

Lemma re_sub_cls_delete (negated : bool) (items : list cset) (s : pystr) :
  re_sub (Cat (Cls negated items) Eps) [] s
  = List.filter (fun c => negb (in_class negated items c)) s.
Proof.
  unfold re_sub. rewrite sub_from_cls by lia.
  induction s as [|c t IH]; simpl; [reflexivity|].
  destruct (in_class negated items c); simpl; rewrite IH; reflexivity.
Qed.

Lemma rmatch_plus_cls (negated : bool) (items : list cset)
    (k : nat -> pystr -> option pystr) (i : nat) (s : pystr) :
  rmatch (Cat (Plus (Cls negated items)) Eps) i s k
  = match s with
    | [] => None
    | c :: t =>
      if in_class negated items c
      then star_loop (rmatch (Cls negated items)) k (length t) (S i) t
      else None
    end.
Proof. destruct s; reflexivity. Qed.

(** [re.sub] of a repeated one-character class. *)
Lemma sub_from_plus_cls (negated : bool) (items : list cset) (repl : pystr) (fuel : nat) :
  forall i s, (length s < fuel)%nat ->
  sub_from (Cat (Plus (Cls negated items)) Eps) repl fuel i s
  = squeeze (in_class negated items) repl false s.
Proof.
  induction fuel as [|fuel IH]; intros i s Hlen; [lia|].
  destruct s as [|c t]; [reflexivity|].
  simpl in Hlen. cbn [sub_from squeeze]. rewrite rmatch_plus_cls.
  destruct (in_class negated items c) eqn:Hc.
  - rewrite star_loop_cls by (reflexivity || lia).
    pose proof (lstrip_by_length (in_class negated items) t) as Hl.
    replace (length (lstrip_by (in_class negated items) t) <? length (c :: t))%nat
      with true by (symmetry; apply Nat.ltb_lt; simpl; lia).
    rewrite IH by lia. rewrite squeeze_run. reflexivity.
  - rewrite IH by lia. reflexivity.
Qed.

Lemma re_sub_plus_cls (negated : bool) (items : list cset) (repl s : pystr) :
  re_sub (Cat (Plus (Cls negated items)) Eps) repl s
  = squeeze (in_class negated items) repl false s.
Proof. unfold re_sub. apply sub_from_plus_cls. lia. Qed.

(** [re.search] of a one-character class finds a member of the class. *)
Lemma search_from_cls (negated : bool) (items : list cset) (s : pystr) :
  forall i,
  matched (search_from (Cat (Cls negated items) Eps) i s)
  = existsb (in_class negated items) s.
Proof.
  induction s as [|c t IH]; intros i; [reflexivity|].
  cbn [search_from rmatch existsb].
  destruct (in_class negated items c); [reflexivity|].
  simpl. apply IH.
Qed.

(** *** What the matcher decides

    [matches r i s rest]: the pattern [r] matches the characters [s] that
    start at position [i] of a subject and are followed by [rest]. *)
Inductive matches : regex -> nat -> pystr -> pystr -> Prop :=
| M_eps i rest : matches Eps i [] rest
| M_lit c i rest : matches (Lit c) i [c] rest
| M_cls negated items x i rest :
    in_class negated items x = true -> matches (Cls negated items) i [x] rest
| M_dot x i rest : x <> 10 -> matches Dot i [x] rest
| M_bol rest : matches Bol 0 [] rest
| M_eol_end i : matches Eol i [] []
| M_eol_newline i : matches Eol i [] [10]
| M_cat r1 r2 i s1 s2 rest :
    matches r1 i s1 (s2 ++ rest) ->
    matches r2 (i + length s1) s2 rest ->
    matches (Cat r1 r2) i (s1 ++ s2) rest
| M_opt_some r1 i s rest : matches r1 i s rest -> matches (Opt r1) i s rest
| M_opt_none r1 i rest : matches (Opt r1) i [] rest
| M_star_stop r1 i rest : matches (Star r1) i [] rest
| M_star_step r1 i s1 s2 rest :
    s1 <> [] ->
    matches r1 i s1 (s2 ++ rest) ->
    matches (Star r1) (i + length s1) s2 rest ->
    matches (Star r1) i (s1 ++ s2) rest.

(** The continuation [k] accepts after a match of [r] at [i] in [s]. *)
Definition accepts (r : regex) (i : nat) (s : pystr)
    (k : nat -> pystr -> option pystr) : Prop :=
  exists s1 s2,
    s = s1 ++ s2 /\ matches r i s1 s2 /\ matched (k (i + length s1)%nat s2) = true.

Lemma matched_orelse (x y : option pystr) :
  matched (orelse x y) = matched x || matched y.
Proof. destruct x, y; reflexivity. Qed.

Lemma accepts_nil (r : regex) (i : nat) (s : pystr) (k : nat -> pystr -> option pystr) :
  matches r i [] s -> matched (k i s) = true -> accepts r i s k.
Proof.
  intros Hm Hk. exists [], s. rewrite Nat.add_0_r. repeat split; assumption.
Qed.

Lemma accepts_one (r : regex) (i : nat) (x : N) (t : pystr)
    (k : nat -> pystr -> option pystr) :
  matches r i [x] t -> matched (k (S i) t) = true -> accepts r i (x :: t) k.
Proof.
  intros Hm Hk. exists [x], t. simpl. rewrite Nat.add_1_r. repeat split; assumption.
Qed.

Lemma matches_star_inv (r1 : regex) (i : nat) (s rest : pystr) :
  matches (Star r1) i s rest ->
  s = [] \/ exists s1 s2,
    s = s1 ++ s2 /\ s1 <> [] /\ matches r1 i s1 (s2 ++ rest)
    /\ matches (Star r1) (i + length s1) s2 rest.
Proof.
  inversion 1; subst; [left; reflexivity | right].
  eexists _, _. repeat split; eassumption.
Qed.

Lemma matches_cat_inv (r1 r2 : regex) (i : nat) (s rest : pystr) :
  matches (Cat r1 r2) i s rest ->
  exists s1 s2,
    s = s1 ++ s2 /\ matches r1 i s1 (s2 ++ rest)
    /\ matches r2 (i + length s1) s2 rest.
Proof. inversion 1; subst. eexists _, _. repeat split; eassumption. Qed.

Lemma star_loop_spec (r1 : regex) (k : nat -> pystr -> option pystr) :
  (forall i s k', matched (rmatch r1 i s k') = true <-> accepts r1 i s k') ->
  forall fuel i s, (length s <= fuel)%nat ->
  matched (star_loop (rmatch r1) k fuel i s) = true <-> accepts (Star r1) i s k.
Proof.
  intros Hbody. induction fuel as [|fuel IH]; intros i s Hlen.
  - destruct s; [|simpl in Hlen; lia]. simpl. split.
    + intros Hk. apply accepts_nil; [constructor | exact Hk].
    + intros [s1 [s2 [Hs [_ Hk]]]]. symmetry in Hs.
      apply app_eq_nil in Hs as [-> ->]. rewrite Nat.add_0_r in Hk. exact Hk.
  - cbn [star_loop]. rewrite matched_orelse, orb_true_iff, Hbody. split.
    + intros [[a [b [Hs [Ha Hk]]]] | Hk]; [|apply accepts_nil; [constructor | exact Hk]].
      destruct (Nat.ltb_spec (length b) (length s)) as [Hlt|Hge]; [|discriminate].
      apply IH in Hk; [|lia]. destruct Hk as [s1 [s2 [Hb [Hstar Hk]]]].
      exists (a ++ s1), s2. subst s b. rewrite <- app_assoc. split; [reflexivity|].
      split.
      * apply M_star_step; [|exact Ha | exact Hstar].
        intros ->. simpl in Hlt. lia.
      * rewrite length_app, Nat.add_assoc. exact Hk.
    + intros [s1 [s2 [Hs [Hstar Hk]]]].
      apply matches_star_inv in Hstar as [-> | [a [s1' [-> [Hne [Ha Hrest]]]]]].
      * right. subst s. rewrite Nat.add_0_r in Hk. exact Hk.
      * subst s. left. exists a, (s1' ++ s2). rewrite <- app_assoc. split; [reflexivity|].
        split; [exact Ha|].
        assert (Hlt : (length (s1' ++ s2) < length (a ++ s1' ++ s2))%nat).
        { rewrite !length_app. destruct a; [contradiction | simpl; lia]. }
        rewrite <- app_assoc in Hlen.
        replace (length (s1' ++ s2) <? length (a ++ s1' ++ s2))%nat with true
          by (symmetry; apply Nat.ltb_lt; exact Hlt).
        apply IH; [lia|]. exists s1', s2. split; [reflexivity|].
        split; [exact Hrest|]. rewrite length_app, Nat.add_assoc in Hk. exact Hk.
Qed.

(** Reads an acceptance of a pattern without sub-patterns back. *)
Ltac read_accept :=
  let s1 := fresh "s1" in
  let s2 := fresh "s2" in
  let Hs := fresh "Hs" in
  let Hm := fresh "Hm" in
  let Hk := fresh "Hk" in
  intros [s1 [s2 [Hs [Hm Hk]]]]; inversion Hm; subst; simplify_eq/=;
  rewrite ?Nat.add_0_r, ?Nat.add_1_r in *;
  try assumption; try contradiction; try congruence.

(** The matcher succeeds exactly when the pattern matches a prefix of the
    subject that the continuation accepts. *)
Lemma rmatch_spec (r : regex) :
  forall i s k, matched (rmatch r i s k) = true <-> accepts r i s k.
Proof.
  induction r as [|c|negated items| | | |r1 IH1 r2 IH2|r1 IH1|r1 IH1]; intros i s k.
  - simpl. split; [|read_accept].
    intros Hk. apply accepts_nil; [constructor | exact Hk].
  - destruct s as [|x t]; simpl; [split; [discriminate | read_accept]|].
    destruct (N.eqb_spec x c) as [->|Hne]; split; try discriminate; try read_accept.
    intros Hk. apply accepts_one; [constructor | exact Hk].
  - destruct s as [|x t]; simpl; [split; [discriminate | read_accept]|].
    destruct (in_class negated items x) eqn:Hx; split; try discriminate; try read_accept.
    intros Hk. apply accepts_one; [constructor; exact Hx | exact Hk].
  - destruct s as [|x t]; simpl; [split; [discriminate | read_accept]|].
    destruct (N.eqb_spec x 10) as [->|Hne]; split; try discriminate; try read_accept.
    intros Hk. apply accepts_one; [constructor; exact Hne | exact Hk].
  - destruct i as [|i]; simpl; split; try discriminate; try read_accept.
    intros Hk. apply accepts_nil; [constructor | exact Hk].
  - destruct s as [|x [|y t]]; simpl.
    + split; [|read_accept].
      intros Hk. apply accepts_nil; [constructor | exact Hk].
    + destruct (N.eqb_spec x 10) as [->|Hne]; split; try discriminate; try read_accept.
      intros Hk. apply accepts_nil; [constructor | exact Hk].
    + split; [discriminate | read_accept].
  - simpl. rewrite IH1. split.
    + intros [s1 [s2 [Hs [H1 Hk]]]]. apply IH2 in Hk as [s1' [s2' [Hs' [H2 Hk]]]].
      subst s s2. exists (s1 ++ s1'), s2'. rewrite <- app_assoc. split; [reflexivity|].
      split; [constructor; assumption|].
      rewrite length_app, Nat.add_assoc. exact Hk.
    + intros [s12 [s3 [Hs [Hm Hk]]]].
      apply matches_cat_inv in Hm as [s1 [s2 [-> [H1 H2]]]]. subst s.
      exists s1, (s2 ++ s3). rewrite <- app_assoc. split; [reflexivity|].
      split; [exact H1|]. apply IH2. exists s2, s3. split; [reflexivity|].
      split; [exact H2|]. rewrite length_app, Nat.add_assoc in Hk. exact Hk.
  - simpl. apply star_loop_spec; [exact IH1 | lia].
  - simpl. rewrite matched_orelse, orb_true_iff, IH1. split.
    + intros [[s1 [s2 [Hs [Hm Hk]]]] | Hk].
      * exists s1, s2. split; [exact Hs|]. split; [constructor; exact Hm | exact Hk].
      * apply accepts_nil; [apply M_opt_none | exact Hk].
    + intros [s1 [s2 [Hs [Hm Hk]]]]. inversion Hm; subst.
      * left. exists s1, s2. repeat split; assumption.
      * right. rewrite Nat.add_0_r in Hk. exact Hk.
Qed.

(** [re.match(r, s)] gives a match exactly when [r] matches a prefix of [s]
    from position 0. *)
Lemma re_match_spec (r : regex) (s : pystr) :
  matched (re_match r s) = true <-> exists s1 s2, s = s1 ++ s2 /\ matches r 0 s1 s2.
Proof.
  unfold re_match. rewrite rmatch_spec. unfold accepts. split.
  - intros [s1 [s2 [Hs [Hm _]]]]. exists s1, s2. split; assumption.
  - intros [s1 [s2 [Hs Hm]]]. exists s1, s2. repeat split; assumption.
Qed.

Lemma re_match_None (r : regex) (s : pystr) :
  re_match r s = None <-> ~ exists s1 s2, s = s1 ++ s2 /\ matches r 0 s1 s2.
Proof.
  rewrite <- re_match_spec. destruct (re_match r s); simpl; split;
    congruence || (intros H; exfalso; apply H; reflexivity) || discriminate || tauto.
Qed.

(** *** Lowercasing *)

(** A code point that [lower] leaves alone wherever it stands. *)
Definition lower_fixed (d : N) : Prop :=
  forall before after, lower_cp before d after = [d].

(** The lowercase mappings above U+00FF produce code points that [lower]
    leaves alone: lowercasing twice is lowercasing once. *)
Definition lower_closed : Prop :=
  forall before c after d,
    256 <= c -> In d (uni_lower before c after) -> lower_fixed d.

Lemma latin1_lower_fixed (c : N) : c < 256 -> lower_fixed (latin1_lower c).
Proof.
  intros Hc before after. unfold lower_cp, latin1_lower.
  repeat match goal with
  | |- context [?a <=? ?b] => destruct (N.leb_spec a b); simpl
  | |- context [?a <? ?b] => destruct (N.ltb_spec a b); simpl
  end; try reflexivity; try lia.
Qed.

Lemma lower_cp_fixed (before : pystr) (c : N) (after : pystr) (d : N) :
  lower_closed -> In d (lower_cp before c after) -> lower_fixed d.
Proof.
  intros Hcl. unfold lower_cp. destruct (N.ltb_spec c 256) as [Hc|Hc].
  - intros [<- | []]. apply latin1_lower_fixed. exact Hc.
  - intros Hd. exact (Hcl before c after d Hc Hd).
Qed.

Lemma lower_from_fixed (s : pystr) :
  lower_closed -> forall before, Forall lower_fixed (lower_from before s).
Proof.
  intros Hcl. induction s as [|c t IH]; intros before; simpl; [constructor|].
  apply Forall_app. split; [|apply IH].
  apply List.Forall_forall. intros d Hd. exact (lower_cp_fixed _ _ _ _ Hcl Hd).
Qed.

Lemma lower_from_id (s : pystr) :
  Forall lower_fixed s -> forall before, lower_from before s = s.
Proof.
  induction 1 as [|c t Hc _ IH]; intros before; simpl; [reflexivity|].
  rewrite Hc, IH. reflexivity.
Qed.

Lemma lower_idem (s : pystr) : lower_closed -> lower (lower s) = lower s.
Proof. intros Hcl. apply lower_from_id, lower_from_fixed, Hcl. Qed.

End Re.

End PyFacts.

(** ** The name classifier *)

Module ClassifierFacts.
Import Py PyFacts Enrich.

Section Classifier.
Context {U : Unicode}.

Lemma compile_not_word_space :
  rx"[^\w\s]" = Cat (Cls true [CWord; CSpace]) Eps.
Proof. reflexivity. Qed.

(** Normalizing lowercases, drops what is neither a word character nor
    whitespace, and trims. *)
Lemma normalize_name_eq (name : pystr) :
  normalize_name (Some name)
  = strip (List.filter (fun c => is_word c || isspace c) (lower name)).
Proof.
  destruct name as [|c t]; [reflexivity|].
  unfold normalize_name. rewrite compile_not_word_space.
  change u"" with (@nil N). rewrite re_sub_cls_delete.
  f_equal. apply List.filter_ext. intros x.
  unfold in_class. simpl. rewrite orb_false_r.
  destruct (is_word x || isspace x); reflexivity.
Qed.

Lemma junk_loop_true (patterns : list pystr) (normalized : pystr) :
  junk_loop patterns normalized = true <->
  (forall pattern, In pattern patterns -> re_match (compile pattern) normalized = None)
  /\ In normalized LEGITIMATE_COCKTAILS.
Proof.
  induction patterns as [|pattern rest IH]; simpl.
  - rewrite bool_decide_eq_true, list_elem_of_In. split.
    + intros H. split; [intros ? [] | exact H].
    + intros [_ H]. exact H.
  - destruct (re_match (compile pattern) normalized) as [m|] eqn:Hm; simpl.
    + split; [discriminate|].
      intros [H _]. specialize (H pattern (or_introl eq_refl)). congruence.
    + rewrite IH. split.
      * intros [H Hin]. split; [|exact Hin].
        intros q [<- | Hq]; [exact Hm | exact (H q Hq)].
      * intros [H Hin]. split; [|exact Hin].
        intros q Hq. apply H. right. exact Hq.
Qed.

(** No junk pattern matches [normalized]. *)
Definition no_junk (normalized : pystr) : Prop :=
  forall pattern, In pattern JUNK_PATTERNS -> re_match (compile pattern) normalized = None.

Lemma no_junk_check (normalized : pystr) :
  forallb (fun pattern => negb (matched (re_match (compile pattern) normalized)))
          JUNK_PATTERNS = true ->
  no_junk normalized.
Proof.
  intros H pattern Hin. rewrite forallb_forall in H. specialize (H pattern Hin).
  destruct (re_match (compile pattern) normalized); [discriminate | reflexivity].
Qed.

(** Every junk pattern lies in the fragment of the syntax that is read. *)
Lemma junk_patterns_parse :
  forall pattern, In pattern JUNK_PATTERNS -> parse pattern = Some (compile pattern).
Proof.
  intros pattern Hin.
  assert (H : forallb (fun pattern => bool_decide (is_Some (parse pattern))) JUNK_PATTERNS
              = true) by (vm_compute; reflexivity).
  rewrite forallb_forall in H. specialize (H pattern Hin).
  apply bool_decide_eq_true in H as [r Hr]. unfold compile. rewrite Hr. reflexivity.
Qed.

End Classifier.

(** C2. [is_legitimate_cocktail(name)] is true exactly when the normalized
    name (lowercased, every character that is neither a word character nor
    whitespace removed, trimmed) is matched by no junk pattern at position 0
    (no junk pattern matches a prefix of it) and is an element of the
    allow-list; a name that is [None] or empty is not legitimate. *)
Theorem is_legitimate_cocktail_iff (U : Unicode) (name : option pystr) :
  let normalized :=
    match name with
    | None => []
    | Some s => strip (List.filter (fun c => is_word c || isspace c) (lower s))
    end in
  normalize_name name = normalized
  /\ (is_legitimate_cocktail name = true <->
      (forall pattern, In pattern JUNK_PATTERNS ->
         ~ exists s1 s2, normalized = s1 ++ s2 /\ matches (compile pattern) 0 s1 s2)
      /\ In normalized LEGITIMATE_COCKTAILS)
  /\ is_legitimate_cocktail None = false
  /\ is_legitimate_cocktail (Some u"") = false.
Proof.
  intros normalized.
  assert (Hn : normalize_name name = normalized).
  { destruct name as [s|]; [apply normalize_name_eq | reflexivity]. }
  split; [exact Hn|]. split.
  - unfold is_legitimate_cocktail. rewrite Hn, junk_loop_true. split.
    + intros [Hjunk Hin]. split; [|exact Hin].
      intros pattern Hp. apply re_match_None, Hjunk, Hp.
    + intros [Hjunk Hin]. split; [|exact Hin].
      intros pattern Hp. apply re_match_None, Hjunk, Hp.
  - split; vm_compute; reflexivity.
Qed.

(** C1. The entry ["b-52"] of the allow-list is matched by no junk pattern
    once normalized, and the classifier rejects it: normalizing drops the
    hyphen, and the allow-list holds the name with the hyphen.  The entries
    the classifier rejects are listed in source order; all but the last hold
    punctuation, the last is matched by the junk pattern [^affair$]. *)
Theorem allow_list_entries_rejected (U : Unicode) :
  In u"b-52" LEGITIMATE_COCKTAILS
  /\ normalize_name (Some u"b-52") = u"b52"
  /\ (forall pattern, In pattern JUNK_PATTERNS ->
        re_match (compile pattern) u"b52" = None)
  /\ is_legitimate_cocktail (Some u"b-52") = false
  /\ is_legitimate_cocktail (Some u"B-52") = false
  /\ List.filter (fun entry => negb (is_legitimate_cocktail (Some entry)))
       LEGITIMATE_COCKTAILS
     = [u"b-52"; u"horse's neck"; u"planter's punch"; u"widow's kiss"; u"army & navy";
        u"dark 'n' stormy"; u"tommy's margarita"; u"ti' punch"; u"missionary's downfall";
        u"planter's punch"; u"benton's old fashioned"; u"buck's fizz"; u"pimm's cup";
        u"planter's punch"; u"duchamp's punch"; u"b-53"; u"lion's tail"; u"mother's milk";
        u"orange push-up"; u"pimm's cup"; u"affair"].
Proof.
  split; [vm_compute; tauto|].
  split; [vm_compute; reflexivity|].
  split; [apply no_junk_check; vm_compute; reflexivity|].
  repeat split; vm_compute; reflexivity.
Qed.

End ClassifierFacts.

(** ** The slug generator *)

Module SlugFacts.
Import Py PyFacts Enrich.

(** A database whose lowercase mapping is not closed: U+0100 is sent to [A]. *)
Definition Unclosed : Unicode :=
  {| uni_isspace := fun _ => false;
     uni_isalnum := fun _ => false;
     uni_lower := fun _ c _ => if c =? 256 then [65] else [c] |}.

Lemma filter_all (f : N -> bool) (s : pystr) :
  Forall (fun c => f c = true) s -> List.filter f s = s.
Proof.
  induction 1 as [|c t Hc _ IH]; simpl; [reflexivity|]. rewrite Hc, IH. reflexivity.
Qed.

Lemma filter_Forall (P : N -> Prop) (f : N -> bool) (s : pystr) :
  Forall P s -> Forall (fun c => P c /\ f c = true) (List.filter f s).
Proof.
  induction 1 as [|c t Hc _ IH]; simpl; [constructor|].
  destruct (f c) eqn:Hf; [constructor; [split; assumption | exact IH] | exact IH].
Qed.

Lemma squeeze_ext (p q : N -> bool) (repl s : pystr) (b : bool) :
  (forall c, p c = q c) -> squeeze p repl b s = squeeze q repl b s.
Proof.
  intros H. revert b. induction s as [|c t IH]; intros b; simpl; [reflexivity|].
  rewrite H, !IH. reflexivity.
Qed.

Lemma lstrip_by_ext (p q : N -> bool) (s : pystr) :
  (forall c, p c = q c) -> lstrip_by p s = lstrip_by q s.
Proof.
  intros H. induction s as [|c t IH]; simpl; [reflexivity|]. rewrite H, IH. reflexivity.
Qed.

Lemma strip_by_ext (p q : N -> bool) (s : pystr) :
  (forall c, p c = q c) -> strip_by p s = strip_by q s.
Proof.
  intros H. unfold strip_by, rstrip_by.
  rewrite (lstrip_by_ext p q s H), (lstrip_by_ext p q _ H). reflexivity.
Qed.

Section Slug.
Context {U : Unicode}.

(** The characters [create_slug] keeps, and those it turns into hyphens. *)
Definition kept (c : N) : bool := is_word c || isspace c || (c =? 45).
Definition blank (c : N) : bool := isspace c || (c =? 95).
Definition hyphen (c : N) : bool := c =? 45.

(** [create_slug]: lowercase, keep word characters, whitespace and hyphens,
    turn each run of whitespace and underscores into one hyphen, and trim
    the hyphens at both ends. *)
Lemma create_slug_eq (name : pystr) :
  create_slug name
  = strip_by hyphen (squeeze blank [45] false (List.filter kept (lower name))).
Proof.
  unfold create_slug, strip_chars.
  change rx"[^\w\s-]" with (Cat (Cls true [CWord; CSpace; CChar 45]) Eps).
  change rx"[\s_]+" with (Cat (Plus (Cls false [CSpace; CChar 95])) Eps).
  change u"" with (@nil N). change u"-" with [45].
  rewrite re_sub_cls_delete, re_sub_plus_cls.
  assert (Hk : forall c, negb (in_class true [CWord; CSpace; CChar 45] c) = kept c).
  { intros c. unfold in_class, kept. simpl. rewrite orb_false_r, orb_assoc.
    destruct (is_word c || isspace c || (c =? 45)); reflexivity. }
  assert (Hb : forall c, in_class false [CSpace; CChar 95] c = blank c).
  { intros c. unfold in_class, blank. simpl. rewrite orb_false_r. reflexivity. }
  assert (Hh : forall c, existsb (N.eqb c) [45] = hyphen c).
  { intros c. unfold hyphen. simpl. apply orb_false_r. }
  rewrite (List.filter_ext _ _ Hk), (squeeze_ext _ _ _ _ _ Hb).
  apply strip_by_ext, Hh.
Qed.

(** What a slug is made of: hyphens and the kept characters of the
    lowercased name that are neither whitespace nor an underscore. *)
Definition slug_char (c : N) : Prop :=
  lower_fixed c /\ kept c = true /\ blank c = false.

Lemma slug_char_hyphen : slug_char 45.
Proof. repeat split. Qed.

Lemma create_slug_chars (name : pystr) :
  lower_closed -> Forall slug_char (create_slug name).
Proof.
  intros Hcl. rewrite create_slug_eq.
  apply strip_by_Forall. apply squeeze_Forall.
  - constructor; [exact slug_char_hyphen | constructor].
  - eapply List.Forall_impl; [|apply filter_Forall; apply (lower_from_fixed _ Hcl)].
    intros c [Hf Hk] Hb. repeat split; assumption.
Qed.

End Slug.

(** C8. [create_slug] is idempotent: a slug is its own slug, for every
    name, whenever the lowercase mapping of the character database gives
    code points that lowercasing leaves alone. *)
Theorem create_slug_idempotent (U : Unicode) (x : pystr) :
  lower_closed -> create_slug (create_slug x) = create_slug x.
Proof.
  intros Hcl.
  pose proof (create_slug_chars x Hcl) as Hchars.
  rewrite (create_slug_eq (create_slug x)).
  unfold lower. rewrite lower_from_id
    by (eapply List.Forall_impl; [|exact Hchars]; intros c Hc; apply Hc).
  rewrite filter_all
    by (eapply List.Forall_impl; [|exact Hchars]; intros c Hc; apply Hc).
  rewrite squeeze_fixed
    by (eapply List.Forall_impl; [|exact Hchars]; intros c Hc; apply Hc).
  rewrite create_slug_eq. apply strip_by_idem.
Qed.

Lemma create_slug_idempotent_witness :
  lower_closed (U := Latin1)
  /\ create_slug (U := Latin1) (create_slug (U := Latin1) u" Dark 'n' Stormy_2 ")
     = create_slug (U := Latin1) u" Dark 'n' Stormy_2 ".
Proof.
  assert (Hcl : lower_closed (U := Latin1)).
  { intros before c after d Hc [<- | []] b a.
    unfold lower_cp. destruct (N.ltb_spec c 256); [lia | reflexivity]. }
  split; [exact Hcl | apply (create_slug_idempotent Latin1); exact Hcl].
Defined.

(** The condition on the database is needed: with a lowercase mapping that
    yields a capital letter, the slug of a slug is another slug. *)
Remark create_slug_needs_lower_closed :
  create_slug (U := Unclosed) [256] = u"A"
  /\ create_slug (U := Unclosed) (create_slug (U := Unclosed) [256]) = u"a".
Proof. split; reflexivity. Qed.

End SlugFacts.

(** ** The slug registry of the enrichment pass *)

Module DedupFacts.
Import Py Enrich.

Section Dedup.
Context {U : Unicode}.

(** The record a colliding record is rewritten to. *)
Definition renamed (e : enriched) : enriched :=
  set_slug e (e_slug e ++ u"-" ++ e_id e).

(** The pass over the enriched records, [prior] being the base slugs of
    the records before. *)
Fixpoint dedup (prior : list pystr) (es : list enriched) : list enriched :=
  match es with
  | [] => []
  | e :: es' =>
    (if bool_decide (e_slug e ∈ prior) then renamed e else e)
    :: dedup (prior ++ [e_slug e]) es'
  end.

(** The identifier of the first record whose base slug is [s]. *)
Definition first_id (s : pystr) (es : list enriched) : option pystr :=
  e_id <$> List.find (fun e => str_eq (e_slug e) s) es.

Lemma enrich_loop_dedup (rows : list Csv.row) :
  forall (acc : list enriched) (seen : gmap pystr pystr) (prior : list pystr),
  (forall s, is_Some (seen !! s) <-> s ∈ prior) ->
  (enrich_loop rows acc seen).1 = acc ++ dedup prior (omap enrich_cocktail rows).
Proof.
  induction rows as [|row rest IH]; intros acc seen prior Hinv; simpl.
  - rewrite app_nil_r. reflexivity.
  - destruct (enrich_cocktail row) as [e|]; simpl; [|apply IH; exact Hinv].
    destruct (seen !! e_slug e) as [i|] eqn:Hseen.
    + assert (Hin : e_slug e ∈ prior) by (apply Hinv; eauto).
      rewrite (IH _ _ (prior ++ [e_slug e])).
      * rewrite bool_decide_eq_true_2 by exact Hin.
        rewrite <- app_assoc. reflexivity.
      * intros s. rewrite Hinv, elem_of_app, list_elem_of_singleton.
        split; [tauto | intros [H | ->]; assumption].
    + assert (Hnot : e_slug e ∉ prior).
      { intros Hin. apply Hinv in Hin. rewrite Hseen in Hin. destruct Hin; discriminate. }
      rewrite (IH _ _ (prior ++ [e_slug e])).
      * rewrite bool_decide_eq_false_2 by exact Hnot.
        rewrite <- app_assoc. reflexivity.
      * intros s. rewrite lookup_insert_is_Some, Hinv, elem_of_app, list_elem_of_singleton.
        destruct (decide (e_slug e = s)) as [->|Hne]; [tauto|].
        split; [intros [? | [_ ?]]; [congruence | tauto] | intros [? | ?]; [|congruence]].
        right. split; assumption.
Qed.

Lemma dedup_length (es : list enriched) :
  forall prior, length (dedup prior es) = length es.
Proof. induction es as [|e es' IH]; intros prior; simpl; [|rewrite IH]; reflexivity. Qed.

Lemma dedup_lookup (es : list enriched) :
  forall (prior : list pystr) (k : nat) (e : enriched),
  es !! k = Some e ->
  dedup prior es !! k
  = Some (if bool_decide (e_slug e ∈ prior ++ map e_slug (take k es))
          then renamed e else e).
Proof.
  induction es as [|e0 es' IH]; intros prior k e Hk; [discriminate|].
  destruct k as [|k]; simpl in *.
  - injection Hk as ->. rewrite app_nil_r. reflexivity.
  - rewrite (IH _ _ _ Hk), <- app_assoc. reflexivity.
Qed.

(** The registry keeps, for a base slug, the identifier it saw first. *)
Lemma enrich_loop_registry (rows : list Csv.row) :
  forall (acc : list enriched) (seen : gmap pystr pystr) (s : pystr),
  (enrich_loop rows acc seen).2 !! s
  = match seen !! s with
    | Some i => Some i
    | None => first_id s (omap enrich_cocktail rows)
    end.
Proof.
  unfold first_id.
  induction rows as [|row rest IH]; intros acc seen s; simpl.
  - destruct (seen !! s); reflexivity.
  - destruct (enrich_cocktail row) as [e|]; simpl; [|apply IH].
    destruct (seen !! e_slug e) as [i|] eqn:Hseen; rewrite IH.
    + destruct (seen !! s) as [i'|] eqn:Hs; [reflexivity|].
      unfold str_eq. rewrite bool_decide_eq_false_2 by congruence. reflexivity.
    + unfold str_eq. destruct (decide (e_slug e = s)) as [Heq|Hne].
      * subst s.
        rewrite lookup_insert_eq, Hseen, bool_decide_eq_true_2 by reflexivity.
        reflexivity.
      * rewrite lookup_insert_ne by exact Hne.
        rewrite bool_decide_eq_false_2 by exact Hne. reflexivity.
Qed.

End Dedup.

(** C3. In the enrichment pass, a record whose base slug was produced by an
    earlier record gets the slug [{slug}-{id}] with its own identifier, and
    every other record keeps its base slug; the registry maps a base slug to
    the identifier of the first record that produced it and is never given a
    renamed slug, so a third record with the same base slug is suffixed
    with its own identifier too.  Two records with base slug [foo] and
    identifiers 5 and 9 come out as [foo] and [foo-9]. *)
Theorem slug_dedup (U : Unicode) (rows : list Csv.row) :
  let es := omap enrich_cocktail rows in
  let out := (enrich_loop rows [] ∅).1 in
  let registry := (enrich_loop rows [] ∅).2 in
  length out = length es
  /\ (forall k e, es !! k = Some e ->
        out !! k
        = Some (if bool_decide (e_slug e ∈ map e_slug (take k es))
                then set_slug e (e_slug e ++ u"-" ++ e_id e) else e))
  /\ (forall s, registry !! s
                = e_id <$> List.find (fun e => str_eq (e_slug e) s) es)
  /\ (let record (id name : pystr) : Csv.row :=
        {[ "id"%string := id; "name"%string := name ]} in
      let run :=
        enrich_loop [record u"5" u"Foo"; record u"9" u"foo"; record u"12" u" FOO! "] [] ∅ in
      map e_slug run.1 = [u"foo"; u"foo-9"; u"foo-12"]
      /\ map e_id run.1 = [u"5"; u"9"; u"12"]
      /\ run.2 !! u"foo" = Some u"5"
      /\ run.2 !! u"foo-9" = None
      /\ map e_slug (main [record u"5" u"Martini"; record u"6" u"Brain Fart";
                           record u"9" u"martini!"])
         = [u"martini"; u"martini-9"]).
Proof.
  intros es out registry.
  assert (Hout : out = dedup [] es).
  { unfold out, es. rewrite (enrich_loop_dedup rows [] ∅ []); [reflexivity|].
    intros s. rewrite lookup_empty, elem_of_nil. split; [intros [? ?]; discriminate | tauto]. }
  split; [rewrite Hout; apply dedup_length|].
  split; [intros k e Hk; rewrite Hout; apply (dedup_lookup es [] k e Hk)|].
  split.
  - intros s. unfold registry. rewrite enrich_loop_registry, lookup_empty. reflexivity.
  - vm_compute. repeat split; reflexivity.
Qed.

End DedupFacts.

(** ** The flavor ratings *)

Module FlavorFacts.
Import Py Enrich.

(** The six aspects [enrich_cocktail] asks for. *)
Definition ASPECTS : list pystr :=
  [u"strength"; u"sweetness"; u"tartness"; u"bitterness"; u"aroma"; u"texture"].

(** The keywords [generate_flavor_profile] looks for in a name, by aspect. *)
Definition keywords (aspect : pystr) : list pystr :=
  if str_eq aspect u"strength" then
    [u"martini"; u"manhattan"; u"negroni"; u"sazerac"; u"old fashioned";
     u"shot"; u"shooter"; u"spritz"; u"mimosa"; u"bellini"]
  else if str_eq aspect u"sweetness" then
    [u"pina colada"; u"mai tai"; u"sex on the beach"; u"martini"; u"negroni"; u"sazerac"]
  else if str_eq aspect u"tartness" then
    [u"sour"; u"daiquiri"; u"margarita"; u"gimlet"; u"old fashioned"; u"manhattan";
     u"negroni"]
  else if str_eq aspect u"bitterness" then
    [u"negroni"; u"americano"; u"aperol"; u"daiquiri"; u"mojito"; u"pina colada"]
  else if str_eq aspect u"aroma" then
    [u"martini"; u"gin"; u"aviation"; u"negroni"]
  else if str_eq aspect u"texture" then
    [u"flip"; u"sour"; u"frozen"; u"blended"; u"pina colada"; u"martini"; u"manhattan"]
  else [].

(** The rating of a name that holds no keyword of the aspect. *)
Definition default_rating (aspect : pystr) : Z :=
  if str_eq aspect u"strength" then 6
  else if str_eq aspect u"sweetness" then 5
  else if str_eq aspect u"tartness" then 4
  else if str_eq aspect u"bitterness" then 3
  else if str_eq aspect u"aroma" then 5
  else 5.

Section Flavor.
Context {U : Unicode}.

Lemma flavor_range (name aspect : pystr) :
  (1 <= generate_flavor_profile name aspect <= 10)%Z.
Proof.
  unfold generate_flavor_profile.
  repeat match goal with
  | |- context [if ?b then _ else _] => destruct b
  end; lia.
Qed.

Lemma flavor_default (name aspect : pystr) :
  any_in (keywords aspect) (lower name) = false ->
  generate_flavor_profile name aspect = default_rating aspect.
Proof.
  unfold generate_flavor_profile, keywords, default_rating, any_in.
  repeat match goal with
  | |- context [str_eq aspect ?s] => destruct (str_eq aspect s)
  end; cbn [existsb]; intros H;
  repeat match goal with
  | H : _ || _ = false |- _ => apply orb_false_iff in H as [? H]
  end;
  repeat match goal with
  | H : contains ?k ?s = false |- _ => rewrite H; clear H
  end; reflexivity.
Qed.

End Flavor.

(** C7, as the code has it.  For every name and every aspect the rating is
    an integer from 1 to 10, and a name that holds no keyword of the aspect
    gets the default of the aspect: 6 for strength, 5 for sweetness, 4 for
    tartness, 3 for bitterness, 5 for aroma and 5 for texture (and 5 for a
    string that is none of the six aspects). *)
Theorem flavor_profile_range_and_defaults (U : Unicode) (name aspect : pystr) :
  (1 <= generate_flavor_profile name aspect <= 10)%Z
  /\ (any_in (keywords aspect) (lower name) = false ->
      generate_flavor_profile name aspect = default_rating aspect)
  /\ map default_rating ASPECTS = [6; 5; 4; 3; 5; 5]%Z.
Proof.
  split; [apply flavor_range|]. split; [apply flavor_default | reflexivity].
Qed.

(** C7, as stated, fails for bitterness: the name [Water] holds none of its
    keywords and is rated 3, which is none of 5, 4 and 6. *)
Lemma bitterness_default_is_3 :
  any_in (keywords u"bitterness") (lower (U := Latin1) u"Water") = false
  /\ generate_flavor_profile (U := Latin1) u"Water" u"bitterness" = 3%Z
  /\ ~ In (generate_flavor_profile (U := Latin1) u"Water" u"bitterness") [5; 4; 6]%Z.
Proof.
  split; [reflexivity|]. split; [reflexivity|].
  vm_compute. intros [H | [H | [H | []]]]; discriminate.
Qed.

End FlavorFacts.

(** ** The ingredient validator *)

Module IngredientFacts.
Import Py PyFacts ValidateIngredients.

(** Closes the rules once the tests of the function are decided. *)
Ltac close_rules :=
  repeat split; intros; first [reflexivity | exfalso; tauto | exfalso; lia].

Section Format.
Context {U : Unicode}.

Lemma search_letter (t : pystr) :
  matched (re_search rx"[a-zA-Z]" t) = true <->
  exists c, In c t /\ (65 <= c <= 90 \/ 97 <= c <= 122).
Proof.
  change rx"[a-zA-Z]" with (Cat (Cls false [CRange 97 122; CRange 65 90]) Eps).
  unfold re_search. rewrite search_from_cls, existsb_exists.
  split; intros [c [Hin Hc]]; exists c; (split; [exact Hin|]);
    unfold in_class in *; simpl in *;
    rewrite orb_false_r, orb_true_iff, !andb_true_iff, !N.leb_le in *; lia.
Qed.

Lemma is_null_spec (t : pystr) :
  str_eq t u"null" || str_eq t u"None" = true <-> t = u"null" \/ t = u"None".
Proof.
  unfold str_eq. rewrite orb_true_iff, !bool_decide_eq_true. reflexivity.
Qed.

(** The rules, each under the failure of the rules before it. *)
Lemma format_rules (token : pystr) :
  let t := strip token in
  let result := validate_ingredient_format token in
  let has_marks := exists a b, t = a ++ u"???" ++ b in
  let is_null := t = u"null" \/ t = u"None" in
  let has_pipe := In 124 t in
  let has_letter := exists c, In c t /\ (65 <= c <= 90 \/ 97 <= c <= 122) in
  (t = [] -> result = (false, Some "Empty ingredient"%string))
  /\ (t <> [] -> has_marks -> result = (false, Some "Contains '???'"%string))
  /\ (t <> [] -> ~ has_marks -> is_null -> result = (false, Some "Invalid null value"%string))
  /\ (t <> [] -> ~ has_marks -> ~ is_null -> (length t < 2)%nat ->
      result = (false, Some "Too short"%string))
  /\ (t <> [] -> ~ has_marks -> ~ is_null -> (2 <= length t)%nat -> has_pipe ->
      result = (false, Some "Contains pipe character (should be split)"%string))
  /\ (t <> [] -> ~ has_marks -> ~ is_null -> (2 <= length t)%nat -> ~ has_pipe ->
      ~ has_letter -> result = (false, Some "No ingredient name found"%string))
  /\ (t <> [] -> ~ has_marks -> ~ is_null -> (2 <= length t)%nat -> ~ has_pipe ->
      has_letter -> result = (true, None)).
Proof.
  intros t result has_marks is_null has_pipe has_letter.
  unfold result, validate_ingredient_format. fold t.
  pose proof (contains_spec u"???" t) as H1. fold has_marks in H1.
  pose proof (is_null_spec t) as H2. fold is_null in H2.
  pose proof (Nat.ltb_lt (length t) 2) as H3.
  pose proof (count_char_pos 124 t) as H4. fold has_pipe in H4.
  pose proof (search_letter t) as H5. fold has_letter in H5.
  destruct (bool_decide_reflect (t = [])) as [H0|H0]; [close_rules|].
  destruct (contains u"???" t).
  { assert has_marks by (apply H1; reflexivity). close_rules. }
  assert (H1' : ~ has_marks) by (intros H; apply H1 in H; discriminate).
  destruct (str_eq t u"null" || str_eq t u"None").
  { assert is_null by (apply H2; reflexivity). close_rules. }
  assert (H2' : ~ is_null) by (intros H; apply H2 in H; discriminate).
  destruct (length t <? 2)%nat.
  { assert (length t < 2)%nat by (apply H3; reflexivity). close_rules. }
  assert (H3' : (2 <= length t)%nat).
  { destruct (Nat.lt_ge_cases (length t) 2) as [H|H]; [apply H3 in H; discriminate | exact H]. }
  destruct (0 <? count_char 124 t)%nat.
  { assert has_pipe by (apply H4; reflexivity). close_rules. }
  assert (H4' : ~ has_pipe) by (intros H; apply H4 in H; discriminate).
  destruct (matched (re_search rx"[a-zA-Z]" t)); simpl.
  - assert has_letter by (apply H5; reflexivity). close_rules.
  - assert (~ has_letter) by (intros H; apply H5 in H; discriminate). close_rules.
Qed.

(** Trimming a token first changes nothing. *)
Lemma format_strip (token : pystr) :
  validate_ingredient_format (strip token) = validate_ingredient_format token.
Proof.
  unfold validate_ingredient_format, strip. rewrite strip_by_idem. reflexivity.
Qed.

End Format.

(** C4. [validate_ingredient_format] applies its rules in order to the
    trimmed token, the first failure giving the result: empty; holding
    [???]; being [null] or [None]; shorter than 2; holding a pipe; holding
    no letter of [a-zA-Z]; otherwise the token is valid.  The tokens of
    the specification get the results it lists. *)
Theorem validate_ingredient_format_rules (U : Unicode) (token : pystr) :
  let t := strip token in
  let result := validate_ingredient_format token in
  let has_marks := exists a b, t = a ++ u"???" ++ b in
  let is_null := t = u"null" \/ t = u"None" in
  let has_pipe := In 124 t in
  let has_letter := exists c, In c t /\ (65 <= c <= 90 \/ 97 <= c <= 122) in
  ((t = [] -> result = (false, Some "Empty ingredient"%string))
   /\ (t <> [] -> has_marks -> result = (false, Some "Contains '???'"%string))
   /\ (t <> [] -> ~ has_marks -> is_null -> result = (false, Some "Invalid null value"%string))
   /\ (t <> [] -> ~ has_marks -> ~ is_null -> (length t < 2)%nat ->
       result = (false, Some "Too short"%string))
   /\ (t <> [] -> ~ has_marks -> ~ is_null -> (2 <= length t)%nat -> has_pipe ->
       result = (false, Some "Contains pipe character (should be split)"%string))
   /\ (t <> [] -> ~ has_marks -> ~ is_null -> (2 <= length t)%nat -> ~ has_pipe ->
       ~ has_letter -> result = (false, Some "No ingredient name found"%string))
   /\ (t <> [] -> ~ has_marks -> ~ is_null -> (2 <= length t)%nat -> ~ has_pipe ->
       has_letter -> result = (true, None)))
  /\ validate_ingredient_format u"2 oz gin" = (true, None)
  /\ validate_ingredient_format u"Lemon twist" = (true, None)
  /\ validate_ingredient_format u"" = (false, Some "Empty ingredient"%string)
  /\ validate_ingredient_format u"a" = (false, Some "Too short"%string)
  /\ validate_ingredient_format u"gin???" = (false, Some "Contains '???'"%string)
  /\ validate_ingredient_format u"null" = (false, Some "Invalid null value"%string)
  /\ validate_ingredient_format u"123" = (false, Some "No ingredient name found"%string).
Proof.
  split; [apply format_rules|].
  repeat split; vm_compute; reflexivity.
Qed.

(** [str.isalpha] on U+0000..U+00FF: the letters among the characters
    [latin1_isalnum] holds. *)
Definition latin1_isalpha (c : N) : bool :=
  ((65 <=? c) && (c <=? 90)) || ((97 <=? c) && (c <=? 122))
  || (c =? 170) || (c =? 181) || (c =? 186)
  || ((192 <=? c) && (c <=? 214)) || ((216 <=? c) && (c <=? 246))
  || ((248 <=? c) && (c <=? 255)).

(** C4, as stated, fails on a token whose only letters are not ASCII: the
    token [2 éé] holds the alphabetic character [é] (U+00E9, the lowercase
    of [É]), none of the rules before the last applies to it, and it is
    invalid, for the want of a letter of [a-zA-Z]. *)
Lemma non_ascii_letters_rejected :
  let token := u"2 éé" in
  let t := strip (U := Latin1) token in
  In 233 t
  /\ latin1_isalpha 233 = true
  /\ isalnum (U := Latin1) 233 = true
  /\ lower (U := Latin1) u"É" = u"é"
  /\ t <> []
  /\ contains u"???" t = false
  /\ t <> u"null" /\ t <> u"None"
  /\ (2 <= length t)%nat
  /\ ~ In 124 t
  /\ validate_ingredient_format (U := Latin1) token
     = (false, Some "No ingredient name found"%string)
  /\ validate_ingredient_format (U := Latin1) token <> (true, None).
Proof.
  vm_compute. repeat split; try reflexivity; try discriminate; lia.
Qed.

End IngredientFacts.

(** ** The run of the ingredient validator *)

Module IngredientRunFacts.
Import Py PyFacts ValidateIngredients IngredientFacts.

Section Run.
Context {U : Unicode}.

(** A row has a token-level error when one of the tokens of its
    ingredients field, split on the pipe, is not valid. *)
Definition token_error (row : Csv.row) : Prop :=
  exists token,
    In token (split_char 124 (strip (Csv.get row "ingredients")))
    /\ (validate_ingredient_format token).1 = false.

Definition file_token_error (rows : list Csv.row) : Prop :=
  exists row, In row rows /\ token_error row.

(** The errors one row adds. *)
Definition row_errors (i : nat) (row : Csv.row) : list error :=
  errors (scan_row i row init).

Lemma check_ingredients_nil (i : nat) (name : pystr) (tokens : list pystr) :
  forall j,
  check_ingredients i name j tokens = [] <->
  forall token, In token tokens -> (validate_ingredient_format token).1 = true.
Proof.
  induction tokens as [|token rest IH]; intros j; simpl.
  - split; [intros _ ? [] | reflexivity].
  - destruct (validate_ingredient_format token) as [is_valid error_msg] eqn:Hv.
    destruct is_valid; simpl.
    + rewrite IH. split.
      * intros H x [<- | Hx]; [rewrite Hv; reflexivity | exact (H x Hx)].
      * intros H x Hx. apply H. right. exact Hx.
    + split; [discriminate|].
      intros H. specialize (H token (or_introl eq_refl)). rewrite Hv in H. discriminate.
Qed.

(** Both are decided by running the format check over the tokens. *)
Definition row_bad (row : Csv.row) : bool :=
  existsb (fun token => negb (validate_ingredient_format token).1)
          (split_char 124 (strip (Csv.get row "ingredients"))).

Lemma token_error_bad (row : Csv.row) : token_error row <-> row_bad row = true.
Proof.
  unfold token_error, row_bad. rewrite existsb_exists.
  split; intros [token [Hin Hbad]]; exists token; (split; [exact Hin|]).
  - rewrite Hbad. reflexivity.
  - apply negb_true_iff. exact Hbad.
Qed.

Lemma file_token_error_bad (rows : list Csv.row) :
  file_token_error rows <-> existsb row_bad rows = true.
Proof.
  unfold file_token_error. rewrite existsb_exists.
  split; intros [row [Hin Hbad]]; exists row; (split; [exact Hin|]);
    apply token_error_bad; exact Hbad.
Qed.

Lemma row_errors_nil (i : nat) (row : Csv.row) :
  row_errors i row = [] <-> row_bad row = false.
Proof.
  unfold row_errors, scan_row, row_bad.
  destruct (bool_decide_reflect (strip (Csv.get row "ingredients") = [])) as [He|He]; simpl.
  - rewrite He. split; discriminate.
  - rewrite check_ingredients_nil. split.
    + intros H. apply not_true_is_false. rewrite existsb_exists.
      intros [token [Hin Hbad]].
      specialize (H (strip token) (in_map strip _ _ Hin)).
      rewrite format_strip in H. rewrite H in Hbad. discriminate.
    + intros H token Hin. apply in_map_iff in Hin as [raw [<- Hraw]].
      rewrite format_strip.
      destruct (validate_ingredient_format raw).1 eqn:Hv; [reflexivity|].
      exfalso. apply not_true_iff_false in H. apply H. apply existsb_exists.
      exists raw. split; [exact Hraw | rewrite Hv; reflexivity].
Qed.

Lemma scan_row_errors (i : nat) (row : Csv.row) (st : state) :
  errors (scan_row i row st) = errors st ++ row_errors i row.
Proof.
  unfold row_errors, scan_row.
  destruct (bool_decide (strip (Csv.get row "ingredients") = [])); reflexivity.
Qed.

Lemma scan_row_total_rows (i : nat) (row : Csv.row) (st : state) :
  total_rows (scan_row i row st) = S (total_rows st).
Proof.
  unfold scan_row.
  destruct (bool_decide (strip (Csv.get row "ingredients") = [])); reflexivity.
Qed.

Lemma scan_total_rows (rows : list Csv.row) :
  forall i st, total_rows (scan i rows st) = (total_rows st + length rows)%nat.
Proof.
  induction rows as [|row rest IH]; intros i st; simpl; [lia|].
  rewrite IH, scan_row_total_rows. lia.
Qed.

Lemma scan_errors_nil (rows : list Csv.row) :
  forall i st,
  errors (scan i rows st) = [] <-> errors st = [] /\ existsb row_bad rows = false.
Proof.
  induction rows as [|row rest IH]; intros i st; simpl.
  - tauto.
  - rewrite IH, scan_row_errors, orb_false_iff, <- (row_errors_nil i). split.
    + intros [Happ Hrest]. apply app_eq_nil in Happ as [Hst Hrow]. tauto.
    + intros [Hst [Hrow Hrest]]. rewrite Hst, Hrow. tauto.
Qed.

(** With a data row in the file the run returns, and it returns [False]
    exactly on a token-level error. *)
Lemma validate_ingredients_rows (rows : list Csv.row) :
  rows <> [] ->
  (validate_ingredients rows = Returned false <-> file_token_error rows)
  /\ (validate_ingredients rows = Returned true <-> ~ file_token_error rows).
Proof.
  intros Hne. unfold validate_ingredients.
  pose proof (scan_total_rows rows 2 init) as Ht. simpl in Ht.
  destruct (total_rows (scan 2 rows init)) as [|n].
  { destruct rows; [contradiction | simpl in Ht; lia]. }
  pose proof (scan_errors_nil rows 2 init) as He. simpl in He.
  rewrite file_token_error_bad.
  destruct (existsb row_bad rows).
  - rewrite bool_decide_eq_false_2 by (intros H; apply He in H as [_ H]; discriminate).
    split; split; intros H; try reflexivity; try discriminate.
    exfalso. apply H. reflexivity.
  - rewrite bool_decide_eq_true_2 by (apply He; split; reflexivity).
    split; split; intros H; try reflexivity; try discriminate.
Qed.

Lemma validate_ingredients_raises (rows : list Csv.row) :
  validate_ingredients rows = Raised ZeroDivisionError <-> rows = [].
Proof.
  unfold validate_ingredients.
  pose proof (scan_total_rows rows 2 init) as Ht. simpl in Ht.
  destruct rows as [|row rest].
  - split; reflexivity.
  - destruct (total_rows (scan 2 (row :: rest) init)); [simpl in Ht; lia|].
    split; [|discriminate].
    destruct (bool_decide _); discriminate.
Qed.

End Run.

(** C10. On a file with a header and no data row the report divides by
    [total_rows = 0]: the run raises [ZeroDivisionError] and returns
    nothing.  This is the only input on which it does not return. *)
Theorem validate_ingredients_zero_rows (U : Unicode) :
  total_rows (scan 2 [] init) = 0%nat
  /\ validate_ingredients [] = Raised ZeroDivisionError
  /\ (forall success, validate_ingredients [] <> Returned success)
  /\ (forall rows, validate_ingredients rows = Raised ZeroDivisionError <-> rows = [])
  /\ (forall rows, rows <> [] -> exists success, validate_ingredients rows = Returned success).
Proof.
  split; [reflexivity|]. split; [reflexivity|]. split; [discriminate|].
  split; [apply validate_ingredients_raises|].
  intros rows Hne.
  destruct (validate_ingredients rows) as [success|[]] eqn:Hv.
  - exists success. reflexivity.
  - apply validate_ingredients_raises in Hv. contradiction.
Qed.

(** C5, on the code.  A file with a header and no data row has no
    token-level error, and the process ends with status 1: the run raises
    instead of returning [True].  On every file with a data row the status is
    1 exactly when some token is not valid, whatever the warnings. *)
Theorem ingredient_validator_exit_status (U : Unicode) :
  (~ file_token_error []
   /\ main (Some []) = Raised ZeroDivisionError
   /\ exit_status (main (Some [])) = 1%Z)
  /\ (forall rows, rows <> [] ->
        (exit_status (main (Some rows)) = 1%Z <-> file_token_error rows)
        /\ (exit_status (main (Some rows)) = 0%Z <-> ~ file_token_error rows))
  /\ (let row : Csv.row := {[ "name"%string := u"Neat"; "ingredients"%string := u"2 oz gin" ]} in
      warnings (scan 2 [row] init) = [OnlyFew 2 u"Neat" 1]
      /\ exit_status (main (Some [row])) = 0%Z).
Proof.
  split.
  { split; [intros [row [[] _]]|]. split; reflexivity. }
  split.
  - intros rows Hne. simpl.
    destruct (validate_ingredients_rows rows Hne) as [Hf Ht].
    destruct (validate_ingredients rows) as [[|]|e] eqn:Hv; simpl.
    + split; split; intros H; try reflexivity; try discriminate.
      * exfalso. apply Ht; [reflexivity | exact H].
      * apply Ht. reflexivity.
    + split; split; intros H; try reflexivity; try discriminate.
      * apply Hf. reflexivity.
      * exfalso. apply H, Hf. reflexivity.
    + destruct e. apply validate_ingredients_raises in Hv. contradiction.
  - vm_compute. split; reflexivity.
Qed.

End IngredientRunFacts.

(** ** The slug validator *)

Module SlugValidatorFacts.
Import Py PyFacts ValidateSlugs.

(** How often [s] occurs in [l]. *)
Definition multiplicity (s : pystr) (l : list pystr) : nat :=
  length (List.filter (str_eq s) l).

(** The count a table of counts gives for [s] (0 without an entry). *)
Definition count_in (counts : list (pystr * nat)) (s : pystr) : nat :=
  match List.find (fun entry => str_eq s entry.1) counts with
  | Some entry => entry.2
  | None => 0
  end.

Lemma str_eq_refl (s : pystr) : str_eq s s = true.
Proof. apply bool_decide_eq_true_2. reflexivity. Qed.

Lemma str_eq_true (s t : pystr) : str_eq s t = true <-> s = t.
Proof. apply bool_decide_eq_true. Qed.

Lemma multiplicity_app (s : pystr) (l1 l2 : list pystr) :
  multiplicity s (l1 ++ l2) = (multiplicity s l1 + multiplicity s l2)%nat.
Proof. unfold multiplicity. rewrite List.filter_app, length_app. reflexivity. Qed.

Lemma multiplicity_pos (s : pystr) (l : list pystr) :
  (0 < multiplicity s l)%nat <-> In s l.
Proof.
  unfold multiplicity. induction l as [|x l IH]; simpl; [split; [lia | tauto]|].
  destruct (str_eq s x) eqn:Hx; simpl.
  - apply str_eq_true in Hx. split; [intros _; left; congruence | lia].
  - rewrite IH. split; [tauto|]. intros [Heq | Hin]; [|exact Hin].
    subst x. rewrite str_eq_refl in Hx. discriminate.
Qed.

Section CounterFacts.

Lemma count_in_add (x s : pystr) (counts : list (pystr * nat)) :
  count_in (counter_add x counts) s
  = (count_in counts s + if str_eq s x then 1 else 0)%nat.
Proof.
  unfold count_in.
  induction counts as [|[y n] rest IH]; simpl.
  - destruct (str_eq s x); reflexivity.
  - destruct (str_eq x y) eqn:Hxy; simpl.
    + apply str_eq_true in Hxy. subst y.
      destruct (str_eq s x); simpl; lia.
    + destruct (str_eq s y) eqn:Hsy; simpl; [|exact IH].
      apply str_eq_true in Hsy. subst y.
      destruct (str_eq s x) eqn:Hsx; [|lia].
      apply str_eq_true in Hsx. subst x. rewrite str_eq_refl in Hxy. discriminate.
Qed.

Lemma keys_add (x s : pystr) (counts : list (pystr * nat)) :
  In s (map fst (counter_add x counts)) <-> s = x \/ In s (map fst counts).
Proof.
  induction counts as [|[y n] rest IH]; simpl.
  - split; [intros [<- | []]; left; reflexivity | intros [-> | []]; left; reflexivity].
  - destruct (str_eq x y) eqn:Hxy; simpl.
    + apply str_eq_true in Hxy. subst y. intuition congruence.
    + rewrite IH. intuition congruence.
Qed.

Lemma keys_add_NoDup (x : pystr) (counts : list (pystr * nat)) :
  NoDup (map fst counts) -> NoDup (map fst (counter_add x counts)).
Proof.
  induction counts as [|[y n] rest IH]; simpl; intros Hnd.
  - apply NoDup_cons_2; [apply not_elem_of_nil | apply NoDup_nil_2].
  - apply NoDup_cons in Hnd as [Hy Hrest].
    destruct (str_eq x y) eqn:Hxy; simpl.
    + apply NoDup_cons. split; assumption.
    + apply NoDup_cons. split; [|apply IH; exact Hrest].
      rewrite list_elem_of_In, keys_add. intros [-> | Hin].
      * rewrite str_eq_refl in Hxy. discriminate.
      * apply Hy. apply list_elem_of_In. exact Hin.
Qed.

(** With one entry per key, an entry is the count of its key. *)
Lemma entry_count_in (counts : list (pystr * nat)) (s : pystr) (n : nat) :
  NoDup (map fst counts) ->
  (In (s, n) counts <-> In s (map fst counts) /\ count_in counts s = n).
Proof.
  unfold count_in.
  induction counts as [|[y m] rest IH]; simpl; intros Hnd; [tauto|].
  apply NoDup_cons in Hnd as [Hy Hrest]. rewrite list_elem_of_In in Hy.
  destruct (str_eq s y) eqn:Hsy; simpl.
  - apply str_eq_true in Hsy. subst y. split.
    + intros [Heq | Hin]; [injection Heq as ->; tauto|].
      exfalso. apply Hy. apply in_map_iff. exists (s, n). split; [reflexivity | exact Hin].
    + intros [_ ->]. left. reflexivity.
  - rewrite (IH Hrest). split.
    + intros [Heq | H]; [|tauto].
      injection Heq as -> ->. rewrite str_eq_refl in Hsy. discriminate.
    + intros [[-> | Hin] Hn]; [rewrite str_eq_refl in Hsy; discriminate | tauto].
Qed.

Lemma Counter_snoc (l : list pystr) (x : pystr) :
  Counter (l ++ [x]) = counter_add x (Counter l).
Proof. unfold Counter. rewrite fold_left_app. reflexivity. Qed.

Lemma Counter_spec (l : list pystr) :
  NoDup (map fst (Counter l))
  /\ (forall s, In s (map fst (Counter l)) <-> In s l)
  /\ (forall s, count_in (Counter l) s = multiplicity s l).
Proof.
  induction l as [|x l [Hnd [Hkeys Hcount]]] using rev_ind.
  - split; [apply NoDup_nil_2|]. split; [tauto | reflexivity].
  - rewrite Counter_snoc. split; [apply keys_add_NoDup; exact Hnd|]. split.
    + intros s. rewrite keys_add, Hkeys, in_app_iff. simpl. intuition congruence.
    + intros s. rewrite count_in_add, Hcount, multiplicity_app.
      unfold multiplicity. simpl. destruct (str_eq s x); reflexivity.
Qed.

(** [Counter(slugs)] holds each slug once, with its multiplicity. *)
Lemma Counter_entries (l : list pystr) (s : pystr) (n : nat) :
  In (s, n) (Counter l) <-> In s l /\ n = multiplicity s l.
Proof.
  destruct (Counter_spec l) as [Hnd [Hkeys Hcount]].
  rewrite (entry_count_in _ _ _ Hnd), Hkeys, Hcount. intuition congruence.
Qed.

Lemma filter_keys_NoDup (f : pystr * nat -> bool) (counts : list (pystr * nat)) :
  NoDup (map fst counts) -> NoDup (map fst (List.filter f counts)).
Proof.
  induction counts as [|entry rest IH]; simpl; intros Hnd; [exact Hnd|].
  apply NoDup_cons in Hnd as [Hy Hrest].
  destruct (f entry); simpl; [|apply IH; exact Hrest].
  apply NoDup_cons. split; [|apply IH; exact Hrest].
  intros Hin. apply Hy. rewrite list_elem_of_In in *.
  apply in_map_iff in Hin as [e [He Hin]]. apply List.filter_In in Hin as [Hin _].
  apply in_map_iff. exists e. split; assumption.
Qed.

(** [duplicates]: each slug that occurs more than once, once, with its
    count. *)
Lemma duplicates_spec (l : list pystr) :
  NoDup (map fst (duplicates l))
  /\ (forall s n, In (s, n) (duplicates l) <-> n = multiplicity s l /\ (1 < n)%nat).
Proof.
  unfold duplicates. split.
  - apply filter_keys_NoDup. apply Counter_spec.
  - intros s n. rewrite List.filter_In, Counter_entries, Nat.ltb_lt. split.
    + tauto.
    + intros [-> Hn]. split; [|exact Hn]. split; [|reflexivity].
      apply multiplicity_pos. lia.
Qed.

Lemma duplicates_nil (l : list pystr) :
  duplicates l = [] <-> forall s, (multiplicity s l <= 1)%nat.
Proof.
  destruct (duplicates_spec l) as [_ Hd]. split.
  - intros Hnil s. destruct (Nat.le_gt_cases (multiplicity s l) 1) as [H|H]; [exact H|].
    assert (Hin : In (s, multiplicity s l) (duplicates l)) by (apply Hd; tauto).
    rewrite Hnil in Hin. destruct Hin.
  - intros Hall. destruct (duplicates l) as [|[s n] rest] eqn:He; [reflexivity|].
    assert (Hin : In (s, n) ((s, n) :: rest)) by (left; reflexivity).
    apply Hd in Hin as [-> Hn]. specialize (Hall s). lia.
Qed.

End CounterFacts.

Section Report.
Context {U : Unicode}.

(** The errors of a non-empty slug on line [i]: every rule is applied. *)
Definition slug_errors (i : nat) (slug : pystr) : list error :=
  (if negb (str_eq slug (lower slug)) then [Uppercase i slug] else [])
  ++ (if negb (is_url_safe slug) then [NotUrlSafe i slug] else [])
  ++ (if startswith slug u"-" || endswith slug u"-" then [EdgeHyphen i slug] else []).

Definition slug_warnings (i : nat) (slug : pystr) : list warning :=
  if contains u"--" slug then [ConsecutiveHyphens i slug] else [].

(** What the rows of a file add up to, [i] being the line of the first. *)
Fixpoint file_errors (i : nat) (rows : list Csv.row) : list error :=
  match rows with
  | [] => []
  | row :: rest =>
    let slug := strip (Csv.get row "slug") in
    (if bool_decide (slug = []) then [EmptySlug i (strip (Csv.get row "name"))]
     else slug_errors i slug)
    ++ file_errors (S i) rest
  end.

Fixpoint file_warnings (i : nat) (rows : list Csv.row) : list warning :=
  match rows with
  | [] => []
  | row :: rest =>
    let slug := strip (Csv.get row "slug") in
    (if bool_decide (slug = []) then [] else slug_warnings i slug)
    ++ file_warnings (S i) rest
  end.

(** The slugs that are counted: the trimmed slugs that are not empty. *)
Definition file_slugs (rows : list Csv.row) : list pystr :=
  List.filter (fun slug => negb (bool_decide (slug = [])))
              (map (fun row => strip (Csv.get row "slug")) rows).

Lemma scan_report (rows : list Csv.row) :
  forall i st,
  errors (scan i rows st) = errors st ++ file_errors i rows
  /\ warnings (scan i rows st) = warnings st ++ file_warnings i rows
  /\ slugs (scan i rows st) = slugs st ++ file_slugs rows.
Proof.
  unfold file_slugs.
  induction rows as [|row rest IH]; intros i st; simpl.
  - rewrite !app_nil_r. tauto.
  - destruct (IH (S i) (scan_row i row st)) as [He [Hw Hs]].
    rewrite He, Hw, Hs. unfold scan_row, slug_errors, slug_warnings.
    destruct (bool_decide (strip (Csv.get row "slug") = [])); simpl;
      rewrite <- ?app_assoc; simpl; rewrite ?app_nil_r; tauto.
Qed.

Lemma starts_hyphen (slug : pystr) :
  startswith slug u"-" = true <-> exists t, slug = 45 :: t.
Proof. unfold startswith. rewrite starts_spec. reflexivity. Qed.

Lemma ends_hyphen (slug : pystr) :
  endswith slug u"-" = true <-> exists t, slug = t ++ [45].
Proof.
  unfold endswith. change (rev u"-") with [45]. rewrite starts_spec. split.
  - intros [t Ht]. exists (rev t).
    rewrite <- (rev_involutive slug), Ht. reflexivity.
  - intros [t ->]. exists (rev t). rewrite rev_app_distr. reflexivity.
Qed.

(** The rules do not depend on one another: each decides its own entry. *)
Lemma slug_errors_rules (i : nat) (slug : pystr) :
  (In (Uppercase i slug) (slug_errors i slug) <-> slug <> lower slug)
  /\ (In (NotUrlSafe i slug) (slug_errors i slug) <-> is_url_safe slug = false)
  /\ (In (EdgeHyphen i slug) (slug_errors i slug) <->
      (exists t, slug = 45 :: t) \/ (exists t, slug = t ++ [45]))
  /\ (forall name, ~ In (EmptySlug i name) (slug_errors i slug))
  /\ (In (ConsecutiveHyphens i slug) (slug_warnings i slug) <->
      exists a b, slug = a ++ u"--" ++ b).
Proof.
  unfold slug_errors, slug_warnings.
  rewrite <- starts_hyphen, <- ends_hyphen, <- orb_true_iff, <- contains_spec.
  unfold str_eq.
  destruct (bool_decide_reflect (slug = lower slug)) as [Hl|Hl];
  destruct (is_url_safe slug);
  destruct (startswith slug u"-" || endswith slug u"-");
  destruct (contains u"--" slug); simpl;
  (repeat split; try (intros name; intros H); try intros H;
   repeat match goal with
   | H : _ \/ _ |- _ => destruct H
   | H : False |- _ => destruct H
   end;
   try discriminate; try contradiction; try reflexivity; try congruence; auto).
Qed.

End Report.

(** C6, as the code has it.  The errors, warnings and counted slugs of a
    file are those of its rows, line by line.  A row whose trimmed slug is
    empty reports the empty-slug error alone and is not counted; on any
    other row the uppercase, URL-safety and hyphen rules are applied each on
    its own, and a double hyphen is a warning.  Each counted slug that occurs
    more than once is reported once, with its count.  The result is
    [False] exactly when there is an error or a duplicate. *)
Theorem validate_slugs_report (U : Unicode) (rows : list Csv.row) :
  let st := scan 2 rows init in
  errors st = file_errors 2 rows
  /\ warnings st = file_warnings 2 rows
  /\ slugs st = file_slugs rows
  /\ (forall i slug,
        (In (Uppercase i slug) (slug_errors i slug) <-> slug <> lower slug)
        /\ (In (NotUrlSafe i slug) (slug_errors i slug) <-> is_url_safe slug = false)
        /\ (In (EdgeHyphen i slug) (slug_errors i slug) <->
            (exists t, slug = 45 :: t) \/ (exists t, slug = t ++ [45]))
        /\ (forall name, ~ In (EmptySlug i name) (slug_errors i slug))
        /\ (In (ConsecutiveHyphens i slug) (slug_warnings i slug) <->
            exists a b, slug = a ++ u"--" ++ b))
  /\ NoDup (map fst (duplicates (slugs st)))
  /\ (forall slug count,
        In (slug, count) (duplicates (slugs st)) <->
        count = multiplicity slug (slugs st) /\ (1 < count)%nat)
  /\ (validate_slugs rows = false <->
      errors st <> [] \/ exists slug, (1 < multiplicity slug (slugs st))%nat)
  /\ (let file : list Csv.row :=
        [ {[ "slug" := u"old-fashioned" ]}; {[ "slug" := u"Old-Fashioned" ]};
          {[ "slug" := u"old--fashioned" ]}; {[ "slug" := u"-old-fashioned" ]};
          {[ "slug" := u"margarita" ]}; {[ "slug" := u"margarita" ]} ]%string in
      errors (scan 2 file init)
      = [Uppercase 3 u"Old-Fashioned"; NotUrlSafe 3 u"Old-Fashioned";
         EdgeHyphen 5 u"-old-fashioned"]
      /\ warnings (scan 2 file init) = [ConsecutiveHyphens 4 u"old--fashioned"]
      /\ duplicates (slugs (scan 2 file init)) = [(u"margarita", 2%nat)]
      /\ validate_slugs file = false).
Proof.
  intros st.
  destruct (scan_report rows 2 init) as [He [Hw Hs]]. simpl in He, Hw, Hs.
  split; [exact He|]. split; [exact Hw|]. split; [exact Hs|].
  split; [intros i slug; apply slug_errors_rules|].
  destruct (duplicates_spec (slugs st)) as [Hnd Hd].
  split; [exact Hnd|]. split; [exact Hd|].
  split; [|vm_compute; repeat split; reflexivity].
  unfold validate_slugs. fold st.
  destruct (bool_decide_reflect (errors st = [])) as [Hnil|Hnil]; simpl.
  - destruct (bool_decide_reflect (duplicates (slugs st) = [])) as [Hdup|Hdup].
    + split; [discriminate|]. intros [H | [slug Hslug]]; [contradiction|].
      pose proof (proj1 (duplicates_nil _) Hdup slug). lia.
    + split; [|reflexivity]. intros _. right.
      destruct (duplicates (slugs st)) as [|[slug count] rest]; [contradiction|].
      exists slug. destruct (proj1 (Hd slug count) (or_introl eq_refl)) as [<- Hc].
      exact Hc.
  - split; [|reflexivity]. intros _. left. exact Hnil.
Qed.

(** C6, as stated, fails on the empty slug.  It does not match the
    URL-safe pattern, and the run reports the empty-slug error alone: the
    pattern rule is not applied to it.  Two rows with an empty slug are not
    reported as a duplicate. *)
Lemma empty_slug_short_circuits :
  let row : Csv.row := {[ "slug"%string := u""; "name"%string := u"Nameless" ]} in
  is_url_safe (U := Latin1) u"" = false
  /\ errors (scan (U := Latin1) 2 [row] init) = [EmptySlug 2 u"Nameless"]
  /\ ~ In (NotUrlSafe 2 u"") (errors (scan (U := Latin1) 2 [row] init))
  /\ multiplicity u"" (map (fun r => strip (U := Latin1) (Csv.get r "slug")) [row; row]) = 2%nat
  /\ duplicates (slugs (scan (U := Latin1) 2 [row; row] init)) = [].
Proof.
  vm_compute. repeat split; try reflexivity.
  intros [H | []]. discriminate.
Qed.

End SlugValidatorFacts.

(** ** Generated slugs against the slug validator *)

Module PipelineFacts.
Import Py Enrich.

(** C9. The name [Piña Colada] is legitimate, its slug keeps the letter
    [ñ], which is a word character, and that slug does not match the
    URL-safe pattern of the slug validator: the validator fails on the row
    the enricher writes for it.  So do [Vieux Carré] and a name without any
    word character, whose slug is empty. *)
Theorem generated_slug_not_url_safe (U : Unicode) :
  is_legitimate_cocktail (Some u"Piña Colada") = true
  /\ create_slug u"Piña Colada" = u"piña-colada"
  /\ is_word 241 = true
  /\ ValidateSlugs.is_url_safe (create_slug u"Piña Colada") = false
  /\ (let out := main [ {[ "id"%string := u"7"; "name"%string := u"Piña Colada" ]} ] in
      map e_slug out = [u"piña-colada"]
      /\ ValidateSlugs.validate_slugs
           (map (fun e => {[ "slug"%string := e_slug e; "name"%string := e_name e ]}) out)
         = false)
  /\ ValidateSlugs.is_url_safe (create_slug u"Vieux Carré") = false
  /\ create_slug u"!!!" = u""
  /\ ValidateSlugs.is_url_safe (create_slug u"!!!") = false.
Proof. vm_compute. repeat split; reflexivity. Qed.

End PipelineFacts.

(** * The other fields of an enriched row

    The functions of [scripts/enrich_cocktails.py] that derive the base
    spirit, the category, the serialized lists, the glassware and the
    ingredients of a row. *)

Module Derive.
Import Py Enrich.

(** [sep.join(l)] *)
Fixpoint join (sep : pystr) (l : list pystr) : pystr :=
  match l with
  | [] => []
  | [x] => x
  | x :: rest => x ++ sep ++ join sep rest
  end.

(** [s.replace(old, new)] for one-character [old] and [new] *)
Definition replace_char (old new : N) (s : pystr) : pystr :=
  map (fun c => if c =? old then new else c) s.

(** [glass_map] of [clean_glassware], in the order of the dict literal. *)
Definition glass_map : list (pystr * pystr) := [
  (u"cocktail glass", u"Coupe Glass");
  (u"martini glass", u"Martini Glass");
  (u"old-fashioned glass", u"Old Fashioned Glass");
  (u"highball glass", u"Highball Glass");
  (u"collins glass", u"Collins Glass");
  (u"shot glass", u"Shot Glass");
  (u"champagne flute", u"Champagne Flute");
  (u"coupe glass", u"Coupe Glass");
  (u"rocks glass", u"Old Fashioned Glass");
  (u"whiskey sour glass", u"Coupe Glass")
].

(** [recipes] of [generate_ingredients], in the order of the dict literal. *)
Definition recipes : list (pystr * pystr) := [
  (u"Martini",
   u"2 oz gin|0.5 oz dry vermouth|Lemon twist or olive");
  (u"Dry Martini",
   u"2.5 oz gin|0.5 oz dry vermouth|Lemon twist");
  (u"Manhattan",
   u"2 oz rye whiskey|1 oz sweet vermouth|2 dashes Angostura bitters|Maraschino cherry");
  (u"Old Fashioned",
   u"2 oz bourbon|0.25 oz simple syrup|3 dashes Angostura bitters|Orange peel");
  (u"Negroni",
   u"1 oz gin|1 oz Campari|1 oz sweet vermouth|Orange peel");
  (u"Daiquiri",
   u"2 oz white rum|1 oz fresh lime juice|0.75 oz simple syrup");
  (u"Margarita",
   u"2 oz tequila blanco|1 oz fresh lime juice|0.75 oz orange liqueur|Salt for rim");
  (u"Mojito",
   u"2 oz white rum|1 oz fresh lime juice|0.75 oz simple syrup|8 mint leaves|Soda water");
  (u"Cosmopolitan",
   u"1.5 oz vodka|1 oz cranberry juice|0.5 oz fresh lime juice|0.5 oz orange liqueur");
  (u"Whiskey Sour",
   u"2 oz bourbon|0.75 oz fresh lemon juice|0.75 oz simple syrup|1 egg white");
  (u"Espresso Martini",
   u"2 oz vodka|1 oz coffee liqueur|1 oz fresh espresso|0.5 oz simple syrup");
  (u"Gimlet",
   u"2 oz gin|0.75 oz fresh lime juice|0.75 oz simple syrup");
  (u"Tom Collins",
   u"2 oz gin|1 oz fresh lemon juice|0.5 oz simple syrup|Soda water");
  (u"Aviation",
   u"2 oz gin|0.5 oz maraschino liqueur|0.25 oz crème de violette|0.75 oz fresh lemon juice");
  (u"French 75",
   u"1 oz gin|0.5 oz fresh lemon juice|0.5 oz simple syrup|3 oz Champagne");
  (u"Mai Tai",
   u"2 oz aged rum|0.75 oz fresh lime juice|0.5 oz orange curaçao|0.5 oz orgeat|0.25 oz simple syrup");
  (u"Moscow Mule",
   u"2 oz vodka|0.5 oz fresh lime juice|4 oz ginger beer");
  (u"Aperol Spritz",
   u"3 oz Prosecco|2 oz Aperol|1 oz soda water|Orange slice");
  (u"Americano",
   u"1.5 oz Campari|1.5 oz sweet vermouth|Soda water|Orange slice");
  (u"Caipirinha",
   u"2 oz cachaça|0.5 lime cut into wedges|2 tsp sugar");
  (u"Sazerac",
   u"2 oz rye whiskey|0.25 oz simple syrup|3 dashes Peychaud's bitters|Absinthe rinse|Lemon peel");
  (u"Boulevardier",
   u"1.5 oz bourbon|1 oz Campari|1 oz sweet vermouth|Orange peel");
  (u"Last Word",
   u"0.75 oz gin|0.75 oz green Chartreuse|0.75 oz maraschino liqueur|0.75 oz fresh lime juice");
  (u"Paper Plane",
   u"0.75 oz bourbon|0.75 oz Aperol|0.75 oz Amaro Nonino|0.75 oz fresh lemon juice");
  (u"Corpse Reviver",
   u"0.75 oz gin|0.75 oz Lillet Blanc|0.75 oz Cointreau|0.75 oz fresh lemon juice|Absinthe rinse");
  (u"Clover Club",
   u"2 oz gin|0.75 oz fresh lemon juice|0.5 oz raspberry syrup|1 egg white");
  (u"Bramble",
   u"2 oz gin|1 oz fresh lemon juice|0.5 oz simple syrup|0.5 oz crème de mûre");
  (u"Bellini",
   u"2 oz white peach purée|4 oz Prosecco");
  (u"Mimosa",
   u"3 oz Champagne|3 oz fresh orange juice");
  (u"Pina Colada",
   u"2 oz white rum|1.5 oz cream of coconut|1.5 oz pineapple juice|0.5 oz fresh lime juice");
  (u"Mint Julep",
   u"2.5 oz bourbon|0.5 oz simple syrup|8 mint leaves");
  (u"Singapore Sling",
   u"1.5 oz gin|0.5 oz cherry liqueur|0.25 oz Cointreau|0.25 oz Bénédictine|4 oz pineapple juice|0.5 oz fresh lime juice|Dash Angostura bitters");
  (u"Sidecar",
   u"2 oz cognac|1 oz orange liqueur|1 oz fresh lemon juice");
  (u"Vesper",
   u"3 oz gin|1 oz vodka|0.5 oz Lillet Blanc|Lemon twist");
  (u"Gin Fizz",
   u"2 oz gin|1 oz fresh lemon juice|0.75 oz simple syrup|Soda water");
  (u"Gin and Tonic",
   u"2 oz gin|4 oz tonic water|Lime wedge");
  (u"Cuba Libre",
   u"2 oz white rum|4 oz Coca-Cola|0.5 oz fresh lime juice|Lime wedge");
  (u"Tequila Sunrise",
   u"2 oz tequila|4 oz orange juice|0.5 oz grenadine");
  (u"Paloma",
   u"2 oz tequila|0.5 oz fresh lime juice|4 oz grapefruit soda|Salt for rim");
  (u"Irish Coffee",
   u"1.5 oz Irish whiskey|4 oz hot coffee|1 oz heavy cream|1 tsp brown sugar");
  (u"White Russian",
   u"2 oz vodka|1 oz coffee liqueur|1 oz heavy cream");
  (u"Black Russian",
   u"2 oz vodka|1 oz coffee liqueur");
  (u"Screwdriver",
   u"2 oz vodka|4 oz fresh orange juice");
  (u"Bloody Mary",
   u"2 oz vodka|4 oz tomato juice|0.5 oz fresh lemon juice|Worcestershire sauce|Hot sauce|Salt|Pepper|Celery salt");
  (u"Rob Roy",
   u"2 oz scotch|1 oz sweet vermouth|2 dashes Angostura bitters");
  (u"Rusty Nail",
   u"1.5 oz scotch|0.75 oz Drambuie");
  (u"Godfather",
   u"1.5 oz scotch|0.75 oz amaretto");
  (u"Godmother",
   u"1.5 oz vodka|0.75 oz amaretto");
  (u"B-52",
   u"0.5 oz Kahlúa|0.5 oz Baileys Irish Cream|0.5 oz Grand Marnier");
  (u"Grasshopper",
   u"1 oz crème de menthe|1 oz crème de cacao|1 oz heavy cream");
  (u"French Martini",
   u"2 oz vodka|0.5 oz Chambord|1.5 oz pineapple juice");
  (u"Lemon Drop",
   u"2 oz vodka|0.75 oz fresh lemon juice|0.5 oz simple syrup|0.25 oz orange liqueur|Sugar rim")
].

Section Fields.
Context {U : Unicode}.

(** [any(x in a or x in b for x in xs)] *)
Definition any_in2 (xs : list pystr) (a b : pystr) : bool :=
  existsb (fun x => contains x a || contains x b) xs.

Definition get_base_spirit (name ingredients_hint : pystr) : pystr :=
  let name_lower := lower name in
  let ing_lower := lower ingredients_hint in
  if any_in2 [u"vodka"; u"russian"; u"moscow"; u"bloody mary"; u"espresso martini";
              u"cosmopolitan"] name_lower ing_lower then u"Vodka"
  else if any_in2 [u"gin"; u"martini"; u"negroni"; u"tom collins"; u"aviation"; u"gimlet"]
                  name_lower ing_lower then u"Gin"
  else if any_in2 [u"rum"; u"mojito"; u"daiquiri"; u"mai tai"; u"pina colada"; u"cuba"]
                  name_lower ing_lower then u"Rum"
  else if any_in2 [u"whiskey"; u"whisky"; u"bourbon"; u"rye"; u"scotch"; u"manhattan";
                   u"old fashioned"; u"mint julep"] name_lower ing_lower then u"Whiskey"
  else if any_in2 [u"tequila"; u"mezcal"; u"margarita"; u"paloma"] name_lower ing_lower
  then u"Tequila"
  else if any_in2 [u"brandy"; u"cognac"; u"sidecar"] name_lower ing_lower then u"Brandy"
  else if any_in2 [u"champagne"; u"prosecco"; u"bellini"; u"mimosa"; u"french 75"]
                  name_lower ing_lower then u"Champagne"
  else if any_in2 [u"aperol"; u"campari"; u"americano"] name_lower ing_lower
  then u"Aperitif"
  else u"Spirit".

Definition get_category (name : pystr) : pystr :=
  let name_lower := lower name in
  if any_in [u"martini"; u"manhattan"; u"negroni"; u"old fashioned"; u"sazerac"] name_lower
  then u"Spirit-Forward"
  else if any_in [u"sour"; u"daiquiri"; u"margarita"; u"whiskey sour"] name_lower
  then u"Sour"
  else if any_in [u"fizz"; u"collins"; u"rickey"; u"highball"; u"tonic"] name_lower
  then u"Highball"
  else if any_in [u"mai tai"; u"zombie"; u"tiki"; u"hurricane"; u"painkiller"] name_lower
  then u"Tiki"
  else if any_in [u"spritz"; u"aperol"; u"bellini"; u"mimosa"] name_lower
  then u"Sparkling"
  else if any_in [u"shot"; u"shooter"; u"b-52"; u"kamikaze"] name_lower then u"Shot"
  else u"Classic".

Definition generate_categories (primary : pystr) : pystr :=
  let categories := [primary] in
  let categories :=
    if negb (str_eq primary u"Classic") then categories ++ [u"Classic"] else categories in
  join u"|" categories.

(** The list [tags] of [generate_tags] before it is cut and joined. *)
Definition tag_list (name base_spirit category : pystr) : list pystr :=
  let tags := [lower base_spirit; replace_char 32 45 (lower category); u"cocktail"] in
  let name_lower := lower name in
  let tags :=
    if any_in [u"martini"; u"manhattan"; u"old fashioned"] name_lower
    then tags ++ [u"classic"] else tags in
  let tags :=
    if any_in [u"sour"; u"fizz"; u"collins"] name_lower
    then tags ++ [u"refreshing"] else tags in
  let tags :=
    if any_in [u"frozen"; u"blended"] name_lower then tags ++ [u"frozen"] else tags in
  tags.

Definition generate_tags (name base_spirit category : pystr) : pystr :=
  join u"|" (take 6 (tag_list name base_spirit category)).

(** The loop over [glass_map.items()] of [clean_glassware]. *)
Fixpoint glass_loop (items : list (pystr * pystr)) (glass_lower : pystr) : pystr :=
  match items with
  | [] => u"Coupe Glass"
  | (key, value) :: rest =>
    if contains key glass_lower then value else glass_loop rest glass_lower
  end.

Definition clean_glassware (glass : pystr) : pystr :=
  let glass_lower := strip (lower glass) in
  glass_loop glass_map glass_lower.

Definition generate_technique (category name : pystr) : pystr :=
  let name_lower := lower name in
  if str_eq category u"Spirit-Forward" || contains u"martini" name_lower
     || contains u"manhattan" name_lower then u"Stir"
  else if str_eq category u"Sour" || contains u"sour" name_lower
          || contains u"daiquiri" name_lower then u"Shake"
  else if str_eq category u"Highball" || contains u"fizz" name_lower
          || contains u"collins" name_lower then u"Build"
  else if contains u"frozen" name_lower || contains u"blended" name_lower then u"Blend"
  else if contains u"julep" name_lower || contains u"smash" name_lower then u"Muddle"
  else u"Shake".

(** The loop over [recipes.items()] of [generate_ingredients]; [None]
    when no key has the normalized name. *)
Fixpoint recipe_loop (items : list (pystr * pystr)) (name_normalized : pystr)
    : option pystr :=
  match items with
  | [] => None
  | (key, recipe) :: rest =>
    if str_eq (normalize_name (Some key)) name_normalized then Some recipe
    else recipe_loop rest name_normalized
  end.

Definition generate_ingredients (name base_spirit : pystr) : pystr :=
  let name_normalized := normalize_name (Some name) in
  match recipe_loop recipes name_normalized with
  | Some recipe => recipe
  | None => u"2 oz " ++ lower base_spirit ++ u"|1 oz citrus juice|0.75 oz simple syrup"
  end.

(** The fields of [enrich_cocktail(row)] that the record [enriched] leaves
    out and this module derives; [None] as for [enrich_cocktail]. *)
Record derived : Type := {
  base_spirit : pystr;
  category_primary : pystr;
  categories_all : pystr;
  tags : pystr;
  glassware : pystr;
  technique : pystr;
  ingredients : pystr
}.

Definition derive_fields (row : Csv.row) : option derived :=
  match row !! "name"%string with
  | None => None
  | Some name =>
    let name := strip name in
    let base_spirit := get_base_spirit name u"" in
    let category := get_category name in
    match row !! "id"%string with
    | None => None
    | Some _ =>
      Some {| base_spirit := base_spirit;
              category_primary := category;
              categories_all := generate_categories category;
              tags := generate_tags name base_spirit category;
              glassware :=
                clean_glassware (default u"Cocktail glass" (row !! "glass"%string));
              technique := generate_technique category name;
              ingredients := generate_ingredients name base_spirit |}
    end
  end.

End Fields.

End Derive.

Module DeriveTest.
Import Py Enrich Derive.
Example derive_martini :
  derive_fields (U := Latin1) {[ "id" := u"1"; "name" := u" Espresso Martini " ]}%string
  = Some {| base_spirit := u"Vodka";
            category_primary := u"Spirit-Forward";
            categories_all := u"Spirit-Forward|Classic";
            tags := u"vodka|spirit-forward|cocktail|classic";
            glassware := u"Coupe Glass";
            technique := u"Stir";
            ingredients :=
              u"2 oz vodka|1 oz coffee liqueur|1 oz fresh espresso|0.5 oz simple syrup" |}.
Proof. vm_compute. reflexivity. Qed.
Example derive_fallback :
  generate_ingredients (U := Latin1) u"Yellow Bird" (get_base_spirit (U := Latin1) u"Yellow Bird" u"")
  = u"2 oz spirit|1 oz citrus juice|0.75 oz simple syrup".
Proof. vm_compute. reflexivity. Qed.
Example glass_rocks :
  map (clean_glassware (U := Latin1)) [u" Rocks Glass"; u"Old Fashioned Glass"; u"mug"]
  = [u"Old Fashioned Glass"; u"Coupe Glass"; u"Coupe Glass"].
Proof. vm_compute. reflexivity. Qed.
End DeriveTest.

(** * Further properties *)

(** ** More on the string operations *)

Module PyMore.
Import Py PyFacts.

(** A split has one piece more than the string has separators. *)
Lemma split_char_length (c : N) (s : pystr) :
  length (split_char c s) = S (count_char c s).
Proof.
  unfold count_char. induction s as [|x t IH]; simpl; [reflexivity|].
  destruct (x =? c); simpl.
  - rewrite IH. reflexivity.
  - destruct (split_char c t); simpl in *; lia.
Qed.

(** What is left of a string after stripping is made of its characters. *)
Lemma strip_by_In (p : N -> bool) (s : pystr) (c : N) :
  In c (strip_by p s) -> In c s.
Proof.
  intros H. destruct (strip_by_split p s) as [pre [suf Hs]].
  rewrite Hs. apply in_or_app. right. apply in_or_app. left. exact H.
Qed.

(** Joining with a separator and splitting on it gives the list back, when
    no element holds the separator. *)
Lemma split_join (c : N) (l : list pystr) :
  l <> [] -> Forall (fun w => ~ In c w) l ->
  split_char c (Derive.join [c] l) = l.
Proof.
  assert (Hone : forall w : pystr, ~ In c w -> split_char c w = [w]).
  { induction w as [|x t IH]; simpl; intros Hw; [reflexivity|].
    destruct (N.eqb_spec x c) as [->|Hx]; [exfalso; apply Hw; left; reflexivity|].
    rewrite IH by tauto. reflexivity. }
  assert (Hcons : forall (w rest : pystr), ~ In c w ->
            split_char c (w ++ c :: rest) = w :: split_char c rest).
  { induction w as [|x t IH]; simpl; intros rest Hw.
    - rewrite N.eqb_refl. reflexivity.
    - destruct (N.eqb_spec x c) as [->|Hx]; [exfalso; apply Hw; left; reflexivity|].
      rewrite IH by tauto. reflexivity. }
  induction l as [|w rest IH]; intros Hne Hall; [contradiction|].
  apply List.Forall_cons_iff in Hall as [Hw Hrest].
  destruct rest as [|w' rest'].
  - simpl. apply Hone. exact Hw.
  - change (Derive.join [c] (w :: w' :: rest'))
      with (w ++ c :: Derive.join [c] (w' :: rest')).
    rewrite Hcons by exact Hw. rewrite IH; [reflexivity | discriminate | exact Hrest].
Qed.

End PyMore.

(** ** More on the run of the ingredient validator *)

Module IngredientRunMore.
Import Py PyFacts PyMore ValidateIngredients IngredientFacts IngredientRunFacts.

(** The messages of the format check. *)
Definition PIPE_MESSAGE : string := "Contains pipe character (should be split)".

Definition is_pipe_error (e : error) : Prop :=
  match e with
  | BadIngredient _ _ _ error_msg _ => error_msg = PIPE_MESSAGE
  | NoIngredients _ _ => False
  end.

Definition warning_count_ok (w : warning) : Prop :=
  match w with
  | OnlyFew _ _ n => n = 1%nat
  | VeryMany _ _ n => (15 < n)%nat
  end.

Section Run.
Context {U : Unicode}.

(** The format check gives the pipe message only for a token with a pipe. *)
Lemma format_pipe_message (token : pystr) :
  (validate_ingredient_format token).2 = Some PIPE_MESSAGE -> In 124 token.
Proof.
  unfold validate_ingredient_format.
  destruct (bool_decide _); [discriminate|].
  destruct (contains _ _); [discriminate|].
  destruct (_ || _); [discriminate|].
  destruct (length _ <? 2)%nat; [discriminate|].
  destruct (0 <? count_char 124 (strip token))%nat eqn:Hc.
  - intros _. apply count_char_pos in Hc. exact (strip_by_In _ _ _ Hc).
  - destruct (negb _); discriminate.
Qed.

Lemma check_ingredients_no_pipe (i : nat) (name : pystr) (tokens : list pystr) :
  Forall (fun token => ~ In 124 token) tokens ->
  forall j, Forall (fun e => ~ is_pipe_error e) (check_ingredients i name j tokens).
Proof.
  induction 1 as [|token rest Htok _ IH]; intros j; simpl; [constructor|].
  destruct (validate_ingredient_format token) as [is_valid error_msg] eqn:Hv.
  apply Forall_app. split; [|apply IH].
  destruct is_valid; [constructor|]. constructor; [|constructor].
  simpl. intros Hmsg. apply Htok. apply format_pipe_message. rewrite Hv. simpl.
  destruct error_msg as [m|]; simpl in Hmsg; [congruence | discriminate].
Qed.

Lemma tokens_no_pipe (s : pystr) :
  Forall (fun token => ~ In 124 token) (map strip (split_char 124 s)).
Proof.
  apply List.Forall_map. eapply List.Forall_impl; [|apply (split_char_no_sep 124 s)].
  intros w Hw Hin. apply Hw. exact (strip_by_In _ _ _ Hin).
Qed.

Lemma scan_row_no_pipe (i : nat) (row : Csv.row) (st : state) :
  Forall (fun e => ~ is_pipe_error e) (errors st) ->
  Forall (fun e => ~ is_pipe_error e) (errors (scan_row i row st)).
Proof.
  intros Hst. unfold scan_row.
  destruct (bool_decide _); simpl; apply Forall_app; split; try exact Hst.
  - constructor; [simpl; tauto | constructor].
  - apply check_ingredients_no_pipe, tokens_no_pipe.
Qed.

Lemma scan_row_warnings (i : nat) (row : Csv.row) (st : state) :
  Forall warning_count_ok (warnings st) ->
  Forall warning_count_ok (warnings (scan_row i row st)).
Proof.
  intros Hst. unfold scan_row.
  destruct (bool_decide _); simpl; [exact Hst|].
  rewrite length_map, split_char_length.
  apply Forall_app. split; [exact Hst|]. apply Forall_app. split.
  - destruct (Nat.ltb_spec (S (count_char 124 (strip (Csv.get row "ingredients")))) 2);
      [constructor; [simpl; lia | constructor] | constructor].
  - destruct (Nat.ltb_spec 15 (S (count_char 124 (strip (Csv.get row "ingredients")))));
      [constructor; [simpl; lia | constructor] | constructor].
Qed.

Lemma scan_invariant (P : state -> Prop) :
  (forall i row st, P st -> P (scan_row i row st)) ->
  forall rows i st, P st -> P (scan i rows st).
Proof.
  intros Hstep. induction rows as [|row rest IH]; intros i st Hst; simpl; [exact Hst|].
  apply IH, Hstep, Hst.
Qed.

End Run.

(** X1. In a run of [validate_ingredients] no error carries the message
    of the pipe rule: the tokens come from a split on the pipe, so none of
    them holds one. *)
Theorem pipe_rule_never_fires (U : Unicode) (rows : list Csv.row) :
  Forall (fun e => ~ is_pipe_error e) (errors (scan 2 rows init)).
Proof.
  apply (scan_invariant (fun st => Forall (fun e => ~ is_pipe_error e) (errors st))).
  - intros i row st. apply scan_row_no_pipe.
  - constructor.
Qed.

(** X2. A row with ingredients has one token more than its field has
    pipes, so the warning for a short list is given for one ingredient only,
    and the warning for a long list from 15 pipes on. *)
Theorem warnings_token_counts (U : Unicode) (rows : list Csv.row) :
  Forall warning_count_ok (warnings (scan 2 rows init))
  /\ (forall i row st,
        let field := strip (Csv.get row "ingredients") in
        field <> [] ->
        total_ingredients (scan_row i row st)
        = (total_ingredients st + S (count_char 124 field))%nat
        /\ warnings (scan_row i row st)
           = warnings st
             ++ (if (count_char 124 field =? 0)%nat
                 then [OnlyFew i (strip (Csv.get row "name")) 1] else [])
             ++ (if (15 <=? count_char 124 field)%nat
                 then [VeryMany i (strip (Csv.get row "name")) (S (count_char 124 field))]
                 else [])).
Proof.
  split.
  - apply (scan_invariant (fun st => Forall warning_count_ok (warnings st))).
    + intros i row st. apply scan_row_warnings.
    + constructor.
  - intros i row st field Hne. unfold scan_row. fold field.
    rewrite bool_decide_eq_false_2 by exact Hne. simpl.
    rewrite length_map, split_char_length. split; [reflexivity|].
    destruct (count_char 124 field) as [|n]; [reflexivity|].
    destruct n as [|n]; [reflexivity|]. reflexivity.
Qed.

End IngredientRunMore.

(** ** The generated ingredients against the ingredient validator *)

Module IngredientsFieldFacts.
Import Py PyFacts PyMore Enrich Derive ValidateIngredients IngredientFacts IngredientRunFacts.

(** The values of [get_base_spirit]. *)
Definition SPIRITS : list pystr :=
  [u"Vodka"; u"Gin"; u"Rum"; u"Whiskey"; u"Tequila"; u"Brandy"; u"Champagne";
   u"Aperitif"; u"Spirit"].

Section Field.
Context {U : Unicode}.

(** The generic recipe of [generate_ingredients]. *)
Definition generic_recipe (base_spirit : pystr) : pystr :=
  u"2 oz " ++ lower base_spirit ++ u"|1 oz citrus juice|0.75 oz simple syrup".

(** An ingredients field that the validator takes without a remark:
    not empty, every token valid, from 2 to 8 tokens. *)
Definition field_ok (field : pystr) : bool :=
  let s := strip field in
  let tokens := map strip (split_char 124 s) in
  negb (bool_decide (s = []))
  && forallb (fun token => (validate_ingredient_format token).1) tokens
  && (2 <=? length tokens)%nat && (length tokens <=? 8)%nat.

Lemma get_base_spirit_values (name ingredients_hint : pystr) :
  In (get_base_spirit name ingredients_hint) SPIRITS.
Proof.
  unfold get_base_spirit, SPIRITS.
  repeat match goal with
  | |- context [if ?b then _ else _] => destruct b
  end; simpl; tauto.
Qed.

Lemma recipe_loop_In (items : list (pystr * pystr)) (name_normalized recipe : pystr) :
  recipe_loop items name_normalized = Some recipe -> In recipe (map snd items).
Proof.
  induction items as [|[key value] rest IH]; simpl; [discriminate|].
  destruct (str_eq _ _); [intros [= ->]; left; reflexivity | intros H; right; exact (IH H)].
Qed.

Lemma generate_ingredients_values (name base_spirit : pystr) :
  In (generate_ingredients name base_spirit)
     (generic_recipe base_spirit :: map snd recipes).
Proof.
  unfold generate_ingredients.
  destruct (recipe_loop recipes _) as [recipe|] eqn:Hr.
  - right. exact (recipe_loop_In _ _ _ Hr).
  - left. reflexivity.
Qed.

Lemma fields_ok :
  forallb field_ok (map generic_recipe SPIRITS ++ map snd recipes) = true.
Proof. vm_compute. reflexivity. Qed.

Lemma generated_field_ok (name ingredients_hint : pystr) :
  field_ok (generate_ingredients name (get_base_spirit name ingredients_hint)) = true.
Proof.
  pose proof fields_ok as H. rewrite forallb_forall in H. apply H.
  apply in_or_app.
  destruct (generate_ingredients_values name (get_base_spirit name ingredients_hint))
    as [<- | Hin]; [left | right; exact Hin].
  apply in_map. apply get_base_spirit_values.
Qed.

Lemma field_ok_scan_row (i : nat) (row : Csv.row) (st : state) :
  field_ok (Csv.get row "ingredients") = true ->
  errors (scan_row i row st) = errors st
  /\ warnings (scan_row i row st) = warnings st
  /\ (total_ingredients st + 2 <= total_ingredients (scan_row i row st)
      <= total_ingredients st + 8)%nat.
Proof.
  unfold field_ok, scan_row.
  rewrite !andb_true_iff, negb_true_iff, forallb_forall, !Nat.leb_le.
  intros [[[Hne Hvalid] Hlo] Hhi]. rewrite Hne. simpl.
  rewrite (proj2 (check_ingredients_nil i _ _ 1) Hvalid), app_nil_r.
  split; [reflexivity|]. split; [|lia].
  destruct (Nat.ltb_spec (length (map strip (split_char 124 (strip (Csv.get row "ingredients"))))) 2);
    [lia|].
  destruct (Nat.ltb_spec 15 (length (map strip (split_char 124 (strip (Csv.get row "ingredients"))))));
    [lia|].
  rewrite app_nil_r. reflexivity.
Qed.

End Field.

(** X3. The ingredients field the enricher generates for a name, with the
    base spirit it derives, passes the ingredient validator: a row that
    holds it adds no error and no warning, and counts from 2 to 8
    ingredients. *)
Theorem generated_ingredients_pass (U : Unicode) (name ingredients_hint : pystr)
    (i : nat) (row : Csv.row) (st : state) :
  let field := generate_ingredients name (get_base_spirit name ingredients_hint) in
  let st' := scan_row i (<["ingredients"%string := field]> row) st in
  errors st' = errors st
  /\ warnings st' = warnings st
  /\ (total_ingredients st + 2 <= total_ingredients st' <= total_ingredients st + 8)%nat
  /\ validate_ingredients [<["ingredients"%string := field]> row] = Returned true.
Proof.
  intros field st'.
  assert (Hget : forall r : Csv.row, Csv.get (<["ingredients"%string := field]> r) "ingredients" = field).
  { intros r. unfold Csv.get. rewrite lookup_insert_eq. reflexivity. }
  assert (Hok : field_ok (Csv.get (<["ingredients"%string := field]> row) "ingredients") = true).
  { rewrite Hget. apply generated_field_ok. }
  destruct (field_ok_scan_row i _ st Hok) as [He [Hw Ht]].
  split; [exact He|]. split; [exact Hw|]. split; [exact Ht|].
  unfold validate_ingredients. simpl scan.
  destruct (field_ok_scan_row 2 _ init Hok) as [He2 _].
  rewrite He2. unfold scan_row.
  destruct (bool_decide _); reflexivity.
Qed.

End IngredientsFieldFacts.

(** ** The URL-safe pattern *)

Module UrlSafeFacts.
Import Py PyFacts PyMore Enrich ValidateSlugs SlugFacts SlugValidatorFacts.

Section UrlSafe.
Context {U : Unicode}.

(** A character of the class [[a-z0-9-]]. *)
Definition url_char (c : N) : bool :=
  in_class false [CRange 97 122; CRange 48 57; CChar 45] c.

Lemma url_char_spec (c : N) :
  url_char c = true <-> 97 <= c <= 122 \/ 48 <= c <= 57 \/ c = 45.
Proof.
  unfold url_char, in_class. simpl.
  rewrite orb_false_r, !orb_true_iff, !andb_true_iff, !N.leb_le, N.eqb_eq. tauto.
Qed.

Lemma compile_url_safe :
  rx"^[a-z0-9-]+$"
  = Cat Bol (Cat (Plus (Cls false [CRange 97 122; CRange 48 57; CChar 45])) (Cat Eol Eps)).
Proof. reflexivity. Qed.

Lemma matches_star_cls (negated : bool) (items : list cset) (i : nat) (s rest : pystr) :
  matches (Star (Cls negated items)) i s rest <->
  Forall (fun c => in_class negated items c = true) s.
Proof.
  split.
  - remember (Star (Cls negated items)) as r eqn:Hr. intros H.
    induction H as [| | | | | | | | | | |r1 i s1 s2 rest Hne H1 _ H2 IH2];
      try discriminate; [constructor|].
    injection Hr as ->. apply Forall_app. split; [|apply IH2; reflexivity].
    inversion H1; subst. constructor; [assumption | constructor].
  - intros H. revert i. induction H as [|c t Hc _ IH]; intros i; [constructor|].
    apply (M_star_step _ i [c] t rest); [discriminate | constructor; exact Hc | apply IH].
Qed.

(** [is_url_safe] accepts the non-empty strings over [[a-z0-9-]], and
    those followed by one newline. *)
Lemma is_url_safe_spec (slug : pystr) :
  is_url_safe slug = true <->
  exists body,
    body <> [] /\ Forall (fun c => url_char c = true) body
    /\ (slug = body \/ slug = body ++ [10]).
Proof.
  unfold is_url_safe. rewrite compile_url_safe, re_match_spec. split.
  - intros [s1 [s2 [Hs Hm]]].
    apply matches_cat_inv in Hm as [a [b [-> [Ha Hb]]]].
    apply matches_cat_inv in Hb as [c [d [-> [Hc Hd]]]].
    apply matches_cat_inv in Hd as [e [f [-> [He Hf]]]].
    apply matches_cat_inv in Hc as [x [g [-> [Hx Hg]]]].
    apply matches_star_cls in Hg.
    subst slug. inversion Ha; subst. inversion Hf; subst. inversion Hx; subst.
    match goal with
    | H : in_class _ _ ?c = true |- _ =>
      exists (c :: g); split; [discriminate|]; split; [constructor; assumption|]
    end.
    inversion He; simpl in *; subst; simpl; rewrite ?app_nil_r; [left | right]; reflexivity.
  - intros [body [Hne [Hall Hs]]].
    destruct body as [|c0 g]; [contradiction|].
    apply List.Forall_cons_iff in Hall as [Hc0 Hg].
    assert (Hbody : forall rest,
              (rest = [] \/ rest = [10]) ->
              matches (Cat Bol (Cat (Plus (Cls false [CRange 97 122; CRange 48 57; CChar 45]))
                                    (Cat Eol Eps))) 0 (c0 :: g) rest).
    { intros rest Hrest.
      replace (c0 :: g) with ([] ++ ((([c0] ++ g) ++ ([] ++ []))))
        by (simpl; rewrite app_nil_r; reflexivity).
      apply M_cat; [constructor|]. apply M_cat.
      - apply M_cat; [constructor; exact Hc0|]. apply matches_star_cls. exact Hg.
      - apply M_cat; [|constructor]. simpl.
        destruct Hrest as [-> | ->]; constructor. }
    destruct Hs as [-> | ->].
    + exists (c0 :: g), []. rewrite app_nil_r. split; [reflexivity|]. apply Hbody. tauto.
    + exists (c0 :: g), [10]. split; [reflexivity|]. apply Hbody. tauto.
Qed.

Lemma url_char_lower_fixed (c : N) : url_char c = true \/ c = 10 -> lower_fixed c.
Proof.
  rewrite url_char_spec. intros H before after. unfold lower_cp, latin1_lower.
  repeat match goal with
  | |- context [?a <=? ?b] => destruct (N.leb_spec a b); simpl
  | |- context [?a <? ?b] => destruct (N.ltb_spec a b); simpl
  end; try reflexivity; lia.
Qed.

(** A URL-safe slug has no letter to lowercase. *)
Lemma url_safe_lower (slug : pystr) : is_url_safe slug = true -> lower slug = slug.
Proof.
  intros H. apply is_url_safe_spec in H as [body [_ [Hall Hs]]].
  apply lower_from_id.
  assert (Hb : Forall lower_fixed body).
  { eapply List.Forall_impl; [|exact Hall].
    intros c Hc. apply url_char_lower_fixed. left. exact Hc. }
  destruct Hs as [-> | ->]; [exact Hb|].
  apply Forall_app. split; [exact Hb|].
  constructor; [apply url_char_lower_fixed; right; reflexivity | constructor].
Qed.

Lemma slug_errors_uppercase (i j : nat) (slug s : pystr) :
  In (Uppercase i slug) (slug_errors j s) -> In (NotUrlSafe i slug) (slug_errors j s).
Proof.
  unfold slug_errors.
  destruct (is_url_safe s) eqn:Hsafe.
  - rewrite (url_safe_lower s Hsafe), str_eq_refl.
    destruct (startswith s u"-" || endswith s u"-"); simpl; intros H;
      repeat (destruct H as [H | H]); try discriminate; contradiction.
  - destruct (negb (str_eq s (lower s)));
    destruct (startswith s u"-" || endswith s u"-"); simpl; intros H;
      repeat (destruct H as [H | H]); try discriminate; try contradiction;
      injection H as <- <-; auto.
Qed.

Lemma file_errors_uppercase (rows : list Csv.row) :
  forall (j i : nat) (slug : pystr),
  In (Uppercase i slug) (file_errors j rows) -> In (NotUrlSafe i slug) (file_errors j rows).
Proof.
  induction rows as [|row rest IH]; intros j i slug; simpl; [tauto|].
  rewrite !in_app_iff. intros [H | H]; [left | right; exact (IH _ _ _ H)].
  destruct (bool_decide _).
  - destruct H as [H | []]. discriminate.
  - apply slug_errors_uppercase. exact H.
Qed.

End UrlSafe.

(** X4. [is_url_safe(slug)] is true exactly for a non-empty string over
    [a-z], [0-9] and the hyphen, and for such a string followed by one
    newline: [$] also matches before a final newline. *)
Theorem is_url_safe_iff (U : Unicode) (slug : pystr) :
  (is_url_safe slug = true <->
   exists body,
     body <> []
     /\ Forall (fun c => 97 <= c <= 122 \/ 48 <= c <= 57 \/ c = 45) body
     /\ (slug = body \/ slug = body ++ [10]))
  /\ is_url_safe (u"old-fashioned" ++ [10]) = true
  /\ is_url_safe (u"old-fashioned" ++ [10; 10]) = false.
Proof.
  split; [|split; vm_compute; reflexivity].
  rewrite is_url_safe_spec. split; intros [body [Hne [Hall Hs]]]; exists body;
    (split; [exact Hne|]); (split; [|exact Hs]);
    (eapply List.Forall_impl; [|exact Hall]); intros c Hc; apply url_char_spec; exact Hc.
Qed.

(** X5. In a run of the slug validator the error for uppercase letters
    never comes alone: the same slug on the same line has the error for not
    being URL-safe. *)
Theorem uppercase_implies_not_url_safe (U : Unicode) (rows : list Csv.row)
    (i : nat) (slug : pystr) :
  In (Uppercase i slug) (errors (scan 2 rows init)) ->
  In (NotUrlSafe i slug) (errors (scan 2 rows init)).
Proof.
  destruct (scan_report rows 2 init) as [He _]. simpl in He. rewrite He.
  apply file_errors_uppercase.
Qed.

Lemma uppercase_implies_not_url_safe_witness :
  let rows : list Csv.row := [ {[ "slug"%string := u"Old-Fashioned" ]} ] in
  In (Uppercase 2 u"Old-Fashioned") (errors (scan (U := Latin1) 2 rows init))
  /\ In (NotUrlSafe 2 u"Old-Fashioned") (errors (scan (U := Latin1) 2 rows init)).
Proof.
  assert (H : In (Uppercase 2 u"Old-Fashioned")
                 (errors (scan (U := Latin1) 2 [ {[ "slug"%string := u"Old-Fashioned" ]} ] init))).
  { vm_compute. left. reflexivity. }
  split; [exact H | apply (uppercase_implies_not_url_safe Latin1); exact H].
Defined.

End UrlSafeFacts.

(** ** The slugs of ASCII names *)

Module AsciiSlugFacts.
Import Py PyFacts PyMore Enrich ValidateSlugs SlugFacts SlugValidatorFacts UrlSafeFacts.

Lemma below_enum (n : nat) (c : N) :
  c < N.of_nat n -> In c (map N.of_nat (seq 0 n)).
Proof.
  intros Hc. apply in_map_iff. exists (N.to_nat c). split; [apply N2Nat.id|].
  apply in_seq. lia.
Qed.

Lemma strip_by_all_false (p : N -> bool) (s : pystr) :
  Forall (fun c => p c = false) s -> strip_by p s = s.
Proof.
  intros H. unfold strip_by, rstrip_by.
  rewrite (lstrip_by_fixed p s) by (destruct H; [exact I | assumption]).
  rewrite lstrip_by_fixed; [apply rev_involutive|].
  apply List.Forall_rev in H. destruct H; [exact I | assumption].
Qed.

(** A stripped string neither starts nor ends with a stripped character. *)
Lemma strip_by_edges (p : N -> bool) (s : pystr) :
  match strip_by p s with [] => True | c :: _ => p c = false end
  /\ match rev (strip_by p s) with [] => True | c :: _ => p c = false end.
Proof.
  split.
  - apply rstrip_by_head, lstrip_by_head.
  - unfold strip_by, rstrip_by. rewrite rev_involutive. apply lstrip_by_head.
Qed.

Section Ascii.
Context {U : Unicode}.

Lemma lower_from_latin1 (s : pystr) :
  Forall (fun c => c < 256) s -> forall before, lower_from before s = map latin1_lower s.
Proof.
  induction 1 as [|c t Hc _ IH]; intros before; simpl; [reflexivity|].
  unfold lower_cp. destruct (N.ltb_spec c 256); [|lia]. rewrite IH. reflexivity.
Qed.

Lemma ascii_slug_char (c : N) :
  c < 128 -> kept (latin1_lower c) = true -> blank (latin1_lower c) = false ->
  url_char (latin1_lower c) = true.
Proof.
  intros Hc.
  assert (Hall : forallb (fun c => implb (kept (latin1_lower c) && negb (blank (latin1_lower c)))
                                         (url_char (latin1_lower c)))
                         (map N.of_nat (seq 0 128)) = true) by (vm_compute; reflexivity).
  rewrite forallb_forall in Hall. specialize (Hall c (below_enum 128 c Hc)).
  intros Hk Hb. rewrite Hk, Hb in Hall. exact Hall.
Qed.

Lemma create_slug_url_chars (name : pystr) :
  Forall (fun c => c < 128) name ->
  Forall (fun c => url_char c = true) (create_slug name).
Proof.
  intros Hname. rewrite create_slug_eq. unfold lower.
  rewrite lower_from_latin1
    by (eapply List.Forall_impl; [|exact Hname]; simpl; intros; lia).
  apply strip_by_Forall. apply squeeze_Forall.
  - constructor; [reflexivity | constructor].
  - assert (Himg : Forall (fun d => exists c, c < 128 /\ d = latin1_lower c)
                          (map latin1_lower name)).
    { apply List.Forall_map. eapply List.Forall_impl; [|exact Hname].
      intros c Hc. exists c. split; [exact Hc | reflexivity]. }
    eapply List.Forall_impl; [|apply (filter_Forall _ kept _ Himg)].
    intros d [[c [Hc ->]] Hk] Hb. apply ascii_slug_char; assumption.
Qed.

Lemma url_char_not_space (c : N) : url_char c = true -> isspace c = false.
Proof.
  rewrite url_char_spec. intros H. unfold isspace, latin1_isspace.
  repeat match goal with
  | |- context [?a <=? ?b] => destruct (N.leb_spec a b); simpl
  | |- context [?a <? ?b] => destruct (N.ltb_spec a b); simpl
  | |- context [?a =? ?b] => destruct (N.eqb_spec a b); simpl
  end; try reflexivity; lia.
Qed.

Lemma ascii_slug_errors (name : pystr) (i : nat) :
  Forall (fun c => c < 128) name -> create_slug name <> [] ->
  is_url_safe (create_slug name) = true /\ slug_errors i (create_slug name) = [].
Proof.
  intros Hname Hne.
  pose proof (create_slug_url_chars name Hname) as Hchars.
  assert (Hsafe : is_url_safe (create_slug name) = true).
  { apply is_url_safe_spec. exists (create_slug name). tauto. }
  split; [exact Hsafe|].
  unfold slug_errors. rewrite (url_safe_lower _ Hsafe), str_eq_refl, Hsafe.
  assert (Hedge : startswith (create_slug name) u"-" || endswith (create_slug name) u"-"
                  = false).
  { rewrite create_slug_eq in *.
    destruct (strip_by_edges hyphen
                (squeeze blank [45] false (List.filter kept (lower name)))) as [Hhead Hlast].
    unfold startswith, endswith. change (rev u"-") with [45]. change u"-" with [45].
    apply orb_false_iff. split.
    - destruct (strip_by hyphen _) as [|c t]; [reflexivity|]. cbn [starts].
      unfold hyphen in Hhead. rewrite N.eqb_sym, Hhead. reflexivity.
    - destruct (rev (strip_by hyphen _)) as [|c t]; [reflexivity|]. cbn [starts].
      unfold hyphen in Hlast. rewrite N.eqb_sym, Hlast. reflexivity. }
  rewrite Hedge. reflexivity.
Qed.

End Ascii.

(** X6. For a name of ASCII characters whose slug is not empty, the slug
    [create_slug] gives is URL-safe, lowercase and without a hyphen at
    either end: a row that holds it adds no error in the slug validator and
    the slug is counted. *)
Theorem ascii_slug_passes (U : Unicode) (name : pystr) (i : nat) (row : Csv.row)
    (st : state) :
  Forall (fun c => c < 128) name ->
  create_slug name <> [] ->
  let st' := scan_row i (<["slug"%string := create_slug name]> row) st in
  is_url_safe (create_slug name) = true
  /\ errors st' = errors st
  /\ slugs st' = slugs st ++ [create_slug name].
Proof.
  intros Hname Hne st'.
  destruct (ascii_slug_errors name i Hname Hne) as [Hsafe Herr].
  split; [exact Hsafe|].
  assert (Hstrip : strip (Csv.get (<["slug"%string := create_slug name]> row) "slug")
                   = create_slug name).
  { unfold Csv.get. rewrite lookup_insert_eq. simpl.
    apply strip_by_all_false.
    eapply List.Forall_impl; [|apply (create_slug_url_chars name Hname)].
    intros c Hc. apply url_char_not_space. exact Hc. }
  unfold st', scan_row. rewrite Hstrip.
  rewrite bool_decide_eq_false_2 by exact Hne. split; [|reflexivity].
  change (errors st ++ slug_errors i (create_slug name) = errors st).
  rewrite Herr. apply app_nil_r.
Qed.

Lemma ascii_slug_passes_witness :
  let name := u"Dark 'n' Stormy" in
  let st' := scan_row (U := Latin1) 2 (<["slug"%string := create_slug (U := Latin1) name]> ∅) init in
  is_url_safe (U := Latin1) (create_slug (U := Latin1) name) = true
  /\ errors st' = []
  /\ slugs st' = [create_slug (U := Latin1) name].
Proof.
  apply (ascii_slug_passes Latin1 u"Dark 'n' Stormy" 2 ∅ init).
  - vm_compute. repeat constructor.
  - vm_compute. discriminate.
Defined.

End AsciiSlugFacts.

(** ** The glassware and the serialized lists *)

Module FieldFacts.
Import Py PyFacts PyMore Enrich Derive IngredientsFieldFacts.

(** The values of [clean_glassware] and of [get_category]. *)
Definition GLASSES : list pystr :=
  [u"Coupe Glass"; u"Martini Glass"; u"Old Fashioned Glass"; u"Highball Glass";
   u"Collins Glass"; u"Shot Glass"; u"Champagne Flute"].

Definition CATEGORIES : list pystr :=
  [u"Spirit-Forward"; u"Sour"; u"Highball"; u"Tiki"; u"Sparkling"; u"Shot"; u"Classic"].

Definition no_pipe (w : pystr) : bool := negb (existsb (N.eqb 124) w).

Lemma no_pipe_spec (w : pystr) : no_pipe w = true -> ~ In 124 w.
Proof.
  unfold no_pipe. rewrite negb_true_iff. intros H Hin.
  assert (Ht : existsb (N.eqb 124) w = true)
    by (apply existsb_exists; exists 124; split; [exact Hin | apply N.eqb_refl]).
  congruence.
Qed.

Section Fields.
Context {U : Unicode}.

Lemma glass_loop_values (items : list (pystr * pystr)) (glass_lower : pystr) :
  In (glass_loop items glass_lower) (u"Coupe Glass" :: map snd items).
Proof.
  induction items as [|[key value] rest IH]; simpl; [left; reflexivity|].
  destruct (contains key glass_lower); [right; left; reflexivity|].
  destruct IH as [IH | IH]; [left; exact IH | right; right; exact IH].
Qed.

Lemma get_category_values (name : pystr) : In (get_category name) CATEGORIES.
Proof.
  unfold get_category, CATEGORIES.
  repeat match goal with
  | |- context [if ?b then _ else _] => destruct b
  end; simpl; tauto.
Qed.

Lemma tag_list_shape (name base_spirit category : pystr) :
  exists more,
    tag_list name base_spirit category
    = [lower base_spirit; replace_char 32 45 (lower category); u"cocktail"] ++ more
    /\ (length more <= 3)%nat
    /\ Forall (fun w => no_pipe w = true) more.
Proof.
  unfold tag_list.
  destruct (any_in [u"martini"; u"manhattan"; u"old fashioned"] (lower name));
  destruct (any_in [u"sour"; u"fizz"; u"collins"] (lower name));
  destruct (any_in [u"frozen"; u"blended"] (lower name));
  eexists; (split; [cbn [app]; reflexivity|]); (split; [cbn [length]; lia|]);
  repeat (apply List.Forall_cons; [vm_compute; reflexivity|]); apply List.Forall_nil.
Qed.

Lemma spirit_tags_no_pipe :
  forallb (fun s => no_pipe (lower s)) SPIRITS = true.
Proof. vm_compute. reflexivity. Qed.

Lemma category_tags_no_pipe :
  forallb (fun c => no_pipe c && no_pipe (replace_char 32 45 (lower c))) CATEGORIES = true.
Proof. vm_compute. reflexivity. Qed.

End Fields.

(** The loop gives the value of the first key that occurs. *)
Lemma glass_loop_first (pre post : list (pystr * pystr)) (key value glass_lower : pystr) :
  (forall k, In k (map fst pre) -> contains k glass_lower = false) ->
  contains key glass_lower = true ->
  glass_loop (pre ++ (key, value) :: post) glass_lower = value.
Proof.
  induction pre as [|[k v] pre IH]; simpl; intros Hpre Hkey.
  - rewrite Hkey. reflexivity.
  - rewrite (Hpre k (or_introl eq_refl)). apply IH; [|exact Hkey].
    intros k' Hk'. apply Hpre. right. exact Hk'.
Qed.

(** X7. [clean_glassware] gives the value of the first key of its table
    that occurs in the lowercased, trimmed input, and [Coupe Glass] when
    none does; each key gets its own value, so each of the seven glass names
    is given for some input.  It is not idempotent: it does not recognise its
    own [Old Fashioned Glass] (the key is written with a hyphen), which it
    gives for [Rocks glass], so cleaning a cleaned name turns that one into
    [Coupe Glass]; the six others are left as they are. *)
Theorem clean_glassware_values (U : Unicode) (glass : pystr) :
  In (clean_glassware glass) GLASSES
  /\ clean_glassware (clean_glassware glass)
     = (if str_eq (clean_glassware glass) u"Old Fashioned Glass"
        then u"Coupe Glass" else clean_glassware glass)
  /\ ((forall key, In key (map fst glass_map) ->
         contains key (strip (lower glass)) = false) ->
      clean_glassware glass = u"Coupe Glass")
  /\ (forall pre key value post,
        glass_map = pre ++ (key, value) :: post ->
        (forall k, In k (map fst pre) -> contains k (strip (lower glass)) = false) ->
        contains key (strip (lower glass)) = true ->
        clean_glassware glass = value)
  /\ (forall key value, In (key, value) glass_map -> clean_glassware key = value)
  /\ (forall value, In value GLASSES -> exists g, clean_glassware g = value)
  /\ clean_glassware u"Rocks glass" = u"Old Fashioned Glass"
  /\ clean_glassware (clean_glassware u"Rocks glass") = u"Coupe Glass"
  /\ ~ (forall g, clean_glassware (clean_glassware g) = clean_glassware g).
Proof.
  assert (Hin : In (clean_glassware glass) GLASSES).
  { unfold clean_glassware.
    pose proof (glass_loop_values glass_map (strip (lower glass))) as H.
    assert (Hincl : forallb (fun v => existsb (str_eq v) GLASSES)
                            (u"Coupe Glass" :: map snd glass_map) = true)
      by (vm_compute; reflexivity).
    rewrite forallb_forall in Hincl. specialize (Hincl _ H).
    apply existsb_exists in Hincl as [v [Hv Heq]].
    apply bool_decide_eq_true in Heq. rewrite Heq. exact Hv. }
  assert (Hkeys : forall key value, In (key, value) glass_map -> clean_glassware key = value).
  { intros key value Hkv.
    assert (Hall : forallb (fun kv => str_eq (clean_glassware kv.1) kv.2) glass_map = true)
      by (vm_compute; reflexivity).
    rewrite forallb_forall in Hall. specialize (Hall _ Hkv).
    apply bool_decide_eq_true in Hall. exact Hall. }
  assert (Hrocks : clean_glassware u"Rocks glass" = u"Old Fashioned Glass")
    by (vm_compute; reflexivity).
  assert (Htwice : clean_glassware (clean_glassware u"Rocks glass") = u"Coupe Glass")
    by (vm_compute; reflexivity).
  split; [exact Hin|]. split; [|split; [|split; [|split; [exact Hkeys|split]]]].
  - assert (Hall : forallb (fun v => str_eq (clean_glassware v)
                                (if str_eq v u"Old Fashioned Glass"
                                 then u"Coupe Glass" else v)) GLASSES = true)
      by (vm_compute; reflexivity).
    rewrite forallb_forall in Hall. specialize (Hall _ Hin).
    apply bool_decide_eq_true in Hall. exact Hall.
  - clear Hkeys. unfold clean_glassware. generalize (strip (lower glass)). intros g.
    induction glass_map as [|[key value] rest IH]; simpl; intros Hnone; [reflexivity|].
    rewrite (Hnone key (or_introl eq_refl)). apply IH.
    intros k Hk. apply Hnone. right. exact Hk.
  - intros pre key value post Hmap Hpre Hkey. unfold clean_glassware.
    rewrite Hmap. apply glass_loop_first; assumption.
  - intros value Hv.
    assert (Hall : forallb (fun v => existsb (fun kv => str_eq kv.2 v) glass_map) GLASSES
                   = true) by (vm_compute; reflexivity).
    rewrite forallb_forall in Hall. specialize (Hall _ Hv).
    apply existsb_exists in Hall as [[key v'] [Hkv Heq]].
    apply bool_decide_eq_true in Heq. simpl in Heq. subst v'.
    exists key. apply Hkeys. exact Hkv.
  - split; [exact Hrocks|]. split; [exact Htwice|].
    intros Hidem. specialize (Hidem u"Rocks glass").
    rewrite Htwice, Hrocks in Hidem. vm_compute in Hidem. discriminate.
Qed.

(** X8. The fields [categories_all] and [tags] survive their
    serialization: splitting them on the pipe gives back the lists that were
    joined.  The categories are the primary one and [Classic] (once); the
    tags are the lowercased spirit, the category with hyphens for spaces,
    [cocktail] and up to three more, so the cut at six tags drops none. *)
Theorem serialized_lists_round_trip (U : Unicode) (name ingredients_hint : pystr) :
  let category := get_category name in
  let spirit := get_base_spirit name ingredients_hint in
  split_char 124 (generate_categories category)
  = (if str_eq category u"Classic" then [u"Classic"] else [category; u"Classic"])
  /\ split_char 124 (generate_tags name spirit category) = tag_list name spirit category
  /\ (3 <= length (tag_list name spirit category) <= 6)%nat
  /\ take 3 (tag_list name spirit category)
     = [lower spirit; replace_char 32 45 (lower category); u"cocktail"].
Proof.
  intros category spirit.
  pose proof (get_category_values name) as Hc. fold category in Hc.
  pose proof (get_base_spirit_values name ingredients_hint) as Hs. fold spirit in Hs.
  pose proof category_tags_no_pipe as Hcp. rewrite forallb_forall in Hcp.
  specialize (Hcp _ Hc). apply andb_true_iff in Hcp as [Hcp1 Hcp2].
  pose proof spirit_tags_no_pipe as Hsp. rewrite forallb_forall in Hsp.
  specialize (Hsp _ Hs).
  split.
  - unfold generate_categories. change u"|" with [124].
    destruct (str_eq category u"Classic") eqn:Heq; simpl negb; cbv iota.
    + apply bool_decide_eq_true in Heq. rewrite Heq. vm_compute. reflexivity.
    + apply split_join; [discriminate|].
      apply List.Forall_cons; [apply no_pipe_spec; exact Hcp1|].
      apply List.Forall_cons; [apply no_pipe_spec; vm_compute; reflexivity|].
      apply List.Forall_nil.
  - destruct (tag_list_shape name spirit category) as [more [Hshape [Hlen Hmore]]].
    assert (Hl : (length (tag_list name spirit category) <= 6)%nat)
      by (rewrite Hshape, length_app; simpl; lia).
    split.
    + unfold generate_tags. change u"|" with [124].
      rewrite take_ge by exact Hl. apply split_join.
      * rewrite Hshape. discriminate.
      * rewrite Hshape. apply Forall_app. split.
        -- apply List.Forall_cons; [apply no_pipe_spec; exact Hsp|].
           apply List.Forall_cons; [apply no_pipe_spec; exact Hcp2|].
           apply List.Forall_cons; [apply no_pipe_spec; vm_compute; reflexivity|].
           apply List.Forall_nil.
        -- eapply List.Forall_impl; [|exact Hmore].
           intros w Hw. apply no_pipe_spec. exact Hw.
    + split; [rewrite Hshape, length_app; simpl; lia|].
      rewrite Hshape. reflexivity.
Qed.

End FieldFacts.

(** ** The technique against the category *)

Module TechniqueFacts.
Import Py Enrich Derive.

(** Decides a goal on the two results once every test on the name is a
    boolean variable: the tests are taken in the order the functions make
    them. *)
Ltac by_tests :=
  vm_compute;
  repeat match goal with
  | |- context [match ?b with true => _ | false => _ end] =>
    is_var b; destruct b; vm_compute
  end;
  repeat split; intros; try reflexivity; try discriminate; tauto.

(** X9. With the category [get_category] gives for the name, the
    technique follows the category: it is [Stir] exactly for
    [Spirit-Forward] and [Build] exactly for [Highball], and it is [Shake]
    for [Sour]; the tests [generate_technique] makes on the name in these
    three cases never decide.  It is one of five techniques. *)
Theorem technique_follows_category (U : Unicode) (name : pystr) :
  let category := get_category name in
  let technique := generate_technique category name in
  (technique = u"Stir" <-> category = u"Spirit-Forward")
  /\ (technique = u"Build" <-> category = u"Highball")
  /\ (category = u"Sour" -> technique = u"Shake")
  /\ In technique [u"Stir"; u"Shake"; u"Build"; u"Blend"; u"Muddle"].
Proof.
  unfold get_category, generate_technique, any_in. cbn [existsb].
  repeat match goal with
  | |- context [contains ?k (lower name)] =>
    generalize (contains k (lower name)); intro
  end.
  by_tests.
Qed.

End TechniqueFacts.

(** ** The rows [main] writes *)

Module MainFacts.
Import Py PyFacts Enrich DedupFacts.

(** The identifier and name a row is written with, when it is written. *)
Definition written (U : Unicode) (row : Csv.row) : option (pystr * pystr) :=
  match row !! "name"%string, row !! "id"%string with
  | Some name, Some id =>
    if is_legitimate_cocktail (Some (strip name)) then Some (id, strip name) else None
  | _, _ => None
  end.

Section Main.
Context {U : Unicode}.

Lemma dedup_id_name (es : list enriched) :
  forall prior,
  map (fun e => (e_id e, e_name e)) (dedup prior es)
  = map (fun e => (e_id e, e_name e)) es.
Proof.
  induction es as [|e es' IH]; intros prior; simpl; [reflexivity|].
  rewrite IH. destruct (bool_decide _); reflexivity.
Qed.

Lemma empty_name_rejected : is_legitimate_cocktail (Some (strip [])) = false.
Proof. vm_compute. reflexivity. Qed.

Lemma row_written (row : Csv.row) :
  (if is_legitimate_cocktail (Some (strip (Csv.get row "name")))
   then option_map (fun e => (e_id e, e_name e)) (enrich_cocktail row)
   else None)
  = written U row.
Proof.
  unfold written, enrich_cocktail, Csv.get.
  destruct (row !! "name"%string) as [name|]; cbn [default from_option id].
  - destruct (row !! "id"%string) as [ident|];
      destruct (is_legitimate_cocktail (Some (strip name))); reflexivity.
  - rewrite empty_name_rejected. reflexivity.
Qed.

Lemma enriched_written (rows : list Csv.row) :
  map (fun e => (e_id e, e_name e)) (omap enrich_cocktail (filter_legitimate rows))
  = omap (written U) rows.
Proof.
  unfold filter_legitimate.
  induction rows as [|row rest IH]; [reflexivity|].
  cbn [List.filter].
  change (omap (written U) (row :: rest))
    with (match written U row with
          | Some y => y :: omap (written U) rest
          | None => omap (written U) rest
          end).
  rewrite <- (row_written row), <- IH.
  destruct (is_legitimate_cocktail (Some (strip (Csv.get row "name")))); [|reflexivity].
  change (omap enrich_cocktail (row :: ?l))
    with (match enrich_cocktail row with
          | Some y => y :: omap enrich_cocktail l
          | None => omap enrich_cocktail l
          end).
  destruct (enrich_cocktail row); reflexivity.
Qed.

Lemma main_dedup (rows : list Csv.row) :
  main rows = dedup [] (omap enrich_cocktail (filter_legitimate rows)).
Proof.
  unfold main. rewrite (enrich_loop_dedup _ [] ∅ []); [reflexivity|].
  intros s. rewrite lookup_empty, elem_of_nil.
  split; [intros [? ?]; discriminate | tauto].
Qed.

(** Two slugs with a hyphen-free identifier appended are equal only when
    slugs and identifiers are. *)
Lemma suffix_inj (a b x y : pystr) :
  a ++ 45 :: x = b ++ 45 :: y -> ~ In 45 x -> ~ In 45 y -> a = b /\ x = y.
Proof.
  revert b. induction a as [|c a IH]; intros [|c' b] Heq Hx Hy; simpl in Heq.
  - injection Heq as ->. tauto.
  - injection Heq as <- ->. exfalso. apply Hx. apply in_or_app. right. left. reflexivity.
  - injection Heq as -> <-. exfalso. apply Hy. apply in_or_app. right. left. reflexivity.
  - injection Heq as -> Heq. destruct (IH b Heq Hx Hy) as [-> ->]. tauto.
Qed.

Lemma dedup_slug_lookup (es : list enriched) (k : nat) (e : enriched) :
  es !! k = Some e ->
  map e_slug (dedup [] es) !! k
  = Some (if bool_decide (e_slug e ∈ map e_slug (take k es))
          then e_slug e ++ 45 :: e_id e else e_slug e).
Proof.
  intros Hk. rewrite list_lookup_fmap, (dedup_lookup es [] k e Hk). simpl.
  destruct (bool_decide _); reflexivity.
Qed.

Lemma earlier_slug (es : list enriched) (i j : nat) (e : enriched) :
  es !! i = Some e -> (i < j)%nat -> e_slug e ∈ map e_slug (take j es).
Proof.
  intros Hi Hlt. apply list_elem_of_fmap. exists e. split; [reflexivity|].
  apply list_elem_of_lookup. exists i. rewrite lookup_take_lt by exact Hlt. exact Hi.
Qed.

Lemma dedup_NoDup (es : list enriched) :
  NoDup (map e_id es) ->
  Forall (fun e => ~ In 45 (e_id e)) es ->
  (forall e e', In e es -> In e' es -> e_slug e' <> e_slug e ++ 45 :: e_id e) ->
  NoDup (map e_slug (dedup [] es)).
Proof.
  intros Hids Hhyphen Hbase. apply NoDup_alt. intros i j x Hi Hj.
  assert (Hlen : length (map e_slug (dedup [] es)) = length es)
    by (rewrite length_map; apply dedup_length).
  destruct (es !! i) as [ei|] eqn:Hei;
    [|apply lookup_ge_None in Hei; apply lookup_lt_Some in Hi; lia].
  destruct (es !! j) as [ej|] eqn:Hej;
    [|apply lookup_ge_None in Hej; apply lookup_lt_Some in Hj; lia].
  rewrite (dedup_slug_lookup es i ei Hei) in Hi.
  rewrite (dedup_slug_lookup es j ej Hej) in Hj.
  assert (Hini : In ei es)
    by (apply list_elem_of_In, list_elem_of_lookup; exists i; exact Hei).
  assert (Hinj : In ej es)
    by (apply list_elem_of_In, list_elem_of_lookup; exists j; exact Hej).
  rewrite List.Forall_forall in Hhyphen.
  destruct (bool_decide_reflect (e_slug ei ∈ map e_slug (take i es))) as [Bi|Bi];
  destruct (bool_decide_reflect (e_slug ej ∈ map e_slug (take j es))) as [Bj|Bj];
    injection Hi as Hi; injection Hj as Hj; subst x.
  - destruct (suffix_inj _ _ _ _ Hj (Hhyphen _ Hinj) (Hhyphen _ Hini)) as [_ Hid].
    apply NoDup_alt with (i := i) (j := j) (x := e_id ei) in Hids; [exact Hids | |].
    + rewrite list_lookup_fmap, Hei. reflexivity.
    + rewrite list_lookup_fmap, Hej. simpl. congruence.
  - exfalso. exact (Hbase ei ej Hini Hinj Hj).
  - exfalso. apply (Hbase ej ei Hinj Hini). symmetry. exact Hj.
  - destruct (Nat.lt_trichotomy i j) as [Hlt | [Heq | Hgt]]; [|exact Heq|].
    + exfalso. apply Bj. rewrite Hj. exact (earlier_slug es i j ei Hei Hlt).
    + exfalso. apply Bi. rewrite <- Hj. exact (earlier_slug es j i ej Hej Hgt).
Qed.

End Main.

(** On rows whose cells are strings, [main] writes one row for each input
    row that has a name and an identifier and whose trimmed name is
    legitimate, in the order of the input, with that identifier and that
    name: the pass over the slugs changes neither.  (Rows with a missing
    cell are the matter of [Reader] below.) *)
Lemma main_writes_legitimate_rows (U : Unicode) (rows : list Csv.row) :
  map (fun e => (e_id e, e_name e)) (main rows) = omap (written U) rows
  /\ (length (main rows) <= length rows)%nat
  /\ Forall (fun e => is_legitimate_cocktail (Some (e_name e)) = true) (main rows)
  /\ map e_name
       (main [ {[ "id"%string := u"1"; "name"%string := u"Martini" ]};
               {[ "id"%string := u"2"; "name"%string := u"Brain Fart" ]};
               {[ "id"%string := u"3"; "name"%string := u"Old Fashioned" ]} ])
     = [u"Martini"; u"Old Fashioned"].
Proof.
  assert (Hw : map (fun e => (e_id e, e_name e)) (main rows) = omap (written U) rows).
  { rewrite main_dedup, dedup_id_name. apply enriched_written. }
  split; [exact Hw|]. split; [|split; [|vm_compute; reflexivity]].
  - rewrite <- (length_map (fun e => (e_id e, e_name e))), Hw.
    clear Hw. induction rows as [|row rest IH]; [simpl; lia|].
    change (omap ?f (row :: rest))
      with (match f row with Some y => y :: omap f rest | None => omap f rest end).
    destruct (written U row); simpl; lia.
  - apply List.Forall_forall. intros e He.
    assert (Hin : In (e_id e, e_name e) (omap (written U) rows)).
    { rewrite <- Hw. apply (in_map (fun e => (e_id e, e_name e))). exact He. }
    apply list_elem_of_In, list_elem_of_omap in Hin as [row [_ Hrow]].
    unfold written in Hrow.
    destruct (row !! "name"%string) as [name|]; [|discriminate].
    destruct (row !! "id"%string) as [id|]; [|discriminate].
    destruct (is_legitimate_cocktail (Some (strip name))) eqn:Hl; [|discriminate].
    injection Hrow as _ <-. exact Hl.
Qed.



(** The condition on the base slugs is needed: with the names [Kir
    Royale] and [Kir] and the identifier [royale], two rows get the slug
    [kir-royale]. *)
Remark deduplicated_slugs_collide :
  map e_slug
    (main (U := Latin1)
       [ {[ "id"%string := u"1"; "name"%string := u"Kir Royale" ]};
         {[ "id"%string := u"2"; "name"%string := u"Kir" ]};
         {[ "id"%string := u"royale"; "name"%string := u"Kir" ]} ])
  = [u"kir-royale"; u"kir"; u"kir-royale"].
Proof. vm_compute. reflexivity. Qed.

End MainFacts.

(** ** The instructions field *)

Module Instructions.
Import Py Derive.

(** The decimal digits above U+00FF, the part of [\d] that is not written
    out. *)
Class Digits := { uni_isdecimal : N -> bool }.

#[export] Instance AsciiDigits : Digits := {| uni_isdecimal := fun _ => false |}.

(** [str(n)] for a natural number *)
Fixpoint uint_str (d : Decimal.uint) : pystr :=
  match d with
  | Decimal.Nil => []
  | Decimal.D0 d => 48 :: uint_str d
  | Decimal.D1 d => 49 :: uint_str d
  | Decimal.D2 d => 50 :: uint_str d
  | Decimal.D3 d => 51 :: uint_str d
  | Decimal.D4 d => 52 :: uint_str d
  | Decimal.D5 d => 53 :: uint_str d
  | Decimal.D6 d => 54 :: uint_str d
  | Decimal.D7 d => 55 :: uint_str d
  | Decimal.D8 d => 56 :: uint_str d
  | Decimal.D9 d => 57 :: uint_str d
  end.

Definition str_of_nat (n : nat) : pystr := uint_str (Nat.to_uint n).

Definition DEFAULT_INSTRUCTIONS : pystr :=
  u"1. Combine ingredients in shaker with ice. 2. Shake well for 15 seconds. 3. Strain into chilled glass. 4. Garnish and serve.".

Section Clean.
Context {U : Unicode} {D : Digits}.

Definition isdecimal (c : N) : bool :=
  if c <? 256 then (48 <=? c) && (c <=? 57) else uni_isdecimal c.

(** [re.match(r'^\d+\.', s)] as a test.  The digits are taken greedily and
    the period is no digit, so giving digits back never helps: the test is
    whether a period follows the first run of digits, which is not empty. *)
Definition numbered (s : pystr) : bool :=
  match s with
  | [] => false
  | c :: rest =>
    isdecimal c
    && match lstrip_by isdecimal rest with
       | 46 :: _ => true
       | _ => false
       end
  end.

(** [[f'{i+1}. {s}.' for i, s in enumerate(sentences)]], from index [i] *)
Fixpoint number_from (i : nat) (sentences : list pystr) : list pystr :=
  match sentences with
  | [] => []
  | s :: rest => (str_of_nat (i + 1) ++ u". " ++ s ++ u".") :: number_from (S i) rest
  end.

Definition clean_instructions (instructions : pystr) : pystr :=
  if bool_decide (instructions = []) then DEFAULT_INSTRUCTIONS
  else
    let instructions := strip instructions in
    let instructions := re_sub rx"\s+" u" " instructions in
    if negb (numbered instructions) then
      let sentences :=
        map strip
          (List.filter (fun s => negb (bool_decide (strip s = [])))
             (split_char 46 instructions)) in
      join u" " (number_from 0 sentences)
    else instructions.

End Clean.

End Instructions.

Module InstructionsTest.
Import Py Derive Instructions.

Example str_of_nat_ex :
  map str_of_nat [0; 7; 10; 123]%nat = [u"0"; u"7"; u"10"; u"123"].
Proof. reflexivity. Qed.

Example clean_plain :
  clean_instructions (U := Latin1) (u"  Shake  well." ++ [10] ++ u"Strain into glass ")
  = u"1. Shake well. 2. Strain into glass.".
Proof. vm_compute. reflexivity. Qed.

Example clean_numbered :
  clean_instructions (U := Latin1) (u"1. Shake." ++ [10] ++ u"2.  Strain")
  = u"1. Shake. 2. Strain".
Proof. vm_compute. reflexivity. Qed.

(** A decimal point ends a sentence. *)
Example clean_decimal :
  clean_instructions (U := Latin1) u"Add 1.5 oz gin. Stir"
  = u"1. Add 1. 2. 5 oz gin. 3. Stir.".
Proof. vm_compute. reflexivity. Qed.

Example clean_missing :
  clean_instructions (U := Latin1) [] = DEFAULT_INSTRUCTIONS
  /\ clean_instructions (U := Latin1) u" . " = [].
Proof. split; vm_compute; reflexivity. Qed.

End InstructionsTest.

(** ** What [clean_instructions] gives *)

Module InstructionFacts.
Import Py PyFacts PyMore SlugFacts Derive Instructions AsciiSlugFacts.

(** Runs of [p] in a string are single occurrences of [r]; [prev] tells
    that the character before satisfied [p]. *)
Fixpoint spaced (p : N -> bool) (r : N) (prev : bool) (s : pystr) : bool :=
  match s with
  | [] => true
  | c :: t =>
    if p c then (c =? r) && negb prev && spaced p r true t
    else spaced p r false t
  end.

(** Neither the first nor the last character satisfies [p]. *)
Definition trimmed (p : N -> bool) (s : pystr) : Prop :=
  match s with [] => True | c :: _ => p c = false end
  /\ match rev s with [] => True | c :: _ => p c = false end.

Section Spaced.
Variable p : N -> bool.
Variable r : N.
Hypothesis Hr : p r = true.

Lemma spaced_squeeze (b : bool) (s : pystr) :
  spaced p r b (squeeze p [r] b s) = true.
Proof.
  revert b. induction s as [|c t IH]; intros b; simpl; [reflexivity|].
  destruct (p c) eqn:Hc.
  - destruct b; simpl.
    + apply IH.
    + rewrite Hr, N.eqb_refl. simpl. apply IH.
  - simpl. rewrite Hc. apply IH.
Qed.

Lemma spaced_fixed (b : bool) (s : pystr) :
  spaced p r b s = true -> squeeze p [r] b s = s.
Proof.
  revert b. induction s as [|c t IH]; intros b; simpl; [reflexivity|].
  destruct (p c) eqn:Hc; intros H.
  - apply andb_true_iff in H as [H Ht]. apply andb_true_iff in H as [Hcr Hb].
    apply N.eqb_eq in Hcr. destruct b; [discriminate|].
    simpl. rewrite (IH true Ht). congruence.
  - rewrite (IH false H). reflexivity.
Qed.

Lemma spaced_false (b : bool) (s : pystr) :
  spaced p r b s = true -> spaced p r false s = true.
Proof.
  destruct s as [|c t]; simpl; [tauto|].
  destruct (p c); [|tauto].
  destruct b; simpl; [rewrite andb_false_r; discriminate | tauto].
Qed.

Lemma spaced_true (s : pystr) :
  spaced p r false s = true ->
  match s with [] => True | c :: _ => p c = false end ->
  spaced p r true s = true.
Proof.
  destruct s as [|c t]; simpl; [tauto|]. intros H Hc. rewrite Hc in *. exact H.
Qed.

Lemma spaced_lift (b : bool) (s : pystr) :
  spaced p r true s = true -> spaced p r b s = true.
Proof. destruct b; [tauto | apply spaced_false]. Qed.

Lemma spaced_app (b : bool) (a t : pystr) :
  spaced p r b a = true -> spaced p r true t = true -> spaced p r b (a ++ t) = true.
Proof.
  revert b. induction a as [|c a IH]; intros b; simpl.
  - intros _. apply spaced_lift.
  - destruct (p c).
    + intros H Ht. apply andb_true_iff in H as [H Ha]. rewrite H. simpl.
      apply IH; assumption.
    + apply IH.
Qed.

Lemma spaced_app_inv (b : bool) (a t : pystr) :
  spaced p r b (a ++ t) = true ->
  spaced p r b a = true /\ spaced p r false t = true.
Proof.
  revert b. induction a as [|c a IH]; intros b; simpl.
  - intros H. split; [reflexivity | exact (spaced_false b t H)].
  - destruct (p c).
    + intros H. apply andb_true_iff in H as [H Ha].
      destruct (IH true Ha) as [H1 H2]. rewrite H, H1. split; [reflexivity | exact H2].
    + apply IH.
Qed.

Lemma spaced_part (pre s suf : pystr) :
  spaced p r false (pre ++ s ++ suf) = true -> spaced p r false s = true.
Proof.
  intros H. apply spaced_app_inv in H as [_ H].
  apply spaced_app_inv in H as [H _]. exact H.
Qed.

Lemma spaced_nonblank (b : bool) (s : pystr) :
  Forall (fun c => p c = false) s -> spaced p r b s = true.
Proof.
  intros H. revert b. induction H as [|c t Hc _ IH]; intros b; simpl; [reflexivity|].
  rewrite Hc. apply IH.
Qed.

(** The pieces of a split on a character outside [p]. *)
Lemma spaced_split (sep : N) (s : pystr) :
  p sep = false ->
  forall b, spaced p r b s = true ->
  Forall (fun w => spaced p r false w = true) (split_char sep s).
Proof.
  intros Hsep.
  assert (H : forall b, spaced p r b s = true ->
            match split_char sep s with
            | [] => False
            | w :: ws => spaced p r b w = true
                         /\ Forall (fun w => spaced p r false w = true) ws
            end).
  { induction s as [|x t IH]; intros b Hs.
    - simpl. split; [reflexivity | constructor].
    - cbn [split_char]. destruct (N.eqb_spec x sep) as [->|Hx].
      + simpl in Hs. rewrite Hsep in Hs. split; [reflexivity|].
        specialize (IH false Hs). destruct (split_char sep t) as [|w ws]; [contradiction|].
        destruct IH as [Hw Hws]. constructor; assumption.
      + simpl in Hs. destruct (p x) eqn:Hpx.
        * apply andb_true_iff in Hs as [Hxb Ht]. specialize (IH true Ht).
          destruct (split_char sep t) as [|w ws]; [contradiction|].
          destruct IH as [Hw Hws]. split; [|exact Hws].
          simpl. rewrite Hpx, Hxb, Hw. reflexivity.
        * specialize (IH false Hs).
          destruct (split_char sep t) as [|w ws]; [contradiction|].
          destruct IH as [Hw Hws]. split; [|exact Hws].
          simpl. rewrite Hpx. exact Hw. }
  intros b Hs. specialize (H b Hs).
  destruct (split_char sep s) as [|w ws]; [contradiction|].
  destruct H as [Hw Hws]. constructor; [exact (spaced_false b w Hw) | exact Hws].
Qed.

End Spaced.

Section Trim.
Variable p : N -> bool.

Lemma strip_by_trimmed (s : pystr) : trimmed p s -> strip_by p s = s.
Proof.
  intros [Hh Hl]. unfold strip_by, rstrip_by.
  rewrite (lstrip_by_fixed p s Hh), (lstrip_by_fixed p (rev s) Hl).
  apply rev_involutive.
Qed.

Lemma squeeze_snoc (repl : pystr) (b : bool) (a : pystr) (c : N) :
  p c = false -> squeeze p repl b (a ++ [c]) = squeeze p repl b a ++ [c].
Proof.
  intros Hc. revert b. induction a as [|x a IH]; intros b; simpl.
  - rewrite Hc. reflexivity.
  - destruct (p x); rewrite IH; [rewrite app_assoc|]; reflexivity.
Qed.

Lemma squeeze_trimmed (repl s : pystr) :
  trimmed p s -> trimmed p (squeeze p repl false s).
Proof.
  intros [Hh Hl]. split.
  - destruct s as [|c t]; simpl; [exact I|]. rewrite Hh. exact Hh.
  - destruct (rev s) as [|c t] eqn:Hrev.
    + apply (f_equal (@rev N)) in Hrev. rewrite rev_involutive in Hrev.
      subst s. exact I.
    + assert (Hs : s = rev t ++ [c])
        by (rewrite <- (rev_involutive s), Hrev; reflexivity).
      subst s. rewrite squeeze_snoc by exact Hl.
      rewrite rev_app_distr. exact Hl.
Qed.

Lemma lstrip_by_all (s : pystr) :
  Forall (fun c => p c = true) s -> lstrip_by p s = [].
Proof.
  induction 1 as [|c t Hc _ IH]; simpl; [reflexivity|]. rewrite Hc. exact IH.
Qed.

Lemma strip_by_all (s : pystr) :
  Forall (fun c => p c = true) s -> strip_by p s = [].
Proof. intros H. unfold strip_by. rewrite (lstrip_by_all s H). reflexivity. Qed.

(** What stripping takes away satisfies [p]. *)
Lemma strip_by_Forall_inv (Q : N -> Prop) (s : pystr) :
  (forall c, p c = true -> Q c) -> Forall Q (strip_by p s) -> Forall Q s.
Proof.
  intros HQ H.
  destruct (lstrip_by_split p s) as [pre [Hs Hpre]].
  destruct (rstrip_by_split p (lstrip_by p s)) as [suf [Ht Hsuf]].
  rewrite Hs, Ht. fold (strip_by p s).
  apply Forall_app. split; [eapply List.Forall_impl; [exact HQ | exact Hpre]|].
  apply Forall_app. split; [exact H | eapply List.Forall_impl; [exact HQ | exact Hsuf]].
Qed.

Lemma strip_by_nil_inv (s : pystr) :
  strip_by p s = [] -> Forall (fun c => p c = true) s.
Proof.
  intros H. apply strip_by_Forall_inv; [tauto|]. rewrite H. constructor.
Qed.

Lemma squeeze_Forall_inv (Q : N -> Prop) (repl s : pystr) (b : bool) :
  (forall c, p c = true -> Q c) -> Forall Q (squeeze p repl b s) -> Forall Q s.
Proof.
  intros HQ. revert b. induction s as [|c t IH]; intros b; simpl; [constructor|].
  destruct (p c) eqn:Hc; intros H.
  - apply Forall_app in H as [_ H]. constructor; [apply HQ; exact Hc | exact (IH true H)].
  - apply List.Forall_cons_iff in H as [Hq H]. constructor; [exact Hq | exact (IH false H)].
Qed.

End Trim.

(** The characters of the pieces of a split are those of the string
    without the separator. *)
Lemma split_char_Forall (P : N -> Prop) (sep : N) (s : pystr) :
  Forall P s -> Forall (Forall P) (split_char sep s).
Proof.
  induction 1 as [|x t Hx _ IH]; simpl; [repeat constructor|].
  destruct (x =? sep); [constructor; [constructor | exact IH]|].
  destruct (split_char sep t) as [|w ws]; [repeat constructor; exact Hx|].
  apply List.Forall_cons_iff in IH as [Hw Hws].
  constructor; [constructor; assumption | exact Hws].
Qed.

Lemma split_char_Forall_inv (P : N -> Prop) (sep : N) (s : pystr) :
  Forall (Forall P) (split_char sep s) -> Forall (fun c => P c \/ c = sep) s.
Proof.
  induction s as [|x t IH]; simpl; [constructor|].
  destruct (N.eqb_spec x sep) as [->|Hx]; intros H.
  - apply List.Forall_cons_iff in H as [_ H]. constructor; [right; reflexivity | exact (IH H)].
  - destruct (split_char sep t) as [|w ws].
    + apply List.Forall_cons_iff in H as [H _]. apply List.Forall_cons_iff in H as [Hx' _].
      constructor; [left; exact Hx' | apply IH; constructor].
    + apply List.Forall_cons_iff in H as [H Hws]. apply List.Forall_cons_iff in H as [Hx' Hw].
      constructor; [left; exact Hx' | apply IH; constructor; assumption].
Qed.

Lemma uint_str_digits (d : Decimal.uint) :
  Forall (fun c => 48 <= c <= 57) (uint_str d).
Proof. induction d; simpl; constructor; (lia || assumption). Qed.

Section Clean.
Context {U : Unicode} {D : Digits}.

Lemma digit_not_space (c : N) : 48 <= c <= 57 -> isspace c = false.
Proof.
  intros Hc.
  assert (Hin : In c (map N.of_nat (seq 48 10))).
  { apply in_map_iff. exists (N.to_nat c). split; [apply N2Nat.id|].
    apply in_seq. lia. }
  simpl in Hin.
  repeat (destruct Hin as [<- | Hin]; [reflexivity|]). contradiction.
Qed.

(** The cleaned text before the numbering: trimmed, with each run of
    whitespace turned into one space. *)
Definition tidied (instructions : pystr) : pystr :=
  squeeze isspace [32] false (strip instructions).

(** The sentences of a text that is not numbered. *)
Definition sentences (s : pystr) : list pystr :=
  map strip
    (List.filter (fun w => negb (bool_decide (strip w = []))) (split_char 46 s)).

Lemma clean_instructions_eq (instructions : pystr) :
  clean_instructions instructions
  = if bool_decide (instructions = []) then DEFAULT_INSTRUCTIONS
    else if numbered (tidied instructions) then tidied instructions
         else join [32] (number_from 0 (sentences (tidied instructions))).
Proof.
  unfold clean_instructions, tidied, sentences.
  change rx"\s+" with (Cat (Plus (Cls false [CSpace])) Eps).
  change u" " with [32].
  rewrite re_sub_plus_cls.
  assert (Hs : forall c, in_class false [CSpace] c = isspace c).
  { intros c. unfold in_class. simpl. rewrite orb_false_r. reflexivity. }
  rewrite (squeeze_ext _ _ _ _ _ Hs).
  destruct (bool_decide (instructions = [])); [reflexivity|].
  destruct (numbered _); reflexivity.
Qed.

(** A text is tidy when its whitespace is single spaces between other
    characters. *)
Definition tidy (s : pystr) : Prop :=
  spaced isspace 32 false s = true /\ trimmed isspace s.

Lemma tidied_tidy (instructions : pystr) : tidy (tidied instructions).
Proof.
  split.
  - apply spaced_squeeze. reflexivity.
  - apply squeeze_trimmed. apply strip_by_edges.
Qed.

Lemma tidy_tidied (s : pystr) : tidy s -> tidied s = s.
Proof.
  intros [Hs Ht]. unfold tidied, strip. rewrite (strip_by_trimmed _ _ Ht).
  apply spaced_fixed. exact Hs.
Qed.

Lemma sentences_spaced (s : pystr) :
  spaced isspace 32 false s = true ->
  Forall (fun w => spaced isspace 32 true w = true) (sentences s).
Proof.
  intros Hs. unfold sentences.
  pose proof (spaced_split isspace 32 46 s eq_refl false Hs) as H.
  induction H as [|w ws Hw _ IH]; simpl; [constructor|].
  destruct (bool_decide (strip w = [])); simpl; [exact IH|].
  constructor; [|exact IH].
  apply spaced_true.
  - destruct (strip_by_split isspace w) as [pre [suf Heq]].
    rewrite Heq in Hw. exact (spaced_part _ _ _ _ _ Hw).
  - apply strip_by_edges.
Qed.

(** The numbered text starts with its first number and ends with a
    period. *)
Lemma numbered_text_head (i : nat) (s : pystr) (rest : list pystr) :
  exists tail,
    join [32] (number_from i (s :: rest)) = str_of_nat (i + 1) ++ 46 :: 32 :: tail.
Proof.
  destruct rest as [|s' rest].
  - exists (s ++ [46]). reflexivity.
  - exists ((s ++ [46]) ++ [32] ++ join [32] (number_from (S i) (s' :: rest))).
    change (join [32] (number_from i (s :: s' :: rest)))
      with ((str_of_nat (i + 1) ++ [46; 32] ++ s ++ [46])
            ++ [32] ++ join [32] (number_from (S i) (s' :: rest))).
    rewrite <- !app_assoc. reflexivity.
Qed.

Lemma numbered_text_last (ss : list pystr) :
  forall i, ss <> [] -> exists body, join [32] (number_from i ss) = body ++ [46].
Proof.
  induction ss as [|s rest IH]; intros i Hne; [contradiction|].
  destruct rest as [|s' rest].
  - exists (str_of_nat (i + 1) ++ [46; 32] ++ s).
    change (join [32] (number_from i [s])) with (str_of_nat (i + 1) ++ [46; 32] ++ s ++ [46]).
    rewrite <- !app_assoc. reflexivity.
  - destruct (IH (S i)) as [body Hb]; [discriminate|].
    exists ((str_of_nat (i + 1) ++ [46; 32] ++ s ++ [46]) ++ [32] ++ body).
    change (join [32] (number_from i (s :: s' :: rest)))
      with ((str_of_nat (i + 1) ++ [46; 32] ++ s ++ [46])
            ++ [32] ++ join [32] (number_from (S i) (s' :: rest))).
    rewrite Hb, <- !app_assoc. reflexivity.
Qed.

Lemma numbered_text_spaced (ss : list pystr) :
  forall i, Forall (fun w => spaced isspace 32 true w = true) ss ->
  spaced isspace 32 true (join [32] (number_from i ss)) = true.
Proof.
  assert (Hitem : forall i s tail,
            spaced isspace 32 true s = true ->
            spaced isspace 32 false tail = true ->
            spaced isspace 32 true
              ((str_of_nat (i + 1) ++ [46; 32] ++ s ++ [46]) ++ tail) = true).
  { intros i s tail Hs Ht. rewrite <- !app_assoc.
    apply spaced_app.
    - apply spaced_nonblank. eapply List.Forall_impl; [|apply uint_str_digits].
      intros c Hc. apply digit_not_space. exact Hc.
    - change (spaced isspace 32 true (s ++ [46] ++ tail) = true).
      apply spaced_app; [exact Hs | exact Ht]. }
  induction ss as [|s rest IH]; intros i Hall; [reflexivity|].
  apply List.Forall_cons_iff in Hall as [Hs Hrest].
  destruct rest as [|s' rest].
  - change (join [32] (number_from i [s])) with (str_of_nat (i + 1) ++ [46; 32] ++ s ++ [46]).
    rewrite <- (app_nil_r (str_of_nat (i + 1) ++ [46; 32] ++ s ++ [46])).
    apply Hitem; [exact Hs | reflexivity].
  - change (join [32] (number_from i (s :: s' :: rest)))
      with ((str_of_nat (i + 1) ++ [46; 32] ++ s ++ [46])
            ++ [32] ++ join [32] (number_from (S i) (s' :: rest))).
    apply Hitem; [exact Hs|].
    change (spaced isspace 32 true (join [32] (number_from (S i) (s' :: rest))) = true).
    apply IH. exact Hrest.
Qed.

(** A tidy text that is numbered is left as it is. *)
Lemma clean_instructions_fixed (s : pystr) :
  tidy s -> numbered s = true -> clean_instructions s = s.
Proof.
  intros Ht Hn. rewrite clean_instructions_eq, (tidy_tidied s Ht), Hn.
  destruct s as [|c t]; [discriminate|]. reflexivity.
Qed.

Lemma numbered_text_nil (ss : list pystr) :
  join [32] (number_from 0 ss) = [] -> ss = [].
Proof.
  destruct ss as [|s rest]; [reflexivity|]. intros H.
  destruct (numbered_text_last (s :: rest) 0) as [body Hb]; [discriminate|].
  rewrite Hb in H. destruct body; discriminate.
Qed.

Lemma sentences_nil (s : pystr) :
  sentences s = [] <-> Forall (fun c => isspace c = true \/ c = 46) s.
Proof.
  unfold sentences. split.
  - intros H. apply split_char_Forall_inv.
    induction (split_char 46 s) as [|w ws IH]; [constructor|].
    simpl in H. destruct (bool_decide (strip w = [])) eqn:Hw; simpl in H; [|discriminate].
    apply bool_decide_eq_true in Hw.
    constructor; [apply strip_by_nil_inv; exact Hw | exact (IH H)].
  - intros H.
    pose proof (split_char_Forall _ 46 s H) as Hall.
    destruct (split_char_no_sep 46 s) as [Hsep _].
    induction Hall as [|w ws Hw _ IH]; [reflexivity|].
    apply List.Forall_cons_iff in Hsep as [Hw46 Hsep].
    simpl. rewrite bool_decide_eq_true_2; [exact (IH Hsep)|].
    apply strip_by_all. apply List.Forall_forall. intros c Hc.
    rewrite List.Forall_forall in Hw. destruct (Hw c Hc) as [Hsp | ->]; [exact Hsp|].
    contradiction.
Qed.

Lemma tidied_blank (instructions : pystr) :
  Forall (fun c => isspace c = true \/ c = 46) (tidied instructions)
  <-> Forall (fun c => isspace c = true \/ c = 46) instructions.
Proof.
  unfold tidied, strip. split; intros H.
  - apply (strip_by_Forall_inv isspace); [tauto|].
    apply (squeeze_Forall_inv isspace _ [32] _ false); [tauto | exact H].
  - apply squeeze_Forall; [repeat constructor|].
    eapply List.Forall_impl; [|apply strip_by_Forall; exact H]. tauto.
Qed.

Lemma blank_not_numbered (s : pystr) :
  trimmed isspace s -> Forall (fun c => isspace c = true \/ c = 46) s ->
  numbered s = false.
Proof.
  intros [Hh _] H. destruct s as [|c t]; [reflexivity|].
  apply List.Forall_cons_iff in H as [[Hc | ->] _]; [congruence | reflexivity].
Qed.

End Clean.

(** X12. [clean_instructions] gives the empty text exactly for an input
    that is not empty and holds only whitespace and periods: such a row
    gets no instructions, not the default ones. *)
Theorem clean_instructions_empty_iff (U : Unicode) (D : Digits) (instructions : pystr) :
  clean_instructions instructions = [] <->
  instructions <> []
  /\ Forall (fun c => isspace c = true \/ c = 46) instructions.
Proof.
  assert (Hdef : DEFAULT_INSTRUCTIONS <> []) by (vm_compute; discriminate).
  rewrite clean_instructions_eq. split.
  - destruct (bool_decide_reflect (instructions = [])) as [->|Hne]; [contradiction|].
    destruct (numbered (tidied instructions)) eqn:Hn.
    + intros H. rewrite H in Hn. discriminate.
    + intros H. split; [exact Hne|].
      apply numbered_text_nil, sentences_nil in H. apply tidied_blank. exact H.
  - intros [Hne H]. rewrite bool_decide_eq_false_2 by exact Hne.
    apply tidied_blank in H.
    rewrite (blank_not_numbered _ (proj2 (tidied_tidy instructions)) H).
    apply sentences_nil in H. rewrite H. reflexivity.
Qed.

(** X13. Cleaning instructions that were cleaned changes nothing, except
    for the empty text, which becomes the default instructions: a text that
    [clean_instructions] gives is numbered and tidy. *)
Theorem clean_instructions_twice (U : Unicode) (D : Digits) (instructions : pystr) :
  clean_instructions (clean_instructions instructions)
  = (if bool_decide (clean_instructions instructions = [])
     then DEFAULT_INSTRUCTIONS else clean_instructions instructions)
  /\ (clean_instructions instructions <> [] ->
      numbered (clean_instructions instructions) = true
      /\ strip (clean_instructions instructions) = clean_instructions instructions).
Proof.
  assert (Hdef : tidy DEFAULT_INSTRUCTIONS /\ numbered DEFAULT_INSTRUCTIONS = true).
  { split; [split; [|split]|]; vm_compute; reflexivity. }
  assert (Hcases : clean_instructions instructions = []
                   \/ (tidy (clean_instructions instructions)
                       /\ numbered (clean_instructions instructions) = true)).
  { rewrite clean_instructions_eq.
    destruct (bool_decide (instructions = [])); [right; exact Hdef|].
    destruct (numbered (tidied instructions)) eqn:Hn.
    - right. split; [apply tidied_tidy | exact Hn].
    - pose proof (sentences_spaced _ (proj1 (tidied_tidy instructions))) as Hsp.
      destruct (sentences (tidied instructions)) as [|s rest]; [left; reflexivity|].
      right.
      destruct (numbered_text_head 0 s rest) as [tail Hhead].
      destruct (numbered_text_last (s :: rest) 0) as [body Hlast]; [discriminate|].
      pose proof (numbered_text_spaced (s :: rest) 0 Hsp) as Hs.
      split; [split; [exact (spaced_false _ _ _ _ Hs) | split]|].
      + rewrite Hhead. reflexivity.
      + rewrite Hlast, rev_app_distr. reflexivity.
      + rewrite Hhead. reflexivity. }
  destruct Hcases as [Hnil | [Ht Hn]].
  - rewrite Hnil. split; [reflexivity | contradiction].
  - split.
    + rewrite (clean_instructions_fixed _ Ht Hn).
      rewrite bool_decide_eq_false_2; [reflexivity|].
      intros H. rewrite H in Hn. discriminate.
    + intros _. split; [exact Hn | apply strip_by_trimmed, Ht].
Qed.

End InstructionFacts.

(** ** The slugs [main] writes against the slug validator *)

Module PipelineSlugFacts.
Import Py PyFacts PyMore Enrich ValidateSlugs ClassifierFacts SlugFacts DedupFacts.
Import SlugValidatorFacts UrlSafeFacts AsciiSlugFacts MainFacts InstructionFacts.

(** A lowercase letter or a digit of ASCII. *)
Definition solid (c : N) : bool :=
  ((97 <=? c) && (c <=? 122)) || ((48 <=? c) && (c <=? 57)).

(** The row of the output file, as far as the slug validator reads it. *)
Definition output_row (e : enriched) : Csv.row :=
  {[ "slug"%string := e_slug e; "name"%string := e_name e ]}.

Lemma In_squeeze (p : N -> bool) (repl s : pystr) (b : bool) (c : N) :
  p c = false -> In c s -> In c (squeeze p repl b s).
Proof.
  intros Hc. revert b. induction s as [|x t IH]; intros b; simpl; [tauto|].
  intros [-> | Hin].
  - rewrite Hc. left. reflexivity.
  - destruct (p x); [apply in_or_app; right | right]; apply IH; exact Hin.
Qed.

Lemma In_strip_by (p : N -> bool) (s : pystr) (c : N) :
  p c = false -> In c s -> In c (strip_by p s).
Proof.
  intros Hc Hin.
  destruct (lstrip_by_split p s) as [pre [Hs Hpre]].
  destruct (rstrip_by_split p (lstrip_by p s)) as [suf [Ht Hsuf]].
  fold (strip_by p s) in Ht. rewrite Hs, Ht in Hin.
  rewrite List.Forall_forall in Hpre, Hsuf.
  apply in_app_or in Hin as [Hin | Hin]; [specialize (Hpre c Hin); congruence|].
  apply in_app_or in Hin as [Hin | Hin]; [exact Hin|].
  specialize (Hsuf c Hin). congruence.
Qed.

Lemma NoDup_multiplicity (l : list pystr) (s : pystr) :
  NoDup l -> (multiplicity s l <= 1)%nat.
Proof.
  induction 1 as [|x l Hx _ IH]; [unfold multiplicity; simpl; lia|].
  change (x :: l) with ([x] ++ l). rewrite multiplicity_app.
  unfold multiplicity at 1. simpl.
  destruct (str_eq s x) eqn:Hsx; simpl; [|exact IH].
  apply str_eq_true in Hsx. subst x.
  destruct (Nat.eq_dec (multiplicity s l) 0%nat) as [->|Hpos]; [lia|].
  exfalso. apply Hx. apply list_elem_of_In. apply multiplicity_pos. lia.
Qed.

Section Pipeline.
Context {U : Unicode}.

(** A slug the validator has no error for: URL-safe characters, at least
    one, and no hyphen at either end. *)
Definition clean_slug (s : pystr) : Prop :=
  s <> []
  /\ Forall (fun c => url_char c = true) s
  /\ match s with [] => True | c :: _ => c <> 45 end
  /\ match rev s with [] => True | c :: _ => c <> 45 end.

Lemma solid_kept (c : N) :
  solid c = true -> kept c = true /\ blank c = false /\ hyphen c = false.
Proof.
  intros Hc.
  assert (Hlt : c < 128).
  { unfold solid in Hc. apply orb_true_iff in Hc as [Hc | Hc];
      apply andb_true_iff in Hc as [_ Hc]; apply N.leb_le in Hc; lia. }
  assert (Hall : forallb (fun c => implb (solid c)
                                     (kept c && negb (blank c) && negb (hyphen c)))
                         (map N.of_nat (seq 0 128)) = true) by (vm_compute; reflexivity).
  rewrite forallb_forall in Hall. specialize (Hall c (below_enum 128 c Hlt)).
  rewrite Hc in Hall. simpl in Hall.
  apply andb_true_iff in Hall as [Hall Hh]. apply andb_true_iff in Hall as [Hk Hb].
  apply negb_true_iff in Hh, Hb. tauto.
Qed.

(** A name the classifier accepts has a slug. *)
Lemma legitimate_slug (name : pystr) :
  is_legitimate_cocktail (Some name) = true -> create_slug name <> [].
Proof.
  unfold is_legitimate_cocktail. rewrite junk_loop_true. intros [_ Hin].
  assert (Hall : forallb (fun entry => existsb solid entry) LEGITIMATE_COCKTAILS = true)
    by (vm_compute; reflexivity).
  rewrite forallb_forall in Hall. specialize (Hall _ Hin).
  apply existsb_exists in Hall as [c [Hc Hsolid]].
  rewrite normalize_name_eq in Hc. apply strip_by_In in Hc.
  apply filter_In in Hc as [Hc _].
  destruct (solid_kept c Hsolid) as [Hk [Hb Hh]].
  assert (Hslug : In c (create_slug name)).
  { rewrite create_slug_eq. apply In_strip_by; [exact Hh|].
    apply In_squeeze; [exact Hb|]. apply filter_In. split; assumption. }
  intros Hnil. rewrite Hnil in Hslug. destruct Hslug.
Qed.

Lemma clean_slug_errors (s : pystr) (i : nat) :
  clean_slug s -> strip s = s /\ slug_errors i s = [].
Proof.
  intros [Hne [Hchars [Hhead Hlast]]]. split.
  - apply strip_by_all_false. eapply List.Forall_impl; [|exact Hchars].
    intros c Hc. apply url_char_not_space. exact Hc.
  - assert (Hsafe : is_url_safe s = true).
    { apply is_url_safe_spec. exists s. tauto. }
    unfold slug_errors. rewrite (url_safe_lower _ Hsafe), str_eq_refl, Hsafe.
    unfold startswith, endswith. change (rev u"-") with [45]. change u"-" with [45].
    replace (starts [45] s) with false.
    + replace (starts [45] (rev s)) with false; [reflexivity|].
      destruct (rev s) as [|c t]; [reflexivity|]. cbn [starts].
      destruct (N.eqb_spec 45 c); [congruence | reflexivity].
    + destruct s as [|c t]; [reflexivity|]. cbn [starts].
      destruct (N.eqb_spec 45 c); [congruence | reflexivity].
Qed.

Lemma create_slug_clean (name : pystr) :
  Forall (fun c => c < 128) name -> create_slug name <> [] ->
  clean_slug (create_slug name).
Proof.
  intros Hname Hne. split; [exact Hne|].
  split; [apply create_slug_url_chars; exact Hname|].
  rewrite create_slug_eq.
  destruct (strip_by_edges hyphen
              (squeeze blank [45] false (List.filter kept (lower name)))) as [Hhead Hlast].
  unfold hyphen in Hhead, Hlast. split.
  - destruct (strip_by _ _) as [|c t]; [exact I|]. apply N.eqb_neq. exact Hhead.
  - destruct (rev (strip_by _ _)) as [|c t]; [exact I|]. apply N.eqb_neq. exact Hlast.
Qed.

Lemma renamed_clean (s ident : pystr) :
  clean_slug s -> ident <> [] -> Forall (fun c => solid c = true) ident ->
  clean_slug (s ++ 45 :: ident).
Proof.
  intros [Hne [Hchars [Hhead Hlast]]] Hid Hsolid.
  assert (Hurl : forall c, solid c = true -> url_char c = true /\ c <> 45).
  { intros c Hc. unfold solid in Hc. rewrite url_char_spec.
    apply orb_true_iff in Hc as [Hc | Hc]; apply andb_true_iff in Hc as [H1 H2];
      apply N.leb_le in H1, H2; split; (lia || tauto). }
  split; [destruct s; discriminate|]. split; [|split].
  - apply Forall_app. split; [exact Hchars|].
    constructor; [reflexivity|]. eapply List.Forall_impl; [|exact Hsolid].
    intros c Hc. apply Hurl. exact Hc.
  - destruct s as [|c t]; [contradiction | exact Hhead].
  - rewrite rev_app_distr. simpl. apply List.Forall_rev in Hsolid.
    destruct (rev ident) as [|c t] eqn:Hrev.
    + apply (f_equal (@rev N)) in Hrev. rewrite rev_involutive in Hrev. contradiction.
    + simpl. apply List.Forall_cons_iff in Hsolid as [Hc _]. apply Hurl. exact Hc.
Qed.

(** The records before the pass over the slugs: the slug is that of the
    name, and the name is legitimate. *)
Lemma base_records (rows : list Csv.row) :
  Forall (fun e => e_slug e = create_slug (e_name e)
                   /\ is_legitimate_cocktail (Some (e_name e)) = true)
         (omap enrich_cocktail (filter_legitimate rows)).
Proof.
  unfold filter_legitimate.
  induction rows as [|row rest IH]; [constructor|].
  cbn [List.filter].
  destruct (is_legitimate_cocktail (Some (strip (Csv.get row "name")))) eqn:Hl; [|exact IH].
  change (omap enrich_cocktail (row :: ?l))
    with (match enrich_cocktail row with
          | Some y => y :: omap enrich_cocktail l
          | None => omap enrich_cocktail l
          end).
  unfold enrich_cocktail at 1. unfold Csv.get in Hl.
  destruct (row !! "name"%string) as [name|]; [|exact IH].
  destruct (row !! "id"%string) as [ident|]; [|exact IH].
  constructor; [|exact IH]. split; [reflexivity | exact Hl].
Qed.

Lemma dedup_clean (es : list enriched) :
  forall prior,
  Forall (fun e => clean_slug (e_slug e) /\ clean_slug (e_slug e ++ 45 :: e_id e)) es ->
  Forall clean_slug (map e_slug (dedup prior es)).
Proof.
  induction es as [|e es' IH]; intros prior Hall; [constructor|].
  apply List.Forall_cons_iff in Hall as [[He Hr] Hall].
  simpl. constructor; [|apply IH; exact Hall].
  destruct (bool_decide (e_slug e ∈ prior)); [exact Hr | exact He].
Qed.

Lemma output_errors (es : list enriched) :
  Forall clean_slug (map e_slug es) ->
  forall i, file_errors i (map output_row es) = []
            /\ file_slugs (map output_row es) = map e_slug es.
Proof.
  unfold file_slugs.
  induction es as [|e es' IH]; intros Hall i; [split; reflexivity|].
  apply List.Forall_cons_iff in Hall as [He Hall].
  destruct (IH Hall (S i)) as [Herr Hslugs].
  destruct (clean_slug_errors (e_slug e) i He) as [Hstrip Hnone].
  assert (Hget : strip (Csv.get (output_row e) "slug") = e_slug e).
  { unfold Csv.get, output_row. rewrite lookup_insert_eq. exact Hstrip. }
  assert (Hne : e_slug e <> []) by (destruct He as [Hne _]; exact Hne).
  cbn [map file_errors List.filter]. rewrite Hget, Herr, Hslugs.
  rewrite !bool_decide_eq_false_2 by exact Hne.
  rewrite Hnone. split; reflexivity.
Qed.

End Pipeline.

(** X14. The enricher's output passes the slug validator when the names
    written are ASCII, the identifiers are pairwise different and made of
    lowercase letters and digits, and no name's slug is another's followed
    by a hyphen and that row's identifier. *)
Theorem enriched_slugs_validate (U : Unicode) (rows : list Csv.row) :
  let out := Enrich.main rows in
  Forall (fun e => Forall (fun c => c < 128) (e_name e)) out ->
  Forall (fun e => e_id e <> [] /\ Forall (fun c => solid c = true) (e_id e)) out ->
  NoDup (map e_id out) ->
  (forall e e', In e out -> In e' out ->
     create_slug (e_name e') <> create_slug (e_name e) ++ u"-" ++ e_id e) ->
  validate_slugs (map output_row out) = true.
Proof.
  intros out Hnames Hids Hnodup Hbase.
  pose proof (main_dedup rows) as Hmain. fold out in Hmain.
  set (es := omap enrich_cocktail (filter_legitimate rows)) in *.
  pose proof (dedup_id_name es []) as Hpairs. rewrite <- Hmain in Hpairs.
  pose proof (base_records rows) as Hrec. fold es in Hrec.
  rewrite List.Forall_forall in Hrec, Hnames, Hids.
  (* each base record has a row of the output with its identifier and name *)
  assert (Hout : forall e, In e es ->
            exists o, In o out /\ e_id o = e_id e /\ e_name o = e_name e).
  { intros e He.
    apply (in_map (fun e => (e_id e, e_name e))) in He. rewrite <- Hpairs in He.
    apply in_map_iff in He as [o [Ho Hin]]. exists o.
    injection Ho as Hi Hn. tauto. }
  assert (Hclean : Forall (fun e => clean_slug (e_slug e)
                                    /\ clean_slug (e_slug e ++ 45 :: e_id e)) es).
  { apply List.Forall_forall. intros e He.
    destruct (Hrec e He) as [Hslug Hlegit].
    destruct (Hout e He) as [o [Ho [Hi Hn]]].
    assert (Hc : clean_slug (e_slug e)).
    { rewrite Hslug. apply create_slug_clean.
      - rewrite <- Hn. exact (Hnames o Ho).
      - apply legitimate_slug. exact Hlegit. }
    split; [exact Hc|].
    destruct (Hids o Ho) as [Hne Hsolid]. rewrite Hi in Hne, Hsolid.
    apply renamed_clean; assumption. }
  assert (Hunique : NoDup (map e_slug out)).
  { rewrite Hmain. apply dedup_NoDup.
    - replace (map e_id es) with (map fst (map (fun e => (e_id e, e_name e)) es))
        by (rewrite map_map; reflexivity).
      rewrite <- Hpairs, map_map. exact Hnodup.
    - apply List.Forall_forall. intros e He Hin.
      destruct (Hout e He) as [o [Ho [Hi _]]].
      destruct (Hids o Ho) as [_ Hsolid]. rewrite Hi in Hsolid.
      rewrite List.Forall_forall in Hsolid. specialize (Hsolid 45 Hin). discriminate.
    - intros e e' He He'.
      destruct (Hrec e He) as [Hslug _]. destruct (Hrec e' He') as [Hslug' _].
      destruct (Hout e He) as [o [Ho [Hi Hn]]].
      destruct (Hout e' He') as [o' [Ho' [_ Hn']]].
      rewrite Hslug, Hslug', <- Hn, <- Hn', <- Hi. exact (Hbase o o' Ho Ho'). }
  assert (Hslugs : Forall clean_slug (map e_slug out))
    by (rewrite Hmain; apply dedup_clean; exact Hclean).
  destruct (output_errors out Hslugs 2) as [Herr Hfile].
  unfold validate_slugs.
  destruct (scan_report (map output_row out) 2 init) as [He [_ Hs]].
  rewrite He, Hs, Herr, Hfile. simpl.
  rewrite (proj2 (duplicates_nil (map e_slug out)))
    by (intros s; apply NoDup_multiplicity; exact Hunique).
  reflexivity.
Qed.

Lemma enriched_slugs_validate_witness :
  let rows : list Csv.row :=
    [ {[ "id"%string := u"5"; "name"%string := u"Martini" ]};
      {[ "id"%string := u"9"; "name"%string := u"martini" ]};
      {[ "id"%string := u"12"; "name"%string := u"Dark 'n' Stormy" ]};
      {[ "id"%string := u"13"; "name"%string := u"Old Fashioned" ]} ] in
  map e_slug (Enrich.main (U := Latin1) rows) = [u"martini"; u"martini-9"; u"old-fashioned"]
  /\ validate_slugs (U := Latin1) (map output_row (Enrich.main (U := Latin1) rows)) = true.
Proof.
  split; [vm_compute; reflexivity|].
  apply (enriched_slugs_validate Latin1).
  - vm_compute. repeat (apply List.Forall_cons; [repeat constructor|]). apply List.Forall_nil.
  - vm_compute.
    repeat (apply List.Forall_cons; [split; [discriminate | repeat constructor]|]).
    apply List.Forall_nil.
  - apply (bool_decide_unpack _). vm_compute. exact I.
  - intros e e' He He'. vm_compute in He, He'.
    destruct He as [<- | [<- | [<- | []]]]; destruct He' as [<- | [<- | [<- | []]]];
      vm_compute; discriminate.
Defined.

End PipelineSlugFacts.

(** * Rows with missing cells

    [csv.DictReader] gives every row the columns of the header.  A line
    with fewer cells than the header has [None] in the columns it lacks,
    and a column the header lacks is no key of any row.  The modules above
    take the cells of a row to be strings; this one takes a cell to be a
    string or [None] and follows the exceptions that [None] raises. *)

Module Reader.
Import Py Enrich.

Abbreviation cell := (option pystr).
Abbreviation row := (gmap string cell).

Inductive exn : Type := KeyError | AttributeError.

(** A value or the exception raised. *)
Definition result (A : Type) : Type := (exn + A)%type.

Definition ret {A : Type} (a : A) : result A := inr a.
Definition raise {A : Type} (e : exn) : result A := inl e.
Definition bind {A B : Type} (m : result A) (k : A -> result B) : result B :=
  match m with
  | inl e => inl e
  | inr a => k a
  end.

Notation "'letE' x := m 'in' k" := (bind m (fun x => k))
  (at level 10, x name, m at level 100, k at level 200, only parsing).

(** [row[key]] *)
Definition item (r : row) (key : string) : result cell :=
  match r !! key with
  | None => raise KeyError
  | Some c => ret c
  end.

(** [row.get(key, default)] *)
Definition get (r : row) (key : string) (default : pystr) : cell :=
  match r !! key with
  | None => Some default
  | Some c => c
  end.

(** [f'{c}'] *)
Definition format (c : cell) : pystr :=
  match c with
  | None => u"None"
  | Some s => s
  end.

(** The row [enrich_cocktail] builds, as far as it depends on the cells of
    the input row: the identifier, the slug, the name and the three fields
    made of other cells.  The fields left out are made of the name alone by
    functions of strings, which raise nothing. *)
Record enriched : Type := {
  w_id : cell;
  w_slug : pystr;
  w_name : pystr;
  w_image_url : cell;
  w_glassware : pystr;
  w_instructions : pystr
}.

Definition set_slug (e : enriched) (slug : pystr) : enriched :=
  {| w_id := w_id e; w_slug := slug; w_name := w_name e;
     w_image_url := w_image_url e; w_glassware := w_glassware e;
     w_instructions := w_instructions e |}.

Section Enricher.
Context {U : Unicode} {D : Instructions.Digits}.

(** [c.strip()] *)
Definition strip_cell (c : cell) : result pystr :=
  match c with
  | None => raise AttributeError
  | Some s => ret (strip s)
  end.

(** [clean_glassware(glass)]: [glass.lower()] raises on [None]. *)
Definition clean_glassware (glass : cell) : result pystr :=
  match glass with
  | None => raise AttributeError
  | Some g => ret (Derive.clean_glassware g)
  end.

(** [clean_instructions(instructions)]: [None] is false, as the empty
    string is. *)
Definition clean_instructions (instructions : cell) : pystr :=
  match instructions with
  | None => Instructions.DEFAULT_INSTRUCTIONS
  | Some s => Instructions.clean_instructions s
  end.

(** [enrich_cocktail(row)], the entries of the dict in their order. *)
Definition enrich_cocktail (r : row) : result enriched :=
  letE name := item r "name" in
  letE name := strip_cell name in
  let slug := create_slug name in
  letE id := item r "id" in
  let image_url := get r "image_url" u"" in
  letE glassware := clean_glassware (get r "glass" u"Cocktail glass") in
  let instructions := clean_instructions (get r "instructions" u"") in
  ret {| w_id := id; w_slug := slug; w_name := name; w_image_url := image_url;
         w_glassware := glassware; w_instructions := instructions |}.

(** The filter loop of [main]; it is not inside a [try]. *)
Fixpoint filter_loop (rows legitimate : list row) : result (list row) :=
  match rows with
  | [] => ret legitimate
  | r :: rest =>
    letE name := strip_cell (get r "name" u"") in
    if is_legitimate_cocktail (Some name) then filter_loop rest (legitimate ++ [r])
    else filter_loop rest legitimate
  end.

(** The enrichment loop of [main]; a row whose enrichment raises is
    reported and left out. *)
Fixpoint enrich_loop (legitimate : list row)
    (enriched_cocktails : list enriched) (seen_slugs : gmap pystr cell)
    : list enriched * gmap pystr cell :=
  match legitimate with
  | [] => (enriched_cocktails, seen_slugs)
  | r :: rest =>
    match enrich_cocktail r with
    | inl _ => enrich_loop rest enriched_cocktails seen_slugs
    | inr enriched =>
      let slug := w_slug enriched in
      match seen_slugs !! slug with
      | Some _ =>
        let enriched := set_slug enriched (slug ++ u"-" ++ format (w_id enriched)) in
        enrich_loop rest (enriched_cocktails ++ [enriched]) seen_slugs
      | None =>
        enrich_loop rest (enriched_cocktails ++ [enriched])
                    (<[slug := w_id enriched]> seen_slugs)
      end
    end
  end.

(** [main]: the rows written to the enriched CSV, or the exception that
    ends the run. *)
Definition main (rows : list row) : result (list enriched) :=
  letE legitimate := filter_loop rows [] in
  ret (enrich_loop legitimate [] ∅).1.

End Enricher.

End Reader.

Module ReaderTest.
Import Py Instructions Reader.

Example main_short_rows :
  main (U := Latin1)
    [ {[ "id" := Some u"1"; "name" := Some u" Martini "; "glass" := Some u"Cocktail glass";
         "instructions" := Some u"Stir. Strain" ]};
      {[ "id" := Some u"2"; "name" := Some u"Brain Fart"; "glass" := Some u"Shot glass";
         "instructions" := Some u"Pour" ]};
      {[ "id" := Some u"3"; "name" := Some u"Negroni"; "glass" := None;
         "instructions" := None ]};
      {[ "id" := Some u"4"; "name" := Some u"martini"; "glass" := Some u"Rocks glass";
         "instructions" := None ]} ]%string
  = ret [ {| w_id := Some u"1"; w_slug := u"martini"; w_name := u"Martini";
             w_image_url := Some u""; w_glassware := u"Coupe Glass";
             w_instructions := u"1. Stir. 2. Strain." |};
          {| w_id := Some u"4"; w_slug := u"martini-4"; w_name := u"martini";
             w_image_url := Some u""; w_glassware := u"Old Fashioned Glass";
             w_instructions := DEFAULT_INSTRUCTIONS |} ].
Proof. vm_compute. reflexivity. Qed.

Example main_raises :
  main (U := Latin1)
    [ {[ "id" := Some u"1"; "name" := Some u"Martini" ]};
      {[ "id" := Some u"2"; "name" := None ]} ]%string
  = raise AttributeError.
Proof. vm_compute. reflexivity. Qed.

End ReaderTest.

(** ** Which rows [main] writes *)

Module ReaderFacts.
Import Py Enrich Instructions Reader.

Definition name_missing (r : row) : bool :=
  match r !! "name"%string with
  | Some None => true
  | _ => false
  end.

Section Facts.
Context {U : Unicode} {D : Digits}.

(** The test of the filter loop. *)
Definition kept (r : row) : bool :=
  match get r "name" u"" with
  | Some name => is_legitimate_cocktail (Some (strip name))
  | None => false
  end.

(** The identifier and name a row is written with, when it is written:
    its name is a legitimate one, it has the column [id], and its cell for
    [glass] is not [None]. *)
Definition written_cells (r : row) : option (cell * pystr) :=
  match r !! "name"%string with
  | Some (Some name) =>
    if is_legitimate_cocktail (Some (strip name)) then
      match r !! "id"%string, get r "glass" u"Cocktail glass" with
      | Some id, Some _ => Some (id, strip name)
      | _, _ => None
      end
    else None
  | _ => None
  end.

(** The identifier and name [enrich_cocktail] gives, when it returns. *)
Definition enriched_cells (r : row) : option (cell * pystr) :=
  match enrich_cocktail r with
  | inl _ => None
  | inr e => Some (w_id e, w_name e)
  end.

Lemma filter_loop_spec (rows : list row) :
  forall legitimate,
  filter_loop rows legitimate
  = if existsb name_missing rows then raise AttributeError
    else ret (legitimate ++ List.filter kept rows).
Proof.
  induction rows as [|r rest IH]; intros legitimate; simpl.
  - rewrite app_nil_r. reflexivity.
  - unfold name_missing at 1, kept at 1, get.
    destruct (r !! "name"%string) as [[name|]|]; simpl.
    + destruct (is_legitimate_cocktail (Some (strip name))); rewrite IH;
        [rewrite <- app_assoc|]; reflexivity.
    + reflexivity.
    + apply IH.
Qed.

Lemma enrich_loop_cells (legitimate : list row) :
  forall enriched_cocktails seen_slugs,
  map (fun e => (w_id e, w_name e))
      (enrich_loop legitimate enriched_cocktails seen_slugs).1
  = map (fun e => (w_id e, w_name e)) enriched_cocktails
    ++ omap enriched_cells legitimate.
Proof.
  induction legitimate as [|r rest IH]; intros acc seen.
  - simpl. rewrite app_nil_r. reflexivity.
  - change (omap enriched_cells (r :: rest))
      with (match enriched_cells r with
            | Some y => y :: omap enriched_cells rest
            | None => omap enriched_cells rest
            end).
    cbn [enrich_loop]. unfold enriched_cells at 1.
    destruct (enrich_cocktail r) as [e|e]; [apply IH|].
    destruct (seen !! w_slug e); rewrite IH, map_app, <- app_assoc; reflexivity.
Qed.

Lemma kept_written (rows : list row) :
  omap enriched_cells (List.filter kept rows) = omap written_cells rows.
Proof.
  induction rows as [|r rest IH]; [reflexivity|].
  cbn [List.filter].
  change (omap written_cells (r :: rest))
    with (match written_cells r with
          | Some y => y :: omap written_cells rest
          | None => omap written_cells rest
          end).
  assert (Hr : (if kept r then enriched_cells r else None) = written_cells r).
  { unfold kept, written_cells, enriched_cells, enrich_cocktail, item, get.
    destruct (r !! "name"%string) as [[name|]|]; simpl.
    - destruct (is_legitimate_cocktail (Some (strip name))); [|reflexivity].
      destruct (r !! "id"%string) as [ident|]; simpl; [|reflexivity].
      destruct (r !! "glass"%string) as [[glass|]|]; reflexivity.
    - reflexivity.
    - reflexivity. }
  rewrite <- Hr, <- IH. destruct (kept r); [|reflexivity].
  change (omap enriched_cells (r :: ?l))
    with (match enriched_cells r with
          | Some y => y :: omap enriched_cells l
          | None => omap enriched_cells l
          end).
  reflexivity.
Qed.

Lemma written_cells_legitimate (rows : list row) :
  Forall (fun p => is_legitimate_cocktail (Some p.2) = true) (omap written_cells rows)
  /\ (length (omap written_cells rows) <= length rows)%nat.
Proof.
  induction rows as [|r rest [IH1 IH2]]; [split; [constructor | reflexivity]|].
  change (omap written_cells (r :: rest))
    with (match written_cells r with
          | Some y => y :: omap written_cells rest
          | None => omap written_cells rest
          end).
  destruct (written_cells r) as [[ident name]|] eqn:Hw; [|split; [exact IH1 | simpl; lia]].
  split; [|simpl; lia]. constructor; [|exact IH1].
  unfold written_cells in Hw.
  destruct (r !! "name"%string) as [[s|]|]; try discriminate.
  destruct (is_legitimate_cocktail (Some (strip s))) eqn:Hl; [|discriminate].
  destruct (r !! "id"%string); [|discriminate].
  destruct (get r "glass" u"Cocktail glass"); [|discriminate].
  injection Hw as _ <-. exact Hl.
Qed.

Lemma name_missing_Exists (rows : list row) :
  existsb name_missing rows = true
  <-> Exists (fun r => r !! "name"%string = Some None) rows.
Proof.
  rewrite existsb_exists, List.Exists_exists.
  split; intros [r [Hin Hr]]; exists r; (split; [exact Hin|]); unfold name_missing in *.
  - destruct (r !! "name"%string) as [[s|]|]; try discriminate. reflexivity.
  - rewrite Hr. reflexivity.
Qed.

(** ** Rows without a missing cell

    On rows whose cells are all strings [main] raises nothing and writes
    what [Enrich.main] gives: the modules above describe these rows. *)

Definition of_strings (r : Csv.row) : row := Some <$> r.

Lemma enrich_cocktail_of_strings (r : Csv.row) :
  match Enrich.enrich_cocktail r with
  | None => exists e, enrich_cocktail (of_strings r) = inl e
  | Some e =>
    exists w, enrich_cocktail (of_strings r) = inr w
      /\ w_id w = Some (e_id e) /\ w_slug w = e_slug e /\ w_name w = e_name e
  end.
Proof.
  unfold Enrich.enrich_cocktail, enrich_cocktail, item, get, of_strings.
  rewrite !lookup_fmap.
  destruct (r !! "name"%string) as [name|]; simpl; [|eexists; reflexivity].
  destruct (r !! "id"%string) as [ident|]; simpl; [|eexists; reflexivity].
  destruct (r !! "glass"%string) as [glass|]; simpl;
    eexists; (split; [reflexivity|]); simpl; tauto.
Qed.

Lemma enrich_loop_of_strings (legitimate : list Csv.row) :
  forall acc acc' seen_slugs,
  map (fun w => (w_id w, w_slug w, w_name w)) acc'
  = map (fun e => (Some (e_id e), e_slug e, e_name e)) acc ->
  map (fun w => (w_id w, w_slug w, w_name w))
      (enrich_loop (map of_strings legitimate) acc' (Some <$> seen_slugs)).1
  = map (fun e => (Some (e_id e), e_slug e, e_name e))
        (Enrich.enrich_loop legitimate acc seen_slugs).1.
Proof.
  induction legitimate as [|r rest IH]; intros acc acc' seen Hacc; [exact Hacc|].
  cbn [map enrich_loop Enrich.enrich_loop].
  pose proof (enrich_cocktail_of_strings r) as Hr.
  destruct (Enrich.enrich_cocktail r) as [e|].
  - destruct Hr as [w [Hw [Hid [Hslug Hname]]]]. rewrite Hw.
    rewrite lookup_fmap, Hslug.
    destruct (seen !! e_slug e) as [first|]; simpl.
    + apply IH. rewrite !map_app, Hacc. simpl.
      rewrite Hid, Hname. reflexivity.
    + rewrite Hid, <- fmap_insert. apply IH. rewrite !map_app, Hacc. simpl.
      rewrite Hid, Hslug, Hname. reflexivity.
  - destruct Hr as [e He]. rewrite He. apply IH. exact Hacc.
Qed.

Lemma main_of_strings (rows : list Csv.row) :
  exists out,
    main (map of_strings rows) = ret out
    /\ map (fun w => (w_id w, w_slug w, w_name w)) out
       = map (fun e => (Some (e_id e), e_slug e, e_name e)) (Enrich.main rows).
Proof.
  unfold main. rewrite filter_loop_spec.
  assert (Hnone : existsb name_missing (map of_strings rows) = false).
  { induction rows as [|r rest IH]; [reflexivity|]. simpl. rewrite IH.
    unfold name_missing, of_strings. rewrite lookup_fmap.
    destruct (r !! "name"%string); reflexivity. }
  assert (Hkept : List.filter kept (map of_strings rows)
                  = map of_strings (filter_legitimate rows)).
  { clear Hnone. unfold filter_legitimate. induction rows as [|r rest IH]; [reflexivity|].
    cbn [map List.filter]. rewrite IH.
    assert (Hk : kept (of_strings r)
                 = is_legitimate_cocktail (Some (strip (Csv.get r "name")))).
    { unfold kept, get, of_strings, Csv.get. rewrite lookup_fmap.
      destruct (r !! "name"%string); reflexivity. }
    rewrite Hk. destruct (is_legitimate_cocktail _); reflexivity. }
  rewrite Hnone, Hkept. simpl. eexists. split; [reflexivity|].
  unfold Enrich.main. rewrite <- (fmap_empty Some).
  apply enrich_loop_of_strings. reflexivity.
Qed.

End Facts.

(** X10. [main] raises [AttributeError] when some row has [None] for its
    name (the filter loop is outside the [try]), and no other exception.
    Otherwise it writes one row for each input row whose trimmed name is
    legitimate, that has the column [id] and whose cell for [glass] is not
    [None], in the order of the input, with the cell of [id], which may be
    [None], and the trimmed name: the [try] drops the other legitimate rows
    and the pass over the slugs changes neither.  Of four rows with the
    names [Martini], [Brain Fart], [Negroni] and [Old Fashioned], the third
    without glass and the fourth without identifier, the first and the last
    are written. *)
Theorem main_writes_enriched_rows (U : Unicode) (D : Digits) (rows : list row) :
  match main rows with
  | inl e =>
    e = AttributeError /\ Exists (fun r => r !! "name"%string = Some None) rows
  | inr out =>
    Forall (fun r => r !! "name"%string <> Some None) rows
    /\ map (fun e => (w_id e, w_name e)) out = omap written_cells rows
    /\ (length out <= length rows)%nat
    /\ Forall (fun e => is_legitimate_cocktail (Some (w_name e)) = true) out
  end
  /\ main [ {[ "name" := Some u"Martini"; "glass" := Some u"Cocktail glass";
               "id" := Some u"1" ]};
            {[ "name" := Some u"Brain Fart"; "glass" := Some u"Shot glass";
               "id" := Some u"2" ]};
            {[ "name" := Some u"Negroni"; "glass" := None; "id" := None ]};
            {[ "name" := Some u"Old Fashioned"; "glass" := Some u"Rocks glass";
               "id" := None ]} ]%string
     = ret [ {| w_id := Some u"1"; w_slug := u"martini"; w_name := u"Martini";
                w_image_url := Some u""; w_glassware := u"Coupe Glass";
                w_instructions := DEFAULT_INSTRUCTIONS |};
             {| w_id := None; w_slug := u"old-fashioned"; w_name := u"Old Fashioned";
                w_image_url := Some u""; w_glassware := u"Old Fashioned Glass";
                w_instructions := DEFAULT_INSTRUCTIONS |} ]
  /\ main [ {[ "name" := Some u"Martini"; "id" := Some u"1" ]};
            {[ "name" := None; "id" := Some u"2" ]} ]%string
     = raise AttributeError.
Proof.
  split; [|split].
  - unfold main. rewrite filter_loop_spec.
    pose proof (name_missing_Exists rows) as Hex.
    destruct (existsb name_missing rows); simpl.
    + split; [reflexivity | apply Hex; reflexivity].
    + assert (Hcells : map (fun e => (w_id e, w_name e))
                           (enrich_loop (List.filter kept rows) [] ∅).1
                       = omap written_cells rows)
        by (rewrite enrich_loop_cells, kept_written; reflexivity).
      destruct (written_cells_legitimate rows) as [Hlegit Hlen].
      split; [|split; [exact Hcells|split]].
      * apply List.Forall_forall. intros r Hin Hr.
        assert (Hfalse : false = true); [|discriminate].
        apply Hex. apply List.Exists_exists. exists r. split; assumption.
      * rewrite <- (length_map (fun e => (w_id e, w_name e))), Hcells. exact Hlen.
      * rewrite <- Hcells in Hlegit. apply List.Forall_map in Hlegit. exact Hlegit.
  - vm_compute. reflexivity.
  - vm_compute. reflexivity.
Qed.

End ReaderFacts.
